(** * Correlated topic models of the sidetopics repository

    A shallow embedding of the variational inference engine of

      - [sidetopics/model/ctm.py]              (Bouchard bound),
      - [sidetopics/model/ctm_bohning_fast.py] (Bohning bound),
      - [src/model/ctm_bohning.py]             (older Bohning variant),

    and the properties of its training loop, query loop, likelihood and
    variational bound.

    The Python code computes with numpy arrays of floats.  The embedding is
    written once over an abstract number type (class [Numeric]), so that the
    statements about control flow, in-place updates and diagnostics hold for
    every interpretation of the arithmetic, IEEE floats included.  Statements
    that need arithmetic laws (sums to one, positivity, equality of sums) are
    proved for the interpretation over the real numbers, [RNum]. *)

From Stdlib Require Import String ZArith Lia Bool Reals Lra Psatz List.
Import ListNotations.

Set Implicit Arguments.

(** ** Numbers *)

(** numpy's [dtype] argument of the model: [np.float32] or [np.float64]. *)
Inductive DType : Type := Float32 | Float64.

Definition is_float64 (t : DType) : bool :=
  match t with Float64 => true | Float32 => false end.

(** The scalar operations the models use. [nZ] is the conversion of a Python
    [int]; a decimal literal such as [0.5] is written as a quotient of two
    integers. [nltb a b] is [a < b], [neqb a b] is [a == b]. *)
Class Numeric (num : Type) : Type := {
  nZ : Z -> num;
  npi : num;
  nadd : num -> num -> num;
  nsub : num -> num -> num;
  nmul : num -> num -> num;
  ndiv : num -> num -> num;
  nneg : num -> num;
  nexp : num -> num;
  nlog : num -> num;
  nsqrt : num -> num;
  nmax : num -> num -> num;
  nltb : num -> num -> bool;
  neqb : num -> num -> bool;
  nisnan : num -> bool;
  nisinf : num -> bool;
  nastype : DType -> num -> num
}.

Declare Scope num_scope.
Delimit Scope num_scope with num.
Infix "+!" := nadd (at level 50, left associativity) : num_scope.
Infix "-!" := nsub (at level 50, left associativity) : num_scope.
Infix "*!" := nmul (at level 40, left associativity) : num_scope.
Infix "/!" := ndiv (at level 40, left associativity) : num_scope.

(** The interpretation over the real numbers: exact arithmetic, no NaN and no
    infinity, [astype] the identity. *)
#[export] Instance RNum : Numeric R := {
  nZ := IZR;
  npi := PI;
  nadd := Rplus;
  nsub := Rminus;
  nmul := Rmult;
  ndiv := Rdiv;
  nneg := Ropp;
  nexp := exp;
  nlog := ln;
  nsqrt := sqrt;
  nmax := Rmax;
  nltb := fun a b => if Rlt_dec a b then true else false;
  neqb := fun a b => if Req_dec_T a b then true else false;
  nisnan := fun _ => false;
  nisinf := fun _ => false;
  nastype := fun _ x => x
}.

(** Real numbers with a NaN: [None] is NaN, every operation propagates it and
    every comparison with it is false. *)
Definition nanR : Type := option R.

Definition lift1 (f : R -> R) (a : nanR) : nanR :=
  match a with Some x => Some (f x) | None => None end.

Definition lift2 (f : R -> R -> R) (a b : nanR) : nanR :=
  match a, b with Some x, Some y => Some (f x y) | _, _ => None end.

Definition liftb (f : R -> R -> bool) (a b : nanR) : bool :=
  match a, b with Some x, Some y => f x y | _, _ => false end.

#[export] Instance NanNum : Numeric nanR := {
  nZ := fun z => Some (IZR z);
  npi := Some PI;
  nadd := lift2 Rplus;
  nsub := lift2 Rminus;
  nmul := lift2 Rmult;
  ndiv := lift2 Rdiv;
  nneg := lift1 Ropp;
  nexp := lift1 exp;
  nlog := lift1 ln;
  nsqrt := lift1 sqrt;
  nmax := lift2 Rmax;
  nltb := liftb (fun a b => if Rlt_dec a b then true else false);
  neqb := liftb (fun a b => if Req_dec_T a b then true else false);
  nisnan := fun a => match a with None => true | Some _ => false end;
  nisinf := fun _ => false;
  nastype := fun _ x => x
}.

(** ** Python exceptions and results *)

Inductive PyErr : Type :=
| AssertionError (msg : string)
| ZeroDivisionError
| IndexError
| LinAlgError.

Inductive Exec (A : Type) : Type :=
| Ok (a : A)
| Raise (e : PyErr).
Arguments Ok {A} a.
Arguments Raise {A} e.

Definition bind {A B : Type} (m : Exec A) (k : A -> Exec B) : Exec B :=
  match m with Ok a => k a | Raise e => Raise e end.

Notation "x <- m ;; k" := (bind m (fun x => k))
  (at level 61, m at next level, right associativity).
Notation "' p <- m ;; k" := (bind m (fun p => k))
  (at level 61, p pattern, m at next level, right associativity).

(** A [for] loop over [range]: the body continues with a new state ([inl]) or
    leaves the function with a value ([inr], a [return] inside the loop). *)
Fixpoint for_range {St Ret : Type} (body : nat -> St -> Exec (St + Ret))
    (itr count : nat) (st : St) : Exec (St + Ret) :=
  match count with
  | O => Ok (inl st)
  | S c =>
      match body itr st with
      | Ok (inl st') => for_range body (S itr) c st'
      | other => other
      end
  end.

(** ** numpy arrays

    A one-dimensional array is a list, a two-dimensional array a list of
    rows.  The operations below are the numpy expressions the models use, with
    the operand order of the source.  They describe the code on arrays of
    conforming shapes: where numpy would refuse to broadcast, the lists are
    cut to the shorter one. *)

(** A scipy sparse matrix in CSR form: the stored entries of each row, as
    (column, value) pairs in storage order; [.data] is the list of the stored
    values. *)
Record csr_matrix (num : Type) : Type := {
  sp_cols : nat;
  sp_rows : list (list (nat * num))
}.

Section Arrays.
  Context {num : Type} {N : Numeric num}.
  Local Open Scope num_scope.
  Local Abbreviation vec := (list num).
  Local Abbreviation mat := (list (list num)).
  Local Abbreviation csr := (csr_matrix num).

  (** The decimal literal [p/q], e.g. [lit 1 2] for [0.5]. *)
Definition lit (p q : Z) : num := nZ p /! nZ q.
Definition zero : num := nZ 0.
Definition one : num := nZ 1.
Definition two : num := nZ 2.
Definition ofnat (n : nat) : num := nZ (Z.of_nat n).

Fixpoint zipWith {A B C : Type} (f : A -> B -> C) (l : list A) (m : list B)
      : list C :=
    match l, m with
    | a :: l', b :: m' => f a b :: zipWith f l' m'
    | _, _ => nil
    end.

Definition nrows (M : mat) : nat := length M.
Definition ncols (M : mat) : nat :=
    match M with nil => O | r :: _ => length r end.

  (** [np.sum] of a one-dimensional array. *)
Definition vsum (v : vec) : num := fold_right nadd zero v.
  (** [np.sum] of a two-dimensional array. *)
Definition msum (M : mat) : num := vsum (map vsum M).
Definition dot (u v : vec) : num := vsum (zipWith nmul u v).

Definition entry (M : mat) (i j : nat) : num := nth j (nth i M nil) zero.
Definition column (M : mat) (j : nat) : vec := map (fun r => nth j r zero) M.

Definition mat_map (f : num -> num) (M : mat) : mat := map (map f) M.
Definition mat_zip (f : num -> num -> num) (A B : mat) : mat :=
    zipWith (zipWith f) A B.

  (** [c[:,np.newaxis] (op) M]: the column vector is the left operand. *)
Definition col_bcast_l (f : num -> num -> num) (c : vec) (M : mat) : mat :=
    zipWith (fun x r => map (f x) r) c M.
  (** [M (op) c[:,np.newaxis]]: the column vector is the right operand. *)
Definition col_bcast_r (f : num -> num -> num) (M : mat) (c : vec) : mat :=
    zipWith (fun r x => map (fun y => f y x) r) M c.
  (** [M (op) r[np.newaxis,:]] and [M (op) r]: a row vector on the right. *)
Definition row_bcast_r (f : num -> num -> num) (M : mat) (r : vec) : mat :=
    map (fun row => zipWith f row r) M.

  (** [M.sum(axis=1)], [M.sum(axis=0)], [M.mean(axis=0)], [M.max(axis=1)]. *)
Definition sum_axis1 (M : mat) : vec := map vsum M.
Definition sum_axis0 (M : mat) : vec :=
    map (fun j => vsum (column M j)) (seq 0 (ncols M)).
Definition mean_axis0 (M : mat) : vec :=
    map (fun x => x /! ofnat (nrows M)) (sum_axis0 M).
Definition vmax (v : vec) : num :=
    match v with nil => zero | x :: xs => fold_left nmax xs x end.
Definition max_axis1 (M : mat) : vec := map vmax M.

  (** [np.diag] of a vector builds the diagonal matrix, of a matrix reads the
      diagonal; [M.flat[::K+1]] of a [K] by [K] matrix is its diagonal too. *)
Definition np_diag (v : vec) : mat :=
    map (fun i => map (fun j => if Nat.eqb i j then nth i v zero else zero)
                      (seq 0 (length v)))
        (seq 0 (length v)).
Definition diagonal (M : mat) : vec :=
    map (fun i => entry M i i) (seq 0 (nrows M)).
  (** [M.flat[::K+1] += v] *)
Definition add_to_diagonal (M : mat) (v : vec) : mat :=
    map (fun i => map (fun j => if Nat.eqb i j
                                then entry M i j +! nth i v zero
                                else entry M i j)
                      (seq 0 (length (nth i M nil))))
        (seq 0 (nrows M)).
Definition outer (u v : vec) : mat := map (fun x => map (nmul x) v) u.
  (** [M.dot(v)] and [A.dot(B)] *)
Definition matvec (M : mat) (v : vec) : vec := map (fun r => dot r v) M.
Definition matmul (A B : mat) : mat :=
    map (fun r => map (fun j => dot r (column B j)) (seq 0 (ncols B))) A.
Definition transpose (M : mat) : mat :=
    map (column M) (seq 0 (ncols M)).

  (** [np.isnan(X).any()], [np.isinf(X).any()] on the entries of [X]. *)
Definition any_nan (xs : list num) : bool := existsb nisnan xs.
Definition any_inf (xs : list num) : bool := existsb nisinf xs.

  (** [np.exp(M - M.max(axis=1)[:,np.newaxis])] *)
Definition exp_shifted (M : mat) : mat :=
    mat_map nexp (col_bcast_r nsub M (max_axis1 M)).

  (** *** scipy sparse matrices *)

Definition sp_nrows (W : csr) : nat := length (sp_rows W).
Definition sp_data (W : csr) : list num :=
    concat (map (map snd) (sp_rows W)).
  (** [W.sum(axis=1)] and [W.sum()] *)
Definition sp_sum_axis1 (W : csr) : vec :=
    map (fun r => vsum (map snd r)) (sp_rows W).
Definition sp_sum (W : csr) : num := vsum (sp_sum_axis1 W).
  (** The entry of a sparse row at column [t]: the first stored value there,
      zero when none is stored. *)
Fixpoint sp_get (r : list (nat * num)) (t : nat) : num :=
    match r with
    | nil => zero
    | (c, x) :: r' => if Nat.eqb c t then x else sp_get r' t
    end.
  (** [(R.T.dot(E)).T] for sparse [R] (D by T) and dense [E] (D by K): the
      K by T matrix with entry sum_d R[d,t] * E[d,k]. *)
Definition spT_dot_T (R : csr) (E : mat) : mat :=
    map (fun k => map (fun t =>
           vsum (zipWith (fun r e => sp_get r t *! nth k e zero) (sp_rows R) E))
         (seq 0 (sp_cols R)))
        (seq 0 (ncols E)).
  (** [R.dot(V.T)] for sparse [R] (D by T) and dense [V] (K by T). *)
Definition sp_dot_T (R : csr) (V : mat) : mat :=
    map (fun r => map (fun vk => vsum (map (fun cx => snd cx *! nth (fst cx) vk zero) r)) V)
        (sp_rows R).
End Arrays.

(** ** Collaborators that are not part of the model files

    [scipy.linalg], [sklearn.covariance.oas] and two helpers of the
    repository's [util] package whose behaviour the specification does not
    describe are parameters of the embedding. *)
Record Externals (num : Type) : Type := {
  (** [sklearn.covariance.oas(X, assume_centered=False)], first component. *)
  oas : list (list num) -> list (list num);
  (** [scipy.linalg.inv]; [None] when it raises. *)
  la_inv : list (list num) -> option (list (list num));
  (** [scipy.linalg.det] *)
  la_det : list (list num) -> num;
  (** the logarithm applied by [sparseScalarProductOfSafeLnDot] *)
  safe_log : num -> num;
  (** [util.misc.clamp(boundIters, boundValues, likelyValues, bvIdx)] *)
  clamp : list nat -> list num -> list num -> nat
          -> list nat * list num * list num
}.

(** Modelled from the spec: [model.common.DataSet] is missing from the
    sources; it exposes the sparse document-term matrix [words], the number of
    documents and the total of the counts. *)
Record DataSet (num : Type) : Type := { words : csr_matrix num }.

(** *** Console output and the module's globals *)

Inductive Chan : Type := Stdout | Stderr.

(** A printed line: plain text, the text of a caught exception
    ([print(str(e))]), or a formatted line with the numbers it shows. *)
Inductive Msg (num : Type) : Type :=
| Text (s : string)
| ExceptionText
| UpdateLine (itr : nat) (name : string) (perp bound dif : num) (det : option num)
| IterationLine (itr : nat) (perp bound : num)
| BoundDegradation (prev cur : num).
Arguments Text {num} s.
Arguments ExceptionText {num}.

(** The lines printed so far, oldest first, and the module-level variable
    [last] of [ctm.py]. *)
Record Console (num : Type) : Type := {
  last : num;
  out : list (Chan * Msg num)
}.

Section Utilities.
  Context {num : Type} {N : Numeric num}.
  Variable ext : Externals num.
  Local Open Scope num_scope.
  Local Abbreviation vec := (list num).
  Local Abbreviation mat := (list (list num)).
  Local Abbreviation csr := (csr_matrix num).

  (** Modelled from the spec: [util.array_utils.normalizerows_ip] is missing
      from the sources; the specification calls it row-normalization: every
      row is divided by its sum, in place, and the array is returned. *)
Definition normalizerows_ip (M : mat) : mat :=
    map (fun r => map (fun x => x /! vsum r) r) M.

  (** Modelled from the spec: [util.sigmoid_utils.rowwise_softmax] is missing
      from the sources; the specification describes a row-wise softmax that is
      shifted by the row's maximum before exponentiation. *)
Definition rowwise_softmax (M : mat) : mat :=
    normalizerows_ip (exp_shifted M).

  (** Modelled from the spec: [util.sparse_elementwise.sparseScalarQuotientOfDot]
      is missing from the sources; the specification gives
      [R = words / (expMeans . vocab)] on the stored entries of [words] only,
      the other entries staying structural zeros. *)
Definition sparseScalarQuotientOfDot (A : csr) (B C : mat) : csr :=
    {| sp_cols := sp_cols A;
       sp_rows := zipWith (fun r b =>
                     map (fun cx => (fst cx, snd cx /! dot b (column C (fst cx)))) r)
                   (sp_rows A) B |}.

  (** Modelled from the spec: [util.sparse_elementwise.sparseScalarProductOfSafeLnDot]
      is missing from the sources; by the specification it yields, on the
      stored entries of [words] only, [words[d,t] * ln (B[d,:] . C[:,t])], the
      logarithm being a safe one. *)
Definition sparseScalarProductOfSafeLnDot (A : csr) (B C : mat) : csr :=
    {| sp_cols := sp_cols A;
       sp_rows := zipWith (fun r b =>
                     map (fun cx => (fst cx,
                            snd cx *! safe_log ext (dot b (column C (fst cx))))) r)
                   (sp_rows A) B |}.

  (** Modelled from the spec: [util.sparse_elementwise.scaledSumOfLnOnePlusExp]
      is missing from the sources; it replaces the expression
      [np.sum(docLens[:,np.newaxis] * safe_log_one_plus_exp_of(xi))] that
      [var_bound] keeps in a comment. *)
Definition scaledSumOfLnOnePlusExp (n : vec) (xi : mat) : num :=
    msum (col_bcast_l nmul n (mat_map (fun x => nlog (one +! nexp x)) xi)).

  (** Modelled from the spec: [model.evals.perplexity_from_like] is missing
      from the sources; the specification defines perplexity as
      [exp(-log_likelihood / total_word_count)]. *)
Definition perplexity_from_like (like total : num) : num :=
    nexp (nneg (like /! total)).

Definition doc_count (d : DataSet num) : nat := sp_nrows (words d).
Definition word_count (d : DataSet num) : num := sp_sum (words d).

Definition print (m : Msg num) (c : Console num) : Console num :=
    {| last := last c; out := out c ++ [(Stdout, m)] |}.
Definition printStderr (m : Msg num) (c : Console num) : Console num :=
    {| last := last c; out := out c ++ [(Stderr, m)] |}.
Definition set_last (b : num) (c : Console num) : Console num :=
    {| last := b; out := out c |}.

  (** [a[i] = v] on a one-dimensional array. *)
Fixpoint store {A : Type} (l : list A) (i : nat) (v : A) : Exec (list A) :=
    match l, i with
    | nil, _ => Raise IndexError
    | _ :: l', O => Ok (v :: l')
    | x :: l', S i' => l'' <- store l' i' v ;; Ok (x :: l'')
    end.
End Utilities.

(** ** [sidetopics/model/ctm.py]: the correlated topic model with the Bouchard bound *)

Module Ctm.

Definition MODEL_NAME : string := "ctm/bouchard".

Record TrainPlan (num : Type) : Type := {
    iterations : nat;
    epsilon : num;
    logFrequency : nat;
    fastButInaccurate : bool;
    debug : bool
  }.

Record QueryState (num : Type) : Type := {
    means : list (list num);
    expMeans : list (list num);
    varcs : list (list num);
    lxi : list (list num);
    s : list num;
    docLens : list num
  }.

Record ModelState (num : Type) : Type := {
    K : nat;
    topicMean : list num;
    sigT : list (list num);
    vocab : list (list num);
    vocabPrior : num;
    dtype : DType;
    name : string
  }.

  (** What a call of [train] leaves behind: the returned triple, the contents
      of the two state objects that were passed in (numpy updates some of
      their arrays in place), and the console. *)
Record TrainOutput (num : Type) : Type := {
    returned : ModelState num * QueryState num * (list nat * list num * list num);
    model_after : ModelState num;
    query_after : QueryState num;
    console_after : Console num
  }.

  (** The local variables of [train] that change in the loop. *)
Record TrainSt (num : Type) : Type := {
    t_topicMean : list num;
    t_sigT : list (list num);
    t_isigT : list (list num);
    t_vocab : list (list num);
    t_means : list (list num);
    t_expMeans : list (list num);
    t_varcs : list (list num);
    t_lxi : list (list num);
    t_s : list num;
    t_bvIdx : nat;
    t_boundIters : list nat;
    t_boundValues : list num;
    t_likelyValues : list num;
    t_console : Console num
  }.

  Section Model.
    Context {num : Type} {N : Numeric num}.
    Variable ext : Externals num.
    Local Open Scope num_scope.
    Local Abbreviation vec := (list num).
    Local Abbreviation mat := (list (list num)).
    Local Abbreviation csr := (csr_matrix num).

Definition sq (x : num) : num := x *! x.

    (** [errorMsg(mat)] *)
Definition errorMsg (X : list num) : option string :=
      if any_nan X && any_inf X then Some "Matrix has NaNs and INFs"%string
      else if any_nan X then Some "Matrix has NaNs"%string
      else if any_inf X then Some "Matrix has INFs"%string
      else None.

    (** [_deriveXi(means, varcs, s)]:
        [sqrt(means**2 - 2*means*s[:,None] + (s**2)[:,None] + varcs**2)] *)
Definition _deriveXi (means varcs : mat) (s : vec) : mat :=
      mat_map nsqrt
        (mat_zip nadd
           (col_bcast_r nadd
              (mat_zip nsub (mat_map sq means)
                 (col_bcast_r nmul (mat_map (nmul two) means) s))
              (map sq s))
           (mat_map sq varcs)).

    (** [0.5/x * (1./(1 + np.exp(-x)) - 0.5)] *)
Definition negJakkola1 (x : num) : num :=
      (lit 1 2 /! x) *! ((one /! (one +! nexp (nneg x))) -! lit 1 2).

Definition negJakkola (v : vec) : vec := map negJakkola1 v.

Definition report (prefix : string) (X : list num) (c : Console num)
        : Console num :=
      match errorMsg X with
      | Some err => print (Text EmptyString) (print (Text (append prefix err)) c)
      | None => c
      end.

    (** [negJakkolaOfDerivedXi(means, varcs, s)], with [d = None]. *)
Definition negJakkolaOfDerivedXi (means varcs : mat) (s : vec)
        (c : Console num) : mat * Console num :=
      let c := report "Means " (concat means) c in
      let c := report "s " s c in
      let c := report "lxi " (concat varcs) c in
      (mat_map negJakkola1 (_deriveXi means varcs s), c).

    (** [log_likelihood(data, modelState, queryState)] *)
Definition log_likelihood (data : DataSet num) (modelState : ModelState num)
        (queryState : QueryState num) : num :=
      vsum (sp_data (sparseScalarProductOfSafeLnDot ext (words data)
                       (rowwise_softmax (means queryState)) (vocab modelState))).

Definition LN_OF_2_PI : num := nlog (two *! npi).
Definition LN_OF_2_PI_E : num := nlog (two *! npi *! nexp one).

    (** [var_bound(data, modelState, queryState)]: the bound, and the contents
        of the query state that was passed in when the call returns
        ([np.exp(..., out=expMeans)] writes into its [expMeans] array). *)
Definition var_bound (data : DataSet num) (modelState : ModelState num)
        (queryState : QueryState num) : Exec (num * QueryState num) :=
      let W := words data in
      let D := sp_nrows W in
      let means := means queryState in
      let varcs := varcs queryState in
      let lxi := lxi queryState in
      let s := s queryState in
      let docLens := docLens queryState in
      let K := K modelState in
      let topicMean := topicMean modelState in
      let sigT := sigT modelState in
      let vocab := vocab modelState in
      let xi := _deriveXi means varcs s in
      match la_inv ext sigT with
      | None => Raise LinAlgError
      | Some isigT =>
          let bound := zero in
          let bound := bound -! (ofnat (D * K) /! two) *! LN_OF_2_PI in
          let bound := bound -! (ofnat D /! two) *! la_det ext sigT in
          let diff := row_bcast_r nsub means topicMean in
          let bound := bound -! lit 1 2 *! msum (mat_zip nmul (matmul diff isigT) diff) in
          let bound := bound -! lit 1 2 *! msum (row_bcast_r nmul varcs (diagonal isigT)) in
          let bound := bound +! (lit 1 2 *! ofnat D *! ofnat K *! LN_OF_2_PI_E
                                 +! lit 1 2 *! msum (mat_map nlog varcs)) in
          let bound := bound -! msum (mat_zip nmul
                          (col_bcast_r nmul
                             (mat_zip nadd (mat_zip nmul means means) varcs) docLens)
                          lxi) in
          let bound := bound +! msum (mat_zip nmul
                          (col_bcast_r nmul
                             (col_bcast_r nmul (mat_map (fun m => m *! two) means) docLens)
                             s)
                          lxi) in
          let bound := bound +! msum (col_bcast_r nmul
                          (mat_map (fun m => m *! nneg (lit 1 2)) means) docLens) in
          let expMeans := exp_shifted means in
          let bound := bound -! nneg (vsum (sp_data
                          (sparseScalarProductOfSafeLnDot ext W expMeans vocab))) in
          let bound := bound -! msum (mat_zip nmul (col_bcast_l nmul docLens lxi)
                          (col_bcast_l nsub (map sq s) (mat_zip nmul xi xi))) in
          let bound := bound +! msum (col_bcast_l nmul
                          (map (nmul (lit 1 2)) docLens)
                          (col_bcast_l nadd s xi)) in
          let bound := bound -! scaledSumOfLnOnePlusExp docLens xi in
          let bound := bound -! dot s docLens in
          Ok (bound,
              {| means := means; expMeans := expMeans; varcs := varcs;
                 lxi := lxi; s := s; docLens := docLens |})
      end.

    (** [_debug_with_bound(itr, var_value, var_name, W, K, ...)]: warns about
        NaNs and INFs in the value just updated, then prints perplexity and
        bound; [var_value] is passed as the list of its entries. *)
Definition _debug_with_bound (itr : nat) (var_value : list num)
        (var_name : string) (W : csr) (K : nat) (topicMean : vec)
        (sigT vocab : mat) (vocabPrior : num) (dtype : DType)
        (means varcs lxi : mat) (s n : vec) (c : Console num)
        : Exec (Console num) :=
      let c := if any_nan var_value
               then printStderr (Text (append "WARNING: " (append var_name " contains NaNs"))) c
               else c in
      let c := if any_inf var_value
               then printStderr (Text (append "WARNING: " (append var_name " contains INFs"))) c
               else c in
      let addendum := if String.eqb var_name "sigT"
                      then Some (la_det ext sigT) else None in
      let model := {| K := K; topicMean := topicMean; sigT := sigT; vocab := vocab;
                      vocabPrior := vocabPrior; dtype := dtype; name := MODEL_NAME |} in
      let query := {| means := means; expMeans := means; varcs := varcs;
                      lxi := lxi; s := s; docLens := n |} in
      let perp := perplexity_from_like
                    (log_likelihood {| words := W |} model query) (sp_sum W) in
      r <- var_bound {| words := W |} model query ;;
      let bound := fst r in
      let dif := if neqb (last c) zero then zero else last c -! bound in
      let line := UpdateLine itr var_name perp bound dif addendum in
      let c := if nltb zero dif then printStderr line c else print line c in
      Ok (set_last bound c).

    (** [_debug_with_nothing(...)]: [pass] *)
Definition _debug_with_nothing (itr : nat) (var_value : list num)
        (var_name : string) (W : csr) (K : nat) (topicMean : vec)
        (sigT vocab : mat) (vocabPrior : num) (dtype : DType)
        (means varcs lxi : mat) (s n : vec) (c : Console num)
        : Exec (Console num) :=
      Ok c.

    (** *** The updates of one training iteration *)

    (** [means.sum(axis=0) / (D + kappa)], [USE_NIW_PRIOR] being [True]. *)
Definition update_topicMean (D kappa : nat) (means : mat) : vec :=
      map (fun x => x /! ofnat (D + kappa)) (sum_axis0 means).

    (** The covariance before it is cut to its diagonal: the OAS estimate,
        cast to [dtype], plus [diag(varcs.mean(axis=0))], plus the prior's
        diagonal and outer-product terms. *)
Definition update_sigT (dtype : DType) (D K kappa : nat)
        (means varcs : mat) (topicMean : vec) : mat :=
      let priorSigt_diag := repeat (nastype dtype (lit 1 10)) K in
      let sigT := oas ext means in
      let sigT := if is_float64 dtype then sigT else mat_map (nastype dtype) sigT in
      let sigT := mat_zip nadd sigT (np_diag (mean_axis0 varcs)) in
      let sigT := add_to_diagonal sigT priorSigt_diag in
      mat_zip nadd sigT
        (mat_map (nmul (ofnat (kappa * D) /! ofnat (kappa + D)))
                 (outer topicMean topicMean)).

    (** [if True or diagonalPriorCov: ... else: isigT = la.inv(sigT)] *)
Definition precision (diagonalPriorCov : bool) (sigT : mat)
        : Exec (mat * mat) :=
      if true || diagonalPriorCov then
        let diag := diagonal sigT in
        Ok (np_diag diag, np_diag (map (ndiv one) diag))
      else
        match la_inv ext sigT with
        | Some isigT => Ok (sigT, isigT)
        | None => Raise LinAlgError
        end.

    (** [vocab *= (R.T.dot(expMeans)).T; vocab += vocabPrior;
         vocab = normalizerows_ip(vocab)] *)
Definition update_vocab (W : csr) (expMeans vocab : mat) (vocabPrior : num)
        : mat :=
      let R := sparseScalarQuotientOfDot W expMeans vocab in
      let vocab := mat_zip nmul vocab (spT_dot_T R expMeans) in
      let vocab := mat_map (fun x => x +! vocabPrior) vocab in
      normalizerows_ip vocab.

    (** [S = expMeans * R.dot(vocab.T)] with [R] recomputed from the new
        vocabulary. *)
Definition expected_counts (W : csr) (expMeans vocab : mat) : mat :=
      let R := sparseScalarQuotientOfDot W expMeans vocab in
      mat_zip nmul expMeans (sp_dot_T R vocab).

    (** [np.reciprocal(n[:,np.newaxis] * lxi + isigT.flat[::K+1])] *)
Definition update_varcs (n : vec) (lxi isigT : mat) : mat :=
      mat_map (ndiv one)
        (row_bcast_r nadd (col_bcast_l nmul n lxi) (diagonal isigT)).

    (** [vMat = (s[:,None] * lxi - 0.5) * n[:,None] + S;
         rhsMat = vMat + isigT.dot(topicMean)] *)
Definition rhs_matrix (s n : vec) (lxi S isigT : mat) (topicMean : vec)
        : mat :=
      let vMat := mat_zip nadd
                    (col_bcast_r nmul
                       (mat_map (fun x => x -! lit 1 2) (col_bcast_l nmul s lxi)) n)
                    S in
      row_bcast_r nadd vMat (matvec isigT topicMean).

    (** [means = varcs * rhsMat; means -= (means[:,0])[:,np.newaxis]] *)
Definition update_means (varcs rhsMat : mat) : mat :=
      let means := mat_zip nmul varcs rhsMat in
      col_bcast_r nsub means (column means 0).

    (** *** [train] *)

    Section Train.
      Variable dataset : DataSet num.
      Variable modelState : ModelState num.
      Variable queryState : QueryState num.
      Variable trainPlan : TrainPlan num.

Let W : csr := words dataset.
Let D : nat := sp_nrows W.
Let n : vec := docLens queryState.
Let kappa : nat := K modelState + 2.

Definition debugFn :=
        if debug trainPlan then _debug_with_bound else _debug_with_nothing.

      (** The passed-in state objects as the loop has left them so far:
          [vocab] and [s] are the caller's arrays, updated in place. *)
Definition model_arg (st : TrainSt num) : ModelState num :=
        {| K := K modelState; topicMean := topicMean modelState;
           sigT := sigT modelState; vocab := t_vocab st;
           vocabPrior := vocabPrior modelState; dtype := dtype modelState;
           name := name modelState |}.
Definition query_arg (st : TrainSt num) : QueryState num :=
        {| means := means queryState; expMeans := expMeans queryState;
           varcs := varcs queryState; lxi := lxi queryState;
           s := t_s st; docLens := docLens queryState |}.

Definition current_model (st : TrainSt num) : ModelState num :=
        {| K := K modelState; topicMean := t_topicMean st; sigT := t_sigT st;
           vocab := t_vocab st; vocabPrior := vocabPrior modelState;
           dtype := dtype modelState; name := MODEL_NAME |}.
Definition current_query (st : TrainSt num) : QueryState num :=
        {| means := t_means st; expMeans := t_expMeans st; varcs := t_varcs st;
           lxi := t_lxi st; s := t_s st; docLens := n |}.

      (** Lines 211-283: the M-step, the E-step and the calls of [debugFn]. *)
Definition updates (itr : nat) (st : TrainSt num) : Exec (TrainSt num) :=
        let K := K modelState in
        let vocabPrior := vocabPrior modelState in
        let dtype := dtype modelState in
        let means := t_means st in
        let varcs := t_varcs st in
        let lxi := t_lxi st in
        let s := t_s st in
        let vocab := t_vocab st in
        let topicMean := update_topicMean D kappa means in
        c <- debugFn itr topicMean "topicMean" W K topicMean (t_sigT st) vocab
               vocabPrior dtype means varcs lxi s n (t_console st) ;;
        p <- precision (fastButInaccurate trainPlan)
               (update_sigT dtype D K kappa means varcs topicMean) ;;
        let sigT := fst p in
        let isigT := snd p in
        c <- debugFn itr (concat sigT) "sigT" W K topicMean sigT vocab
               vocabPrior dtype means varcs lxi s n c ;;
        let expMeans := exp_shifted means in
        let vocab := update_vocab W expMeans vocab vocabPrior in
        let S := expected_counts W expMeans vocab in
        c <- debugFn itr (concat vocab) "vocab" W K topicMean sigT vocab
               vocabPrior dtype means varcs lxi s n c ;;
        let varcs := update_varcs n lxi isigT in
        c <- debugFn itr (concat varcs) "varcs" W K topicMean sigT vocab
               vocabPrior dtype means varcs lxi s n c ;;
        let means := update_means varcs (rhs_matrix s n lxi S isigT topicMean) in
        c <- debugFn itr (concat means) "means" W K topicMean sigT vocab
               vocabPrior dtype means varcs lxi s n c ;;
        let r := negJakkolaOfDerivedXi means varcs s c in
        let lxi := mat_map (nmul two) (fst r) in
        c <- debugFn itr (concat lxi) "lxi" W K topicMean sigT vocab
               vocabPrior dtype means varcs lxi s n (snd r) ;;
        c <- debugFn itr s "s" W K topicMean sigT vocab
               vocabPrior dtype means varcs lxi s n c ;;
        Ok {| t_topicMean := topicMean; t_sigT := sigT; t_isigT := isigT;
              t_vocab := vocab; t_means := means; t_expMeans := expMeans;
              t_varcs := varcs; t_lxi := lxi; t_s := s;
              t_bvIdx := t_bvIdx st; t_boundIters := t_boundIters st;
              t_boundValues := t_boundValues st;
              t_likelyValues := t_likelyValues st; t_console := c |}.

Definition with_log (st : TrainSt num) (expMeans : mat) (bvIdx : nat)
          (boundIters : list nat) (boundValues likelyValues : vec)
          (c : Console num) : TrainSt num :=
        {| t_topicMean := t_topicMean st; t_sigT := t_sigT st;
           t_isigT := t_isigT st; t_vocab := t_vocab st; t_means := t_means st;
           t_expMeans := expMeans; t_varcs := t_varcs st; t_lxi := t_lxi st;
           t_s := t_s st; t_bvIdx := bvIdx; t_boundIters := boundIters;
           t_boundValues := boundValues; t_likelyValues := likelyValues;
           t_console := c |}.

      (** Lines 285-305: the logging checkpoint and the early return. *)
Definition checkpoint (itr : nat) (st : TrainSt num)
          : Exec (TrainSt num + TrainOutput num) :=
        let logFrequency := logFrequency trainPlan in
        if (0 <? logFrequency)%nat && (itr mod logFrequency =? 0)%nat then
          let bvIdx := t_bvIdx st in
          let modelState' := current_model st in
          r <- var_bound dataset modelState' (current_query st) ;;
          let queryState' := snd r in
          boundValues <- store (t_boundValues st) bvIdx (fst r) ;;
          likelyValues <- store (t_likelyValues st) bvIdx
                            (log_likelihood dataset modelState' queryState') ;;
          boundIters <- store (t_boundIters st) bvIdx itr ;;
          let perp := perplexity_from_like (nth bvIdx likelyValues zero) (vsum n) in
          let c := print (IterationLine itr perp (nth bvIdx boundValues zero))
                     (t_console st) in
          let c := if (0 <? bvIdx)%nat
                      && nltb (nth bvIdx boundValues zero)
                              (nth (bvIdx - 1) boundValues zero)
                   then printStderr (BoundDegradation
                                       (nth (bvIdx - 1) boundValues zero)
                                       (nth bvIdx boundValues zero)) c
                   else c in
          let st' := with_log st (expMeans queryState') bvIdx boundIters
                       boundValues likelyValues c in
          if (1 <? bvIdx)%nat && (30 <=? nth bvIdx boundIters 0)%nat then
            let lastPerp := perplexity_from_like
                              (nth (bvIdx - 1) likelyValues zero) (vsum n) in
            if nltb (lastPerp -! perp) one then
              Ok (inr {| returned := (modelState', queryState',
                                      clamp ext boundIters boundValues likelyValues bvIdx);
                         model_after := model_arg st';
                         query_after := query_arg st';
                         console_after := c |})
            else
              Ok (inl (with_log st' (t_expMeans st') (bvIdx + 1) boundIters
                         boundValues likelyValues c))
          else
            Ok (inl (with_log st' (t_expMeans st') (bvIdx + 1) boundIters
                       boundValues likelyValues c))
        else Ok (inl st).

      (** The body of [for itr in range(iterations)]. *)
Definition iteration (itr : nat) (st : TrainSt num)
          : Exec (TrainSt num + TrainOutput num) :=
        st' <- updates itr st ;; checkpoint itr st'.

      (** The state at the head of the loop (lines 176-201). *)
Definition initial_state (c : Console num) : Exec (TrainSt num) :=
        let iterations := iterations trainPlan in
        let logFrequency := logFrequency trainPlan in
        if (logFrequency =? 0)%nat then Raise ZeroDivisionError
        else
          let slots := (iterations / logFrequency)%nat in
          match la_inv ext (sigT modelState) with
          | None => Raise LinAlgError
          | Some isigT =>
              Ok {| t_topicMean := topicMean modelState;
                    t_sigT := sigT modelState; t_isigT := isigT;
                    t_vocab := vocab modelState; t_means := means queryState;
                    t_expMeans := means queryState;
                    t_varcs := varcs queryState; t_lxi := lxi queryState;
                    t_s := map (fun _ => zero) (s queryState);
                    t_bvIdx := 0; t_boundIters := repeat 0%nat slots;
                    t_boundValues := repeat zero slots;
                    t_likelyValues := repeat zero slots; t_console := c |}
          end.

      (** The [return] after the loop (lines 308-311). *)
Definition final_output (st : TrainSt num) : TrainOutput num :=
        {| returned := (current_model st, current_query st,
                        (t_boundIters st, t_boundValues st, t_likelyValues st));
           model_after := model_arg st;
           query_after := query_arg st;
           console_after := t_console st |}.

      (** [train(dataset, modelState, queryState, trainPlan)], started with
          the console [c]. *)
Definition train (c : Console num) : Exec (TrainOutput num) :=
        st0 <- initial_state c ;;
        r <- for_range iteration 0 (iterations trainPlan) st0 ;;
        match r with
        | inr output => Ok output
        | inl st => Ok (final_output st)
        end.
    End Train.

    (** *** [newQueryState]

        [rnd] is the matrix drawn by [rd.random((D, K*2))]. *)
Definition newQueryState (rnd : mat) (data : DataSet num)
        (modelState : ModelState num) (c : Console num)
        : Exec (QueryState num * Console num) :=
      let K := K modelState in
      let vocab := vocab modelState in
      let dtype := dtype modelState in
      let W := words data in
      let D := sp_nrows W in
      let T := sp_cols W in
      if negb (T =? ncols vocab)%nat then
        Raise (AssertionError
                 "The number of terms in the document-term matrix differs from that in the model-states vocabulary parameter")
      else
        let docLens := sp_sum_axis1 W in
        let base := normalizerows_ip (mat_map (nastype dtype) rnd) in
        let means := map (firstn K) base in
        let expMeans := map (skipn K) base in
        let varcs := repeat (repeat one K) D in
        let s := repeat zero D in
        let r := negJakkolaOfDerivedXi means varcs s c in
        Ok ({| means := means; expMeans := expMeans; varcs := varcs;
               lxi := fst r; s := s; docLens := docLens |}, snd r).

    (** *** [query] *)

Record QuerySt : Type := {
      q_means : mat;
      q_varcs : mat;
      q_lxi : mat;
      q_s : vec;
      q_lastPerp : num;
      q_console : Console num
    }.

    (** What a call of [query] leaves behind: the returned pair, the contents
        of the two state objects that were passed in, and the console. *)
Record QueryOutput : Type := {
      q_returned : ModelState num * QueryState num;
      q_model_after : ModelState num;
      q_query_after : QueryState num;
      q_console_after : Console num
    }.

    (** [try: means[d,:] = la.inv(isigT + ssp.diags(n[d] * lxi[d,:], 0)).dot(rhsMat[d,:])
         except ValueError as e: print(str(e)); print("Ah")] *)
Definition solve_row (isigT : mat) (nd : num) (lxi_d rhs_d old : vec)
        (c : Console num) : vec * Console num :=
      match la_inv ext (mat_zip nadd isigT (np_diag (map (nmul nd) lxi_d))) with
      | Some M => (matvec M rhs_d, c)
      | None => (old, print (Text "Ah") (print ExceptionText c))
      end.

    (** [for d in range(D): ...] *)
Fixpoint solve_rows (isigT : mat) (n : vec) (lxi rhs means : mat)
        (c : Console num) : mat * Console num :=
      match n, lxi, rhs, means with
      | nd :: n', l :: lxi', r :: rhs', m :: means' =>
          let p := solve_row isigT nd l r m c in
          let q := solve_rows isigT n' lxi' rhs' means' (snd p) in
          (fst p :: fst q, snd q)
      | _, _, _, _ => (means, c)
      end.

    (** [(np.sum(lxi * means, axis=1) + 0.25 * K - 0.5) / np.sum(lxi, axis=1)] *)
Definition update_s (K : nat) (lxi means : mat) : vec :=
      zipWith (fun a b => (a +! lit 1 4 *! ofnat K -! lit 1 2) /! b)
        (sum_axis1 (mat_zip nmul lxi means)) (sum_axis1 lxi).

    Section Query.
      Variable dataset : DataSet num.
      Variable modelState : ModelState num.
      Variable queryState : QueryState num.
      Variable queryPlan : TrainPlan num.

Let W : csr := words dataset.
Let n : vec := docLens queryState.

Definition query_debugFn :=
        if debug queryPlan then _debug_with_bound else _debug_with_nothing.

      (** The body of the loop; [inr] is the [break]. [isigT], [expMeans] and
          [S] are computed once, before the loop. *)
Definition query_iteration (isigT expMeans S : mat) (itr : nat)
          (st : QuerySt) : Exec (QuerySt + QuerySt) :=
        let K := K modelState in
        let topicMean := topicMean modelState in
        let sigT := sigT modelState in
        let vocab := vocab modelState in
        let vocabPrior := vocabPrior modelState in
        let dtype := dtype modelState in
        let lxi := q_lxi st in
        let s := q_s st in
        let rhsMat := rhs_matrix s n lxi S isigT topicMean in
        let p := solve_rows isigT n lxi rhsMat (q_means st) (q_console st) in
        let means := fst p in
        c <- query_debugFn itr (concat means) "means" W K topicMean sigT vocab
               vocabPrior dtype means (q_varcs st) lxi s n (snd p) ;;
        let varcs := update_varcs n lxi isigT in
        c <- query_debugFn itr (concat varcs) "varcs" W K topicMean sigT vocab
               vocabPrior dtype means varcs lxi s n c ;;
        let r := negJakkolaOfDerivedXi means varcs s c in
        let lxi := mat_map (nmul two) (fst r) in
        c <- query_debugFn itr (concat lxi) "lxi" W K topicMean sigT vocab
               vocabPrior dtype means varcs lxi s n (snd r) ;;
        let s := update_s K lxi means in
        c <- query_debugFn itr s "s" W K topicMean sigT vocab
               vocabPrior dtype means varcs lxi s n c ;;
        let like := log_likelihood dataset modelState
                      {| means := means; expMeans := expMeans; varcs := varcs;
                         lxi := lxi; s := s; docLens := n |} in
        let perp := perplexity_from_like like (word_count dataset) in
        if (20 <? itr)%nat && nltb (q_lastPerp st -! perp) one then
          Ok (inr {| q_means := means; q_varcs := varcs; q_lxi := lxi;
                     q_s := s; q_lastPerp := q_lastPerp st; q_console := c |})
        else
          Ok (inl {| q_means := means; q_varcs := varcs; q_lxi := lxi;
                     q_s := s; q_lastPerp := perp; q_console := c |}).

Definition query_initial (c : Console num) : QuerySt :=
        {| q_means := means queryState; q_varcs := varcs queryState;
           q_lxi := lxi queryState; q_s := s queryState;
           q_lastPerp := if is_float64 (dtype modelState)
                         then nZ (10 ^ 300) else nZ (10 ^ 30);
           q_console := c |}.

      (** The [return] of [query]: [means] is the caller's array, written row
          by row; [expMeans] its array too, written before the loop; the
          other local variables were rebound to new arrays. *)
Definition query_output (expMeans : mat) (st : QuerySt) : QueryOutput :=
        {| q_returned := (modelState,
                          {| means := q_means st; expMeans := expMeans;
                             varcs := q_varcs st; lxi := q_lxi st; s := q_s st;
                             docLens := n |});
           q_model_after := modelState;
           q_query_after := {| means := q_means st; expMeans := expMeans;
                               varcs := varcs queryState; lxi := lxi queryState;
                               s := s queryState; docLens := n |};
           q_console_after := q_console st |}.

      (** [query(dataset, modelState, queryState, queryPlan)] *)
Definition query (c : Console num) : Exec QueryOutput :=
        match la_inv ext (sigT modelState) with
        | None => Raise LinAlgError
        | Some isigT =>
            let expMeans := exp_shifted (means queryState) in
            let S := expected_counts W expMeans (vocab modelState) in
            r <- for_range (query_iteration isigT expMeans S) 0
                   (iterations queryPlan) (query_initial c) ;;
            match r with
            | inl st => Ok (query_output expMeans st)
            | inr st => Ok (query_output expMeans st)
            end
        end.
    End Query.
  End Model.
  Arguments QuerySt : clear implicits.
  Arguments QueryOutput : clear implicits.
End Ctm.

(** ** [sidetopics/model/ctm_bohning_fast.py]: the Bohning-bound variant

    Embedded: the covariance step of [train] (lines 238-247), [query] and
    [log_likelihood].  The debug printer of this file evaluates the Bohning
    bound, which is not embedded; it is a parameter. *)

Module CtmBohningFast.

Record QueryState (num : Type) : Type := {
    means : list (list num);
    expMeans : list (list num);
    varcs : list (list num);
    docLens : list num
  }.

Record ModelState (num : Type) : Type := {
    K : nat;
    topicMean : list num;
    sigT : list (list num);
    vocab : list (list num);
    vocabPrior : num;
    A : list (list num);
    dtype : DType;
    name : string
  }.

  (** The local variables of [query] that change in the loop.  [q_means] is
      the local variable [means]; [q_arg_means] is the array of the
      passed-in query state, which [means] names until it is rebound
      ([q_aliased]). *)
Record QuerySt (num : Type) : Type := {
    q_means : list (list num);
    q_arg_means : list (list num);
    q_aliased : bool;
    q_expMeans : list (list num);
    q_lastPerp : num;
    q_console : Console num
  }.

Record QueryOutput (num : Type) : Type := {
    q_returned : ModelState num * QueryState num;
    q_console_after : Console num
  }.

  Section Model.
    Context {num : Type} {N : Numeric num}.
    Variable ext : Externals num.
    Variable debug_with_bound :
      nat -> list num -> string -> csr_matrix num -> ModelState num ->
      list (list num) -> list (list num) -> list num ->
      Console num -> Exec (Console num).
    Local Open Scope num_scope.
    Local Abbreviation vec := (list num).
    Local Abbreviation mat := (list (list num)).
    Local Abbreviation csr := (csr_matrix num).

    (** [np.eye(K)] *)
Definition eye (K : nat) : mat := np_diag (repeat one K).

    (** Lines 238-247 of [train]: the branch on [diagonalPriorCov], then the
        two assignments under [# FIXME Undo debug]. *)
Definition precision (K : nat) (diagonalPriorCov : bool) (sigT : mat)
        : Exec (mat * mat) :=
      p <- (if diagonalPriorCov then
              let diag := diagonal sigT in
              Ok (np_diag diag, np_diag (map (ndiv one) diag))
            else
              match la_inv ext sigT with
              | Some isigT => Ok (sigT, isigT)
              | None => Raise LinAlgError
              end) ;;
      let sigT := eye K in
      match la_inv ext sigT with
      | Some isigT => Ok (sigT, isigT)
      | None => Raise LinAlgError
      end.

    (** [log_likelihood(data, modelState, queryState)] *)
Definition log_likelihood (data : DataSet num) (modelState : ModelState num)
        (queryState : QueryState num) : num :=
      vsum (sp_data (sparseScalarProductOfSafeLnDot ext (words data)
                       (rowwise_softmax (means queryState)) (vocab modelState))).

    (** [for d in range(D): means[d,:] = la.inv(isigT + n[d] * A).dot(rhs[d,:])] *)
Fixpoint solve_rows (isigT A : mat) (n : vec) (rhs means : mat) : Exec mat :=
      match n, rhs, means with
      | nd :: n', r :: rhs', m :: means' =>
          match la_inv ext (mat_zip nadd isigT (mat_map (nmul nd) A)) with
          | None => Raise LinAlgError
          | Some M =>
              rest <- solve_rows isigT A n' rhs' means' ;;
              Ok (matvec M r :: rest)
          end
      | _, _, _ => Ok means
      end.

    Section Query.
      Variable data : DataSet num.
      Variable modelState : ModelState num.
      Variable queryState : QueryState num.
      Variable queryPlan : Ctm.TrainPlan num.

Let W : csr := words data.
Let n : vec := docLens queryState.

Definition debugFn (itr : nat) (var_value : list num) (var_name : string)
          (means varcs : mat) (c : Console num) : Exec (Console num) :=
        if Ctm.debug queryPlan
        then debug_with_bound itr var_value var_name W modelState means varcs n c
        else Ok c.

      (** [1./((n * (K-1.)/K)[:,np.newaxis] + isigT.flat[::K+1])] *)
Definition query_varcs (isigT : mat) : mat :=
        let K := K modelState in
        map (fun nd => map (fun x => one /! (nd *! (ofnat K -! one) /! ofnat K +! x))
                           (diagonal isigT)) n.

Definition query_iteration (isigT varcs : mat) (itr : nat)
          (st : QuerySt num) : Exec (QuerySt num + QuerySt num) :=
        let topicMean := topicMean modelState in
        let vocab := vocab modelState in
        let A := A modelState in
        let means := q_means st in
        let expMeans := exp_shifted means in
        let R := sparseScalarQuotientOfDot W expMeans vocab in
        let V := mat_zip nmul expMeans (sp_dot_T R vocab) in
        let rhs := V in
        let rhs := mat_zip nadd rhs
                     (row_bcast_r nadd (col_bcast_l nmul n (matmul means A))
                                       (matvec isigT topicMean)) in
        (* rowwise_softmax(means, out=means) overwrites the array means names *)
        let soft := rowwise_softmax means in
        let arg_means := if q_aliased st then soft else q_arg_means st in
        let rhs := mat_zip nsub rhs (col_bcast_l nmul n soft) in
        p <- (if Ctm.fastButInaccurate queryPlan then
                (* means = varcs * rhs: a new array *)
                Ok (mat_zip nmul varcs rhs, arg_means, false)
              else
                (* means[d,:] = ...: written into the array means names *)
                m <- solve_rows isigT A n rhs soft ;;
                Ok (m, if q_aliased st then m else arg_means, q_aliased st)) ;;
        let means := fst (fst p) in
        c <- debugFn itr (concat means) "means" means varcs (q_console st) ;;
        let like := log_likelihood data modelState
                      {| means := means; expMeans := expMeans; varcs := varcs;
                         docLens := n |} in
        let perp := perplexity_from_like like (word_count data) in
        let st' lp := {| q_means := means; q_arg_means := snd (fst p);
                         q_aliased := snd p; q_expMeans := expMeans;
                         q_lastPerp := lp; q_console := c |} in
        if (20 <? itr)%nat && nltb (q_lastPerp st -! perp) one
        then Ok (inr (st' (q_lastPerp st)))
        else Ok (inl (st' perp)).

      (** [return modelState, queryState]: the tuple that was passed in, whose
          [means] and [expMeans] arrays were written in place. *)
Definition query_output (st : QuerySt num) : QueryOutput num :=
        {| q_returned := (modelState,
                          {| means := q_arg_means st; expMeans := q_expMeans st;
                             varcs := varcs queryState;
                             docLens := docLens queryState |});
           q_console_after := q_console st |}.

      (** [query(data, modelState, queryState, queryPlan)] *)
Definition query (c : Console num) : Exec (QueryOutput num) :=
        match la_inv ext (sigT modelState) with
        | None => Raise LinAlgError
        | Some isigT =>
            let varcs := query_varcs isigT in
            c <- debugFn 0 (concat varcs) "varcs" (means queryState) varcs c ;;
            let st0 := {| q_means := means queryState;
                          q_arg_means := means queryState; q_aliased := true;
                          q_expMeans := expMeans queryState;
                          q_lastPerp := if is_float64 (dtype modelState)
                                        then nZ (10 ^ 300) else nZ (10 ^ 30);
                          q_console := c |} in
            r <- for_range (query_iteration isigT varcs) 0
                   (Ctm.iterations queryPlan) st0 ;;
            match r with
            | inl st => Ok (query_output st)
            | inr st => Ok (query_output st)
            end
        end.
    End Query.
  End Model.
End CtmBohningFast.

(** ** [src/model/ctm_bohning.py]: the older Bohning variant

    Embedded: [log_likelihood]. *)

Module CtmBohningOld.

Record QueryState (num : Type) : Type := {
    means : list (list num);
    varcs : list (list num);
    docLens : list num
  }.

Record ModelState (num : Type) : Type := {
    K : nat;
    topicMean : list num;
    sigT : list (list num);
    vocab : list (list num);
    A : list (list num);
    dtype : DType
  }.

  Section Model.
    Context {num : Type} {N : Numeric num}.
    Variable ext : Externals num.

    (** [log_likelihood(W, modelState, queryState)] *)
Definition log_likelihood (W : csr_matrix num) (modelState : ModelState num)
        (queryState : QueryState num) : num :=
      vsum (sp_data (sparseScalarProductOfSafeLnDot ext W
                       (means queryState) (vocab modelState))).
  End Model.
End CtmBohningOld.

(** * Properties *)

(** ** Loops *)

Section Loops.
  Variables St Ret : Type.
  Variable body : nat -> St -> Exec (St + Ret).

  (** An invariant of the loop body holds at the head of every iteration
      that is reached. *)
Lemma for_range_invariant (P : St -> Prop) :
    (forall itr st st', P st -> body itr st = Ok (inl st') -> P st') ->
    forall count itr st st',
      P st -> for_range body itr count st = Ok (inl st') -> P st'.
  Proof.
    intros Hstep count.
    induction count as [|c IH]; intros itr st st' HP Hrun; simpl in Hrun.
    - inversion Hrun; subst; exact HP.
    - destruct (body itr st) as [[st1|r]|e] eqn:Hb; try discriminate.
      eapply IH; [eapply Hstep; eauto | exact Hrun].
  Qed.

  (** A value returned from inside the loop was returned by the body, run on
      a state that satisfies the invariant. *)
Lemma for_range_return (P : St -> Prop) :
    (forall itr st st', P st -> body itr st = Ok (inl st') -> P st') ->
    forall count itr st r,
      P st -> for_range body itr count st = Ok (inr r) ->
      exists j st1, (itr <= j < itr + count)%nat /\ P st1 /\ body j st1 = Ok (inr r).
  Proof.
    intros Hstep count.
    induction count as [|c IH]; intros itr st r HP Hrun; simpl in Hrun.
    - discriminate.
    - destruct (body itr st) as [[st1|r1]|e] eqn:Hb; try discriminate.
      + destruct (IH (S itr) st1 r) as (j & st2 & Hj & HP2 & Hb2); eauto.
        exists j, st2; repeat split; auto; lia.
      + inversion Hrun; subst. exists itr, st; repeat split; auto; lia.
  Qed.

  (** Running [a + b] iterations is running [a], then [b] more. *)
Lemma for_range_app (a b itr : nat) (st : St) :
    for_range body itr (a + b) st =
    match for_range body itr a st with
    | Ok (inl st') => for_range body (itr + a) b st'
    | other => other
    end.
  Proof.
    revert itr st; induction a as [|a IH]; intros itr st; simpl.
    - rewrite Nat.add_0_r; reflexivity.
    - destruct (body itr st) as [[st1|r]|e]; auto.
      rewrite IH. replace (S itr + a)%nat with (itr + S a)%nat by lia. reflexivity.
  Qed.

  (** A body that never returns and never raises runs to the end. *)
Lemma for_range_total (P : St -> Prop) :
    (forall itr st, P st -> exists st', body itr st = Ok (inl st') /\ P st') ->
    forall count itr st,
      P st -> exists st', for_range body itr count st = Ok (inl st') /\ P st'.
  Proof.
    intros Hstep count.
    induction count as [|c IH]; intros itr st HP; simpl.
    - eauto.
    - destruct (Hstep itr st HP) as (st1 & Hb & HP1). rewrite Hb. eauto.
  Qed.

  (** An invariant that depends on the iteration index. *)
Lemma for_range_indexed (P : nat -> St -> Prop) :
    (forall itr st st', P itr st -> body itr st = Ok (inl st') -> P (S itr) st') ->
    forall count itr st st',
      P itr st -> for_range body itr count st = Ok (inl st') ->
      P (itr + count)%nat st'.
  Proof.
    intros Hstep count.
    induction count as [|c IH]; intros itr st st' HP Hrun; simpl in Hrun.
    - inversion Hrun; subst. rewrite Nat.add_0_r. exact HP.
    - destruct (body itr st) as [[st1|r]|e] eqn:Hb; try discriminate.
      replace (itr + S c)%nat with (S itr + c)%nat by lia.
      eapply IH; [eapply Hstep; eauto | exact Hrun].
  Qed.

  (** A body that goes on below [bound] runs up to it. *)
Lemma for_range_steps (P : nat -> St -> Prop) (bound : nat) :
    (forall itr st, (itr < bound)%nat -> P itr st ->
       exists st', body itr st = Ok (inl st') /\ P (S itr) st') ->
    forall count itr st,
      (itr + count <= bound)%nat -> P itr st ->
      exists st', for_range body itr count st = Ok (inl st')
                  /\ P (itr + count)%nat st'.
  Proof.
    intros Hstep count.
    induction count as [|c IH]; intros itr st Hle HP; simpl.
    - rewrite Nat.add_0_r. eauto.
    - destruct (Hstep itr st) as (st1 & Hb & HP1); [lia | exact HP |].
      rewrite Hb. replace (itr + S c)%nat with (S itr + c)%nat by lia.
      apply IH; [lia | exact HP1].
  Qed.
End Loops.

(** ** The training loop of [ctm.py], for every interpretation of the numbers *)

(** Takes a [bind] that succeeded apart. *)
Ltac bind_ok H :=
  match type of H with
  | bind ?m _ = Ok _ =>
      let a := fresh "a" in
      let E := fresh "E" in
      destruct m as [a|] eqn:E; [cbn [bind] in H | discriminate H]
  end.

Section TrainFacts.
  Context {num : Type} {N : Numeric num}.
  Variable ext : Externals num.
  Variable dataset : DataSet num.
  Variable modelState : Ctm.ModelState num.
  Variable queryState : Ctm.QueryState num.
  Variable trainPlan : Ctm.TrainPlan num.

  Local Abbreviation W := (words dataset).
  Local Abbreviation D := (sp_nrows (words dataset)).
  Local Abbreviation n := (Ctm.docLens queryState).
  Local Abbreviation kappa := (Ctm.K modelState + 2)%nat.

  (** The precision step never consults the plan's flag. *)
Lemma precision_diagonal (flag : bool) (sigT : list (list num)) :
    Ctm.precision ext flag sigT =
    Ok (np_diag (diagonal sigT), np_diag (map (ndiv one) (diagonal sigT))).
  Proof. reflexivity. Qed.

  (** The numbers one pass through lines 211-283 computes, the console left
      as it was. *)
Definition next_state (st : Ctm.TrainSt num) : Ctm.TrainSt num :=
    let K := Ctm.K modelState in
    let dtype := Ctm.dtype modelState in
    let topicMean := Ctm.update_topicMean D kappa (Ctm.t_means st) in
    let diag := diagonal (Ctm.update_sigT ext dtype D K kappa (Ctm.t_means st)
                            (Ctm.t_varcs st) topicMean) in
    let isigT := np_diag (map (ndiv one) diag) in
    let expMeans := exp_shifted (Ctm.t_means st) in
    let vocab := Ctm.update_vocab W expMeans (Ctm.t_vocab st)
                   (Ctm.vocabPrior modelState) in
    let S := Ctm.expected_counts W expMeans vocab in
    let varcs := Ctm.update_varcs n (Ctm.t_lxi st) isigT in
    let means := Ctm.update_means varcs
                   (Ctm.rhs_matrix (Ctm.t_s st) n (Ctm.t_lxi st) S isigT topicMean) in
    let lxi := mat_map (nmul two)
                 (mat_map Ctm.negJakkola1 (Ctm._deriveXi means varcs (Ctm.t_s st))) in
    {| Ctm.t_topicMean := topicMean; Ctm.t_sigT := np_diag diag;
       Ctm.t_isigT := isigT; Ctm.t_vocab := vocab; Ctm.t_means := means;
       Ctm.t_expMeans := expMeans; Ctm.t_varcs := varcs; Ctm.t_lxi := lxi;
       Ctm.t_s := Ctm.t_s st; Ctm.t_bvIdx := Ctm.t_bvIdx st;
       Ctm.t_boundIters := Ctm.t_boundIters st;
       Ctm.t_boundValues := Ctm.t_boundValues st;
       Ctm.t_likelyValues := Ctm.t_likelyValues st;
       Ctm.t_console := Ctm.t_console st |}.

Definition set_console (st : Ctm.TrainSt num) (c : Console num)
      : Ctm.TrainSt num :=
    Ctm.with_log st (Ctm.t_expMeans st) (Ctm.t_bvIdx st) (Ctm.t_boundIters st)
      (Ctm.t_boundValues st) (Ctm.t_likelyValues st) c.

Lemma updates_next_state (itr : nat) (st st' : Ctm.TrainSt num) :
    Ctm.updates ext dataset modelState queryState trainPlan itr st = Ok st' ->
    st' = set_console (next_state st) (Ctm.t_console st').
  Proof.
    unfold Ctm.updates. intros H.
    bind_ok H. rewrite precision_diagonal in H. cbn [bind fst snd] in H.
    do 4 bind_ok H.
    cbn [Ctm.negJakkolaOfDerivedXi fst snd] in H.
    do 2 bind_ok H.
    inversion H; subst; clear H. reflexivity.
  Qed.

  (** [var_bound] leaves every array of the query state as it was, except
      [expMeans], which it fills with [exp(means - max)]. *)
Definition after_var_bound (q : Ctm.QueryState num) : Ctm.QueryState num :=
    {| Ctm.means := Ctm.means q; Ctm.expMeans := exp_shifted (Ctm.means q);
       Ctm.varcs := Ctm.varcs q; Ctm.lxi := Ctm.lxi q; Ctm.s := Ctm.s q;
       Ctm.docLens := Ctm.docLens q |}.

Lemma var_bound_query (data : DataSet num) (m : Ctm.ModelState num)
      (q : Ctm.QueryState num) (r : num * Ctm.QueryState num) :
    Ctm.var_bound ext data m q = Ok r -> snd r = after_var_bound q.
  Proof.
    unfold Ctm.var_bound. destruct (la_inv ext (Ctm.sigT m)); [|discriminate].
    intros H; inversion H; reflexivity.
  Qed.

Lemma var_bound_ok_iff (data : DataSet num) (m : Ctm.ModelState num)
      (q : Ctm.QueryState num) :
    (exists r, Ctm.var_bound ext data m q = Ok r) <->
    (exists isigT, la_inv ext (Ctm.sigT m) = Some isigT).
  Proof.
    unfold Ctm.var_bound. destruct (la_inv ext (Ctm.sigT m)) as [i|].
    - split; intros _; eauto.
    - split; intros [x Hx]; discriminate.
  Qed.

  (** The arrays the E- and M-step work on; a checkpoint that lets the loop
      go on changes none of them. *)
Definition same_arrays (a b : Ctm.TrainSt num) : Prop :=
    Ctm.t_topicMean a = Ctm.t_topicMean b /\ Ctm.t_sigT a = Ctm.t_sigT b /\
    Ctm.t_isigT a = Ctm.t_isigT b /\ Ctm.t_vocab a = Ctm.t_vocab b /\
    Ctm.t_means a = Ctm.t_means b /\ Ctm.t_varcs a = Ctm.t_varcs b /\
    Ctm.t_lxi a = Ctm.t_lxi b /\ Ctm.t_s a = Ctm.t_s b.

Lemma checkpoint_arrays (itr : nat) (st st' : Ctm.TrainSt num) :
    Ctm.checkpoint ext dataset modelState queryState trainPlan itr st = Ok (inl st') ->
    same_arrays st' st.
  Proof.
    unfold Ctm.checkpoint, same_arrays. intros H.
    destruct ((0 <? Ctm.logFrequency trainPlan)%nat
              && (itr mod Ctm.logFrequency trainPlan =? 0)%nat).
    - do 4 bind_ok H.
      repeat match type of H with
             | (if ?b then _ else _) = _ => destruct b
             end; inversion H; subst; cbn; repeat split; reflexivity.
    - inversion H; subst; repeat split; reflexivity.
  Qed.

  (** One iteration that lets the loop go on: the arrays are those of
      [next_state]. *)
Lemma iteration_arrays (itr : nat) (st st' : Ctm.TrainSt num) :
    Ctm.iteration ext dataset modelState queryState trainPlan itr st = Ok (inl st') ->
    same_arrays st' (next_state st).
  Proof.
    unfold Ctm.iteration. intros H. bind_ok H.
    apply checkpoint_arrays in H. apply updates_next_state in E.
    rewrite E in H. exact H.
  Qed.

  (** A [return] inside the loop hands out the current model and the current
      query state (with [expMeans] as [var_bound] left it), and the passed-in
      objects with their [vocab] and [s] arrays as the loop left them. *)
Lemma checkpoint_return (itr : nat) (st : Ctm.TrainSt num)
      (o : Ctm.TrainOutput num) :
    Ctm.checkpoint ext dataset modelState queryState trainPlan itr st = Ok (inr o) ->
    fst (fst (Ctm.returned o)) = Ctm.current_model modelState st /\
    snd (fst (Ctm.returned o)) =
      after_var_bound (Ctm.current_query queryState st) /\
    Ctm.vocab (Ctm.model_after o) = Ctm.t_vocab st /\
    Ctm.s (Ctm.query_after o) = Ctm.t_s st.
  Proof.
    unfold Ctm.checkpoint. intros H.
    destruct ((0 <? Ctm.logFrequency trainPlan)%nat
              && (itr mod Ctm.logFrequency trainPlan =? 0)%nat); [|discriminate].
    bind_ok H. apply var_bound_query in E. do 3 bind_ok H.
    repeat match type of H with
           | (if ?b then _ else _) = _ => destruct b
           end; inversion H; subst; cbn; rewrite E; repeat split; reflexivity.
  Qed.
End TrainFacts.

(** ** Diagonal matrices *)

Section Diagonal.
  Context {num : Type} {N : Numeric num}.

Lemma nth_map_seq (A : Type) (f : nat -> A) (len i : nat) (d : A) :
    (i < len)%nat -> nth i (map f (seq 0 len)) d = f i.
  Proof.
    intros Hi.
    rewrite (nth_indep _ d (f 0%nat)) by (rewrite length_map, length_seq; exact Hi).
    rewrite map_nth, seq_nth by exact Hi. reflexivity.
  Qed.

Lemma map_nth_seq (A : Type) (l : list A) (d : A) :
    map (fun i => nth i l d) (seq 0 (length l)) = l.
  Proof.
    apply nth_ext with (d := d) (d' := d).
    - rewrite length_map, length_seq; reflexivity.
    - intros i Hi. rewrite length_map, length_seq in Hi.
      apply nth_map_seq; exact Hi.
  Qed.

Lemma nrows_np_diag (v : list num) : nrows (np_diag v) = length v.
  Proof. unfold nrows, np_diag. rewrite length_map, length_seq. reflexivity. Qed.

Lemma entry_np_diag (v : list num) (i j : nat) :
    (i < length v)%nat -> (j < length v)%nat ->
    entry (np_diag v) i j = if Nat.eqb i j then nth i v zero else zero.
  Proof.
    intros Hi Hj. unfold entry, np_diag.
    rewrite (nth_map_seq _ _ Hi), (nth_map_seq _ _ Hj). reflexivity.
  Qed.

  (** Reading the diagonal of [np.diag(v)] gives [v] back. *)
Lemma diagonal_np_diag (v : list num) : diagonal (np_diag v) = v.
  Proof.
    unfold diagonal. rewrite nrows_np_diag.
    transitivity (map (fun i => nth i v zero) (seq 0 (length v))).
    - apply map_ext_in. intros i Hi. apply in_seq in Hi.
      rewrite entry_np_diag by lia. rewrite Nat.eqb_refl. reflexivity.
    - apply map_nth_seq.
  Qed.
End Diagonal.

(** ** A reference interpretation of the collaborators

    For a dataset with a single document the sample covariance of [means] is
    the zero matrix, and so is its OAS shrinkage; the covariance matrices the
    training loop inverts are diagonal.  [diag_inv] inverts a diagonal matrix
    with a non-zero diagonal and fails on every other matrix; [diag_det] is
    the product of the diagonal; the safe logarithm is the logarithm; [clamp]
    keeps the entries logged so far. *)

Section Reference.
  Context {num : Type} {N : Numeric num}.

Fixpoint list_eqb {A : Type} (eqb : A -> A -> bool) (l m : list A) : bool :=
    match l, m with
    | nil, nil => true
    | a :: l', b :: m' => eqb a b && list_eqb eqb l' m'
    | _, _ => false
    end.

Definition oas_single (M : list (list num)) : list (list num) :=
    repeat (repeat zero (ncols M)) (ncols M).

Definition diag_inv (M : list (list num)) : option (list (list num)) :=
    if list_eqb (list_eqb neqb) M (np_diag (diagonal M))
       && forallb (fun x => negb (neqb x zero)) (diagonal M)
    then Some (np_diag (map (ndiv one) (diagonal M)))
    else None.

Definition diag_det (M : list (list num)) : num :=
    fold_right nmul one (diagonal M).

Definition ref_ext : Externals num :=
    {| oas := oas_single;
       la_inv := diag_inv;
       la_det := diag_det;
       safe_log := nlog;
       clamp := fun bi bv lv idx =>
                  (firstn (S idx) bi, firstn (S idx) bv, firstn (S idx) lv) |}.
End Reference.

(** ** Real arithmetic on lists *)

Section RealLists.
  Local Open Scope R_scope.

Definition allM (P : R -> Prop) (M : list (list R)) : Prop :=
    Forall (Forall P) M.

Lemma list_eqb_refl (l : list R) : list_eqb (@neqb R RNum) l l = true.
  Proof.
    induction l as [|a l IH]; cbn [list_eqb]; auto.
    rewrite IH. cbn. destruct (Req_dec_T a a); [reflexivity | contradiction].
  Qed.

Lemma mat_eqb_refl (M : list (list R)) :
    list_eqb (list_eqb (@neqb R RNum)) M M = true.
  Proof.
    induction M as [|r M IH]; cbn [list_eqb]; auto.
    rewrite list_eqb_refl, IH. reflexivity.
  Qed.

  (** [diag_inv] inverts [np.diag(v)] whenever no entry of [v] is zero. *)
Lemma diag_inv_np_diag (v : list R) :
    Forall (fun x => x <> 0) v ->
    diag_inv (np_diag v) = Some (np_diag (map (Rdiv 1) v)).
  Proof.
    intros Hv. unfold diag_inv. rewrite diagonal_np_diag, mat_eqb_refl.
    assert (Hnz : forallb (fun x : R => negb (neqb x zero)) v = true).
    { apply forallb_forall. intros x Hx.
      rewrite Forall_forall in Hv. specialize (Hv x Hx).
      cbn. destruct (Req_dec_T x 0); [contradiction | reflexivity]. }
    rewrite Hnz. reflexivity.
  Qed.

Lemma Forall_zipWith (A B C : Type) (f : A -> B -> C)
      (P : A -> Prop) (Q : B -> Prop) (S : C -> Prop) (l : list A) (m : list B) :
    (forall a b, P a -> Q b -> S (f a b)) ->
    Forall P l -> Forall Q m -> Forall S (zipWith f l m).
  Proof.
    intros Hf Hl. revert m. induction Hl as [|a l Ha Hl IH]; intros m Hm.
    - constructor.
    - destruct Hm as [|b m Hb Hm]; cbn [zipWith]; constructor; auto.
  Qed.

Lemma Forall_zipWith_l (A B C : Type) (f : A -> B -> C)
      (P : A -> Prop) (S : C -> Prop) (l : list A) (m : list B) :
    (forall a b, P a -> S (f a b)) -> Forall P l -> Forall S (zipWith f l m).
  Proof.
    intros Hf Hl.
    apply Forall_zipWith with (P := P) (Q := fun _ => True); auto.
    apply Forall_forall; auto.
  Qed.

Lemma Forall_zipWith_r (A B C : Type) (f : A -> B -> C)
      (Q : B -> Prop) (S : C -> Prop) (l : list A) (m : list B) :
    (forall a b, Q b -> S (f a b)) -> Forall Q m -> Forall S (zipWith f l m).
  Proof.
    intros Hf Hm.
    apply Forall_zipWith with (P := fun _ => True) (Q := Q); auto.
    apply Forall_forall; auto.
  Qed.

Lemma length_zipWith (A B C : Type) (f : A -> B -> C) (l : list A) (m : list B) :
    length (zipWith f l m) = Nat.min (length l) (length m).
  Proof.
    revert m; induction l as [|a l IH]; intros [|b m]; simpl; try reflexivity.
    rewrite IH; reflexivity.
  Qed.

Lemma Rdiv_nonneg (a b : R) : 0 <= a -> 0 <= b -> 0 <= a / b.
  Proof.
    intros Ha [Hb|Hb].
    - apply Rmult_le_pos; [exact Ha | left; apply Rinv_0_lt_compat; exact Hb].
    - subst b. unfold Rdiv. rewrite Rinv_0. lra.
  Qed.

Lemma vsum_cons (x : R) (l : list R) : vsum (x :: l) = x + vsum l.
  Proof. reflexivity. Qed.

Lemma vsum_nil : @vsum R RNum nil = 0.
  Proof. reflexivity. Qed.

Lemma vsum_nonneg (l : list R) : Forall (fun x => 0 <= x) l -> 0 <= vsum l.
  Proof.
    induction 1 as [|x l Hx Hl IH].
    - rewrite vsum_nil; lra.
    - rewrite vsum_cons; lra.
  Qed.

Lemma vsum_pos (l : list R) :
    l <> nil -> Forall (fun x => 0 < x) l -> 0 < vsum l.
  Proof.
    intros Hne Hl. destruct Hl as [|x l Hx Hl]; [contradiction|].
    rewrite vsum_cons.
    assert (0 <= vsum l).
    { apply vsum_nonneg. eapply Forall_impl; [|exact Hl]. intros; cbn in *; lra. }
    lra.
  Qed.

Lemma vsum_map_div (c : R) (l : list R) :
    vsum (map (fun x => x / c) l) = vsum l / c.
  Proof.
    induction l as [|x l IH]; cbn [map].
    - rewrite vsum_nil. unfold Rdiv. ring.
    - rewrite !vsum_cons, IH. unfold Rdiv. ring.
  Qed.

Lemma dot_nonneg (u v : list R) :
    Forall (fun x => 0 <= x) u -> Forall (fun x => 0 <= x) v -> 0 <= dot u v.
  Proof.
    intros Hu Hv. unfold dot. apply vsum_nonneg.
    eapply Forall_zipWith; [|exact Hu|exact Hv].
    intros a b Ha Hb. cbn. apply Rmult_le_pos; assumption.
  Qed.

Lemma nth_nonneg (l : list R) (i : nat) :
    Forall (fun x => 0 <= x) l -> 0 <= nth i l 0.
  Proof.
    intros Hl. revert i. induction Hl as [|x l Hx Hl IH]; intros [|i]; cbn; auto; lra.
  Qed.

Lemma column_nonneg (M : list (list R)) (j : nat) :
    allM (fun x => 0 <= x) M -> Forall (fun x => 0 <= x) (column M j).
  Proof.
    intros HM. unfold column. apply Forall_map.
    eapply Forall_impl; [|exact HM]. intros r Hr. apply (nth_nonneg j Hr).
  Qed.

  (** One row of [normalizerows_ip]: positive entries that sum to one. *)
Lemma normalized_row (r : list R) :
    r <> nil -> Forall (fun x => 0 < x) r ->
    vsum (map (fun x => x / vsum r) r) = 1 /\
    Forall (fun x => 0 < x) (map (fun x => x / vsum r) r).
  Proof.
    intros Hne Hr. pose proof (vsum_pos Hne Hr) as Hs. split.
    - rewrite vsum_map_div. field. lra.
    - apply Forall_map. eapply Forall_impl; [|exact Hr].
      intros x Hx. cbn in Hx. apply Rdiv_lt_0_compat; assumption.
  Qed.

Lemma exp_shifted_pos (M : list (list R)) :
    allM (fun x => 0 < x) (exp_shifted M).
  Proof.
    unfold exp_shifted, mat_map, allM. apply Forall_map.
    apply Forall_forall. intros r _. apply Forall_map.
    apply Forall_forall. intros x _. apply exp_pos.
  Qed.

Lemma allM_weaken (M : list (list R)) :
    allM (fun x => 0 < x) M -> allM (fun x => 0 <= x) M.
  Proof.
    intros H. eapply Forall_impl; [|exact H].
    intros r Hr. eapply Forall_impl; [|exact Hr]. intros x Hx; cbn in Hx; lra.
  Qed.
End RealLists.

(** ** The vocabulary update over the reals *)

Section VocabularyUpdate.
  Local Open Scope R_scope.

Definition sp_all (P : R -> Prop) (W : csr_matrix R) : Prop :=
    Forall (Forall (fun cx : nat * R => P (snd cx))) (sp_rows W).

  (** Rows that are probability vectors without a zero entry. *)
Definition stochastic_rows (M : list (list R)) : Prop :=
    Forall (fun row => vsum row = 1 /\ Forall (fun x => x <> 0) row) M.

Definition positive_rows (M : list (list R)) : Prop :=
    Forall (fun row => vsum row = 1 /\ Forall (fun x => 0 < x) row) M.

Lemma positive_rows_stochastic (M : list (list R)) :
    positive_rows M -> stochastic_rows M.
  Proof.
    intros H. eapply Forall_impl; [|exact H]. intros r [Hs Hp]. split; auto.
    eapply Forall_impl; [|exact Hp]. intros x Hx; cbn in Hx; lra.
  Qed.

Lemma quotient_nonneg (W : csr_matrix R) (B C : list (list R)) :
    sp_all (fun x => 0 <= x) W ->
    allM (fun x => 0 <= x) B -> allM (fun x => 0 <= x) C ->
    sp_all (fun x => 0 <= x) (sparseScalarQuotientOfDot W B C).
  Proof.
    intros HW HB HC. unfold sp_all, sparseScalarQuotientOfDot. cbn [sp_rows].
    eapply Forall_zipWith; [|exact HW|exact HB].
    intros r b Hr Hb. apply Forall_map.
    eapply Forall_impl; [|exact Hr]. intros [t x] Hx. cbn in *.
    apply Rdiv_nonneg; [exact Hx|]. apply dot_nonneg; [exact Hb|].
    apply column_nonneg; exact HC.
  Qed.

Lemma sp_get_nonneg (r : list (nat * R)) (t : nat) :
    Forall (fun cx : nat * R => 0 <= snd cx) r -> 0 <= sp_get r t.
  Proof.
    induction 1 as [|[c x] r Hx Hr IH]; cbn [sp_get].
    - cbn. lra.
    - destruct (Nat.eqb c t); [exact Hx | exact IH].
  Qed.

Lemma spT_dot_T_nonneg (Rm : csr_matrix R) (E : list (list R)) :
    sp_all (fun x => 0 <= x) Rm -> allM (fun x => 0 <= x) E ->
    allM (fun x => 0 <= x) (spT_dot_T Rm E).
  Proof.
    intros HR HE. unfold spT_dot_T, allM.
    apply Forall_map, Forall_forall. intros k _.
    apply Forall_map, Forall_forall. intros t _.
    apply vsum_nonneg. eapply Forall_zipWith; [|exact HR|exact HE].
    intros r e Hr He. cbn.
    apply Rmult_le_pos; [apply sp_get_nonneg; exact Hr | apply nth_nonneg; exact He].
  Qed.

Lemma spT_dot_T_rows (Rm : csr_matrix R) (E : list (list R)) :
    Forall (fun r => length r = sp_cols Rm) (spT_dot_T Rm E).
  Proof.
    unfold spT_dot_T. apply Forall_map, Forall_forall. intros k _.
    rewrite length_map, length_seq. reflexivity.
  Qed.

  (** The M-step's vocabulary update yields probability vectors with
      positive entries: the prior keeps every entry away from zero. *)
Lemma update_vocab_positive (W : csr_matrix R) (E V : list (list R)) (p : R) :
    sp_all (fun x => 0 <= x) W -> (1 <= sp_cols W)%nat ->
    allM (fun x => 0 <= x) E ->
    allM (fun x => 0 <= x) V -> Forall (fun r => r <> nil) V ->
    0 < p ->
    positive_rows (Ctm.update_vocab W E V p).
  Proof.
    intros HW HT HE HV HVne Hp.
    unfold Ctm.update_vocab, normalizerows_ip, positive_rows.
    apply Forall_map.
    set (Rm := sparseScalarQuotientOfDot W E V).
    assert (HX : Forall (fun r => Forall (fun x => 0 <= x) r /\ r <> nil)
                   (spT_dot_T Rm E)).
    { pose proof (spT_dot_T_nonneg (quotient_nonneg HW HE HV) HE) as Hnn.
      pose proof (spT_dot_T_rows Rm E) as Hlen.
      fold Rm in Hnn. unfold allM in Hnn.
      rewrite Forall_forall in *. intros r Hr. split; [apply Hnn; exact Hr|].
      specialize (Hlen r Hr). cbn [Rm sparseScalarQuotientOfDot sp_cols] in Hlen.
      intros ->. cbn in Hlen. lia. }
    assert (HVV : Forall (fun r => Forall (fun x => 0 <= x) r /\ r <> nil) V).
    { unfold allM in HV. rewrite Forall_forall in *. intros r Hr. split; auto. }
    unfold mat_map, mat_zip. apply Forall_map.
    eapply Forall_zipWith; [|exact HVV|exact HX].
    intros v x [Hv Hvne] [Hx Hxne].
    apply normalized_row.
    - destruct v; [contradiction|]. destruct x; [contradiction|]. discriminate.
    - apply Forall_map. eapply Forall_zipWith; [|exact Hv|exact Hx].
      intros a b Ha Hb. cbn in *. pose proof (Rmult_le_pos _ _ Ha Hb). lra.
  Qed.

Lemma positive_rows_valid (M : list (list R)) :
    positive_rows M ->
    allM (fun x => 0 <= x) M /\ Forall (fun r => r <> nil) M.
  Proof.
    intros H. split.
    - unfold allM. eapply Forall_impl; [|exact H]. intros r [_ Hp].
      eapply Forall_impl; [|exact Hp]. intros x Hx; cbn in Hx; lra.
    - eapply Forall_impl; [|exact H]. intros r [Hs _] ->.
      rewrite vsum_nil in Hs. lra.
  Qed.
End VocabularyUpdate.

(** ** States the training loop reaches *)

Section Reachable.
  Context {num : Type} {N : Numeric num}.
  Variable ext : Externals num.
  Variable dataset : DataSet num.
  Variable modelState : Ctm.ModelState num.
  Variable queryState : Ctm.QueryState num.
  Variable trainPlan : Ctm.TrainPlan num.

  (** [reaches c i st]: started with console [c], [train] arrives at the head
      of iteration [i] with its local variables as in [st]. *)
Definition reaches (c : Console num) (i : nat) (st : Ctm.TrainSt num) : Prop :=
    exists st0,
      Ctm.initial_state ext modelState queryState trainPlan c = Ok st0 /\
      for_range (Ctm.iteration ext dataset modelState queryState trainPlan)
        0 i st0 = Ok (inl st).

Lemma initial_state_arrays (c : Console num) (st0 : Ctm.TrainSt num) :
    Ctm.initial_state ext modelState queryState trainPlan c = Ok st0 ->
    Ctm.t_vocab st0 = Ctm.vocab modelState /\
    Ctm.t_means st0 = Ctm.means queryState /\
    Ctm.t_varcs st0 = Ctm.varcs queryState /\
    Ctm.t_lxi st0 = Ctm.lxi queryState /\
    Ctm.t_s st0 = map (fun _ => zero) (Ctm.s queryState) /\
    Ctm.t_bvIdx st0 = 0%nat /\
    length (Ctm.t_boundValues st0) =
      (Ctm.iterations trainPlan / Ctm.logFrequency trainPlan)%nat.
  Proof.
    unfold Ctm.initial_state.
    destruct (Ctm.logFrequency trainPlan =? 0)%nat; [discriminate|].
    destruct (la_inv ext (Ctm.sigT modelState)); [|discriminate].
    intros H; inversion H; subst; cbn. rewrite repeat_length.
    repeat split; reflexivity.
  Qed.

  (** An invariant of the arrays that holds initially and is kept by
      [next_state] holds wherever the loop arrives. *)
Lemma reaches_invariant (P : Ctm.TrainSt num -> Prop) :
    (forall a b, same_arrays a b -> P b -> P a) ->
    (forall st, P st -> P (next_state ext dataset modelState queryState st)) ->
    forall c i st st0,
      Ctm.initial_state ext modelState queryState trainPlan c = Ok st0 ->
      P st0 ->
      for_range (Ctm.iteration ext dataset modelState queryState trainPlan)
        0 i st0 = Ok (inl st) ->
      P st.
  Proof.
    intros Hsame Hnext c i st st0 _ H0 Hrun.
    eapply for_range_invariant with (P := P); [|exact H0|exact Hrun].
    intros itr a b Ha Hb. apply iteration_arrays in Hb.
    eapply Hsame; [exact Hb|]. apply Hnext; exact Ha.
  Qed.

  (** A [return] inside iteration [itr] hands out the model computed by that
      iteration's updates. *)
Lemma iteration_return (itr : nat) (st : Ctm.TrainSt num)
      (o : Ctm.TrainOutput num) :
    Ctm.iteration ext dataset modelState queryState trainPlan itr st = Ok (inr o) ->
    let st1 := next_state ext dataset modelState queryState st in
    Ctm.vocab (fst (fst (Ctm.returned o))) = Ctm.t_vocab st1 /\
    Ctm.varcs (snd (fst (Ctm.returned o))) = Ctm.t_varcs st1 /\
    Ctm.means (snd (fst (Ctm.returned o))) = Ctm.t_means st1 /\
    Ctm.lxi (snd (fst (Ctm.returned o))) = Ctm.t_lxi st1 /\
    Ctm.s (snd (fst (Ctm.returned o))) = Ctm.t_s st /\
    Ctm.s (Ctm.query_after o) = Ctm.t_s st.
  Proof.
    unfold Ctm.iteration. intros H. bind_ok H.
    apply checkpoint_return in H. destruct H as (Hm & Hq & _ & Hs).
    apply updates_next_state in E. rewrite Hm, Hq, Hs, E. cbn.
    repeat split; reflexivity.
  Qed.
End Reachable.

(** ** A small training problem

    One document that holds a single term three times, two topics, a
    vocabulary of one term; the covariance is the identity. *)

Definition tiny_words : csr_matrix R :=
  {| sp_cols := 1; sp_rows := [[(0%nat, 3%R)]] |}.

Definition tiny_data : DataSet R := {| words := tiny_words |}.

Definition tiny_model : Ctm.ModelState R :=
  {| Ctm.K := 2; Ctm.topicMean := [0%R; 0%R];
     Ctm.sigT := np_diag [1%R; 1%R]; Ctm.vocab := [[1%R]; [1%R]];
     Ctm.vocabPrior := (11 / 10)%R; Ctm.dtype := Float64;
     Ctm.name := Ctm.MODEL_NAME |}.

Definition tiny_query : Ctm.QueryState R :=
  {| Ctm.means := [[0%R; 0%R]]; Ctm.expMeans := [[5%R; 5%R]];
     Ctm.varcs := [[1%R; 1%R]]; Ctm.lxi := [[1%R; 1%R]];
     Ctm.s := [7%R]; Ctm.docLens := [3%R] |}.

Definition tiny_plan (iterations logFrequency : nat) : Ctm.TrainPlan R :=
  {| Ctm.iterations := iterations; Ctm.epsilon := 2%R;
     Ctm.logFrequency := logFrequency; Ctm.fastButInaccurate := false;
     Ctm.debug := false |}.

Definition console0 : Console R := {| last := 0%R; out := nil |}.

Lemma tiny_sigT_inverse :
  la_inv ref_ext (Ctm.sigT tiny_model) = Some (np_diag [(1 / 1)%R; (1 / 1)%R]).
Proof.
  cbn [la_inv ref_ext Ctm.sigT tiny_model].
  rewrite diag_inv_np_diag; [reflexivity|].
  repeat constructor; lra.
Qed.

Lemma tiny_initial_state (iterations logFrequency : nat) :
  logFrequency <> 0%nat ->
  exists st0,
    Ctm.initial_state ref_ext tiny_model tiny_query
      (tiny_plan iterations logFrequency) console0 = Ok st0.
Proof.
  intros Hl. unfold Ctm.initial_state.
  cbn [Ctm.logFrequency tiny_plan].
  destruct (Nat.eqb_spec logFrequency 0) as [->|_]; [contradiction|].
  rewrite tiny_sigT_inverse. eexists; reflexivity.
Qed.

Lemma tiny_words_nonneg : sp_all (fun x => 0 <= x)%R tiny_words.
Proof. repeat constructor; cbn; lra. Qed.

Lemma tiny_vocab_nonneg : allM (fun x => 0 <= x)%R (Ctm.vocab tiny_model).
Proof. repeat constructor; lra. Qed.

Lemma tiny_vocab_rows : Forall (fun r : list R => r <> nil) (Ctm.vocab tiny_model).
Proof. repeat constructor; discriminate. Qed.

(** ** The vocabulary invariant of [train] *)

Section VocabularyInvariant.
Local Open Scope R_scope.
Variable ext : Externals R.
Variable dataset : DataSet R.
Variable modelState : Ctm.ModelState R.
Variable queryState : Ctm.QueryState R.
Variable trainPlan : Ctm.TrainPlan R.

Hypothesis words_nonneg : sp_all (fun x => 0 <= x) (words dataset).
Hypothesis one_term : (1 <= sp_cols (words dataset))%nat.
Hypothesis prior_positive : 0 < Ctm.vocabPrior modelState.

Definition vocab_valid (st : Ctm.TrainSt R) : Prop :=
  allM (fun x => 0 <= x) (Ctm.t_vocab st) /\
  Forall (fun r => r <> nil) (Ctm.t_vocab st).

Lemma vocab_valid_next (st : Ctm.TrainSt R) :
  vocab_valid st ->
  positive_rows (Ctm.t_vocab (next_state ext dataset modelState queryState st)).
Proof.
  intros [Hnn Hne]. cbn [next_state Ctm.t_vocab].
  apply update_vocab_positive; auto.
  apply allM_weaken, exp_shifted_pos.
Qed.

Lemma vocab_valid_reached (c : Console R) (i : nat) (st : Ctm.TrainSt R) :
  allM (fun x => 0 <= x) (Ctm.vocab modelState) ->
  Forall (fun r => r <> nil) (Ctm.vocab modelState) ->
  reaches ext dataset modelState queryState trainPlan c i st ->
  vocab_valid st.
Proof.
  intros Hnn Hne (st0 & Hinit & Hrun).
  eapply reaches_invariant with (P := vocab_valid); eauto.
  - intros a b Hab [H1 H2]. destruct Hab as (_ & _ & _ & Hv & _).
    unfold vocab_valid. rewrite Hv. auto.
  - intros s Hs. apply positive_rows_valid, vocab_valid_next, Hs.
  - apply initial_state_arrays in Hinit. destruct Hinit as (Hv & _).
    unfold vocab_valid. rewrite Hv. auto.
Qed.
End VocabularyInvariant.

(** C3.  In every training run that starts from a non-negative document-term
    matrix with at least one term, a non-negative vocabulary without empty
    rows and a positive prior, the vocabulary that the M-step of any iteration
    [i] computes (lines 246-249 of [ctm.py]) has rows that sum to one and hold
    no zero entry; it is the vocabulary of the state the loop goes on with,
    and of the model a [return] inside that iteration hands out.  Real
    arithmetic stands for the floats, so the sums are exactly one. *)
Theorem vocab_rows_sum_to_one
    (ext : Externals R) (dataset : DataSet R) (modelState : Ctm.ModelState R)
    (queryState : Ctm.QueryState R) (trainPlan : Ctm.TrainPlan R)
    (c : Console R) (i : nat) (st : Ctm.TrainSt R) :
  sp_all (fun x => 0 <= x)%R (words dataset) ->
  (1 <= sp_cols (words dataset))%nat ->
  allM (fun x => 0 <= x)%R (Ctm.vocab modelState) ->
  Forall (fun r => r <> nil) (Ctm.vocab modelState) ->
  (0 < Ctm.vocabPrior modelState)%R ->
  reaches ext dataset modelState queryState trainPlan c i st ->
  let vocab' := Ctm.update_vocab (words dataset) (exp_shifted (Ctm.t_means st))
                  (Ctm.t_vocab st) (Ctm.vocabPrior modelState) in
  stochastic_rows vocab' /\
  (forall st', Ctm.iteration ext dataset modelState queryState trainPlan i st
               = Ok (inl st') -> Ctm.t_vocab st' = vocab') /\
  (forall o, Ctm.iteration ext dataset modelState queryState trainPlan i st
             = Ok (inr o) -> Ctm.vocab (fst (fst (Ctm.returned o))) = vocab').
Proof.
  intros HW HT Hnn Hne Hp Hreach vocab'.
  pose proof (vocab_valid_reached HW HT Hp Hnn Hne Hreach) as Hvalid.
  split; [|split].
  - apply positive_rows_stochastic.
    pose proof (@vocab_valid_next ext dataset modelState queryState
                  HW HT Hp st Hvalid) as Hpos.
    exact Hpos.
  - intros st' Hit. apply iteration_arrays in Hit.
    destruct Hit as (_ & _ & _ & Hv & _). exact Hv.
  - intros o Hit. apply iteration_return in Hit.
    destruct Hit as (Hv & _). exact Hv.
Qed.

Lemma vocab_rows_sum_to_one_witness :
  exists st0,
    reaches ref_ext tiny_data tiny_model tiny_query (tiny_plan 60 30) console0 0 st0 /\
    stochastic_rows
      (Ctm.update_vocab (words tiny_data) (exp_shifted (Ctm.t_means st0))
         (Ctm.t_vocab st0) (Ctm.vocabPrior tiny_model)).
Proof.
  destruct (@tiny_initial_state 60 30 ltac:(discriminate)) as [st0 H0].
  assert (Hr : reaches ref_ext tiny_data tiny_model tiny_query (tiny_plan 60 30)
                 console0 0 st0).
  { exists st0. split; [exact H0 | reflexivity]. }
  exists st0. split; [exact Hr|].
  apply (@vocab_rows_sum_to_one ref_ext tiny_data tiny_model tiny_query
           (tiny_plan 60 30) console0 0%nat st0).
  - exact tiny_words_nonneg.
  - cbn; lia.
  - exact tiny_vocab_nonneg.
  - exact tiny_vocab_rows.
  - cbn; lra.
  - exact Hr.
Defined.

(** ** Shapes and entries of the array operations *)

Section Shapes.
Context {num : Type} {N : Numeric num}.
Local Abbreviation vec := (list num).
Local Abbreviation mat := (list (list num)).

Lemma nth_zipWith (A B C : Type) (f : A -> B -> C) (l : list A) (m : list B)
    (i : nat) (da : A) (db : B) (dc : C) :
  (i < length l)%nat -> (i < length m)%nat ->
  nth i (zipWith f l m) dc = f (nth i l da) (nth i m db).
Proof.
  revert m i. induction l as [|a l IH]; intros [|b m] [|i] Hl Hm;
    cbn in *; try lia; auto.
  apply IH; lia.
Qed.

Lemma nrows_mat_zip (f : num -> num -> num) (A B : mat) :
  nrows (mat_zip f A B) = Nat.min (nrows A) (nrows B).
Proof. apply length_zipWith. Qed.

Lemma row_mat_zip (f : num -> num -> num) (A B : mat) (i : nat) :
  (i < nrows A)%nat -> (i < nrows B)%nat ->
  nth i (mat_zip f A B) nil = zipWith f (nth i A nil) (nth i B nil).
Proof. intros HA HB. apply nth_zipWith; assumption. Qed.

Lemma entry_mat_zip (f : num -> num -> num) (A B : mat) (i j : nat) :
  (i < nrows A)%nat -> (i < nrows B)%nat ->
  (j < length (nth i A nil))%nat -> (j < length (nth i B nil))%nat ->
  entry (mat_zip f A B) i j = f (entry A i j) (entry B i j).
Proof.
  intros HA HB HjA HjB. unfold entry. rewrite row_mat_zip by assumption.
  apply nth_zipWith; assumption.
Qed.

Lemma row_np_diag (v : vec) (i : nat) :
  (i < length v)%nat -> length (nth i (np_diag v) nil) = length v.
Proof.
  intros Hi. unfold np_diag. rewrite (nth_map_seq _ _ Hi).
  rewrite length_map, length_seq. reflexivity.
Qed.

Lemma nrows_add_to_diagonal (M : mat) (v : vec) :
  nrows (add_to_diagonal M v) = nrows M.
Proof. unfold nrows, add_to_diagonal. rewrite length_map, length_seq. reflexivity. Qed.

Lemma row_add_to_diagonal (M : mat) (v : vec) (i : nat) :
  (i < nrows M)%nat ->
  length (nth i (add_to_diagonal M v) nil) = length (nth i M nil).
Proof.
  intros Hi. unfold add_to_diagonal. rewrite (nth_map_seq _ _ Hi).
  rewrite length_map, length_seq. reflexivity.
Qed.

Lemma entry_add_to_diagonal (M : mat) (v : vec) (i : nat) :
  (i < nrows M)%nat -> (i < length (nth i M nil))%nat ->
  entry (add_to_diagonal M v) i i = nadd (entry M i i) (nth i v zero).
Proof.
  intros Hi Hj. unfold entry at 1. unfold add_to_diagonal.
  rewrite (nth_map_seq _ _ Hi), (nth_map_seq _ _ Hj), Nat.eqb_refl. reflexivity.
Qed.

Lemma nrows_outer (u v : vec) : nrows (outer u v) = length u.
Proof. unfold nrows, outer. apply length_map. Qed.

Lemma row_outer (u v : vec) (i : nat) :
  (i < length u)%nat -> nth i (outer u v) nil = map (nmul (nth i u zero)) v.
Proof.
  intros Hi. unfold outer.
  rewrite (nth_indep _ nil (map (nmul zero) v)) by (rewrite length_map; exact Hi).
  apply (map_nth (fun x => map (nmul x) v)).
Qed.

Lemma nrows_mat_map (f : num -> num) (M : mat) : nrows (mat_map f M) = nrows M.
Proof. apply length_map. Qed.

Lemma row_mat_map (f : num -> num) (M : mat) (i : nat) :
  nth i (mat_map f M) nil = map f (nth i M nil).
Proof. unfold mat_map. apply (map_nth (map f) M nil i). Qed.

Lemma entry_mat_map (f : num -> num) (M : mat) (i j : nat) :
  (j < length (nth i M nil))%nat ->
  entry (mat_map f M) i j = f (entry M i j).
Proof.
  intros Hj. unfold entry. rewrite row_mat_map.
  rewrite (nth_indep _ zero (f zero)) by (rewrite length_map; exact Hj).
  apply map_nth.
Qed.

Lemma nth_repeat_lt (A : Type) (x d : A) (k i : nat) :
  (i < k)%nat -> nth i (repeat x k) d = x.
Proof.
  revert i; induction k as [|k IH]; intros [|i] Hi; cbn; try lia; auto.
  apply IH; lia.
Qed.

Lemma Forall_diagonal (P : num -> Prop) (M : mat) :
  (forall i, (i < nrows M)%nat -> P (entry M i i)) -> Forall P (diagonal M).
Proof.
  intros H. unfold diagonal. apply Forall_map, Forall_forall.
  intros i Hi. apply in_seq in Hi. apply H; lia.
Qed.

Lemma In_diagonal (M : mat) (i : nat) :
  (i < nrows M)%nat -> In (entry M i i) (diagonal M).
Proof.
  intros Hi. unfold diagonal. apply in_map_iff. exists i. split; auto.
  apply in_seq; lia.
Qed.

Lemma ncols_mat_zip_le (f : num -> num -> num) (A B : mat) :
  (ncols (mat_zip f A B) <= ncols A)%nat.
Proof.
  destruct A as [|a A], B as [|b B]; cbn; try lia.
  rewrite length_zipWith. lia.
Qed.

Lemma ncols_col_bcast_r_le (f : num -> num -> num) (M : mat) (c : vec) :
  (ncols (col_bcast_r f M c) <= ncols M)%nat.
Proof.
  destruct M as [|a A], c as [|b B]; cbn; try lia.
  rewrite length_map. lia.
Qed.

Lemma ncols_mat_map (f : num -> num) (M : mat) : ncols (mat_map f M) = ncols M.
Proof. destruct M; cbn; auto. apply length_map. Qed.

Lemma ncols_row_bcast_r_le (f : num -> num -> num) (M : mat) (r : vec) :
  (ncols (row_bcast_r f M r) <= length r)%nat.
Proof.
  destruct M as [|a A]; cbn; try lia. rewrite length_zipWith. lia.
Qed.

Lemma length_sum_axis0 (M : mat) : length (sum_axis0 M) = ncols M.
Proof. unfold sum_axis0. rewrite length_map, length_seq. reflexivity. Qed.
End Shapes.

(** ** The variance update over the reals *)

Section VarianceUpdate.
Local Open Scope R_scope.

(** What the proofs need of [sklearn.covariance.oas]: the estimate is a
    square matrix and its diagonal holds no negative entry. *)
Definition oas_ok (ext : Externals R) : Prop :=
  forall X,
    Forall (fun r => length r = nrows (oas ext X)) (oas ext X) /\
    Forall (fun x => 0 <= x) (diagonal (oas ext X)).

Lemma ofnat_nonneg (k : nat) : 0 <= @ofnat R RNum k.
Proof. unfold ofnat. cbn. apply IZR_le. lia. Qed.

Lemma astype_id (t : DType) (M : list (list R)) :
  (if is_float64 t then M else mat_map (nastype t) M) = M.
Proof.
  destruct t; cbn; auto. unfold mat_map.
  rewrite <- (map_id M) at 2. apply map_ext. intros r. apply map_id.
Qed.

Lemma mean_axis0_nonneg (M : list (list R)) :
  allM (fun x => 0 <= x) M -> Forall (fun x => 0 <= x) (mean_axis0 M).
Proof.
  intros HM. unfold mean_axis0, sum_axis0. rewrite map_map.
  apply Forall_map, Forall_forall. intros j _. cbn.
  apply Rdiv_nonneg; [|apply ofnat_nonneg].
  apply vsum_nonneg, column_nonneg, HM.
Qed.

Lemma nth_Forall (P : R -> Prop) (l : list R) (i : nat) (d : R) :
  Forall P l -> (i < length l)%nat -> P (nth i l d).
Proof.
  intros Hl Hi. rewrite Forall_forall in Hl. apply Hl, nth_In, Hi.
Qed.

(** Every diagonal entry of the covariance the M-step builds is positive:
    the prior adds [0.1] to sums of non-negative terms. *)
Lemma sigT_diagonal_positive (ext : Externals R) (dtype : DType)
    (D K kappa : nat) (means varcs : list (list R)) (tm : list R) :
  oas_ok ext -> allM (fun x => 0 <= x) varcs -> (length tm <= K)%nat ->
  Forall (fun x => 0 < x)
    (diagonal (Ctm.update_sigT ext dtype D K kappa means varcs tm)).
Proof.
  intros Hoas Hv Htm. unfold Ctm.update_sigT. rewrite astype_id.
  destruct (Hoas means) as [Hsq Hdiag].
  set (M1 := oas ext means) in *.
  set (vm := mean_axis0 varcs).
  set (prior := repeat (nastype dtype (lit 1 10)) K).
  set (c := ndiv (ofnat (kappa * D)) (ofnat (kappa + D))).
  set (M2 := mat_zip nadd M1 (np_diag vm)).
  set (M3 := add_to_diagonal M2 prior).
  set (O := mat_map (nmul c) (outer tm tm)).
  apply Forall_diagonal. intros i Hi.
  rewrite nrows_mat_zip in Hi.
  assert (HO : nrows O = length tm)
    by (unfold O; rewrite nrows_mat_map, nrows_outer; reflexivity).
  assert (H3 : nrows M3 = nrows M2) by apply nrows_add_to_diagonal.
  assert (H2 : nrows M2 = Nat.min (nrows M1) (length vm))
    by (unfold M2; rewrite nrows_mat_zip, nrows_np_diag; reflexivity).
  assert (Hi1 : (i < nrows M1)%nat) by lia.
  assert (Hiv : (i < length vm)%nat) by lia.
  assert (Hit : (i < length tm)%nat) by lia.
  assert (Hr1 : length (nth i M1 nil) = nrows M1).
  { rewrite Forall_forall in Hsq. apply Hsq, nth_In, Hi1. }
  assert (Hr2 : length (nth i M2 nil) = Nat.min (nrows M1) (length vm)).
  { unfold M2. rewrite row_mat_zip by (rewrite ?nrows_np_diag; assumption).
    rewrite length_zipWith, Hr1, row_np_diag by assumption. reflexivity. }
  assert (Hr3 : length (nth i M3 nil) = length (nth i M2 nil))
    by (apply row_add_to_diagonal; lia).
  assert (HrO : length (nth i O nil) = length tm).
  { unfold O. rewrite row_mat_map, row_outer by assumption.
    rewrite !length_map. reflexivity. }
  rewrite entry_mat_zip by lia.
  unfold M3 at 1. rewrite entry_add_to_diagonal by lia.
  unfold M2 at 1.
  rewrite entry_mat_zip by (rewrite ?nrows_np_diag, ?row_np_diag; lia).
  rewrite entry_np_diag, Nat.eqb_refl by assumption.
  assert (HeO : entry O i i = nmul c (nmul (nth i tm zero) (nth i tm zero))).
  { unfold O. rewrite entry_mat_map by (rewrite row_outer, length_map; assumption).
    unfold entry. rewrite row_outer by assumption.
    rewrite (nth_indep (map (nmul (nth i tm zero)) tm) zero
               (nmul (nth i tm zero) zero))
      by (rewrite length_map; exact Hit).
    rewrite (map_nth (nmul (nth i tm zero)) tm zero i). reflexivity. }
  rewrite HeO.
  unfold prior. rewrite nth_repeat_lt by lia.
  assert (H1 : 0 <= entry M1 i i).
  { rewrite Forall_forall in Hdiag. apply Hdiag. apply (In_diagonal M1 Hi1). }
  assert (Hvm : 0 <= nth i vm zero).
  { apply nth_Forall; [apply mean_axis0_nonneg; exact Hv | exact Hiv]. }
  assert (Hc : 0 <= c).
  { unfold c. cbn [ndiv RNum]. apply Rdiv_nonneg; apply ofnat_nonneg. }
  cbn [nadd nmul nastype RNum lit ndiv nZ] in *.
  pose proof (Rle_0_sqr (nth i tm zero)) as Hsq'. unfold Rsqr in Hsq'.
  pose proof (Rmult_le_pos _ _ Hc Hsq'). lra.
Qed.

(** [np.reciprocal(n[:,None] * lxi + isigT.flat[::K+1])] is positive when
    document lengths and [lxi] are non-negative and the diagonal of [isigT]
    is positive. *)
Lemma update_varcs_positive (n : list R) (lxi isigT : list (list R)) :
  Forall (fun x => 0 <= x) n -> allM (fun x => 0 <= x) lxi ->
  Forall (fun x => 0 < x) (diagonal isigT) ->
  allM (fun x => 0 < x) (Ctm.update_varcs n lxi isigT).
Proof.
  intros Hn Hl Hd. unfold Ctm.update_varcs, mat_map, row_bcast_r, col_bcast_l, allM.
  rewrite map_map. apply Forall_map.
  eapply Forall_zipWith; [|exact Hn|exact Hl].
  intros x r Hx Hr. apply Forall_map.
  eapply Forall_zipWith; [| |exact Hd].
  2:{ apply Forall_map. eapply Forall_impl; [|exact Hr].
      intros y Hy. exact (Rmult_le_pos _ _ Hx Hy). }
  intros a b Ha Hb. cbn in *. apply Rdiv_lt_0_compat; lra.
Qed.
End VarianceUpdate.

(** ** The bound parameters [lxi] over the reals *)

Section BoundParameters.
Local Open Scope R_scope.

Lemma negJakkola1_positive (x : R) : 0 < x -> 0 < Ctm.negJakkola1 x.
Proof.
  intros Hx. unfold Ctm.negJakkola1, lit, one. cbn.
  pose proof (exp_pos (- x)) as He.
  assert (He1 : exp (- x) < 1).
  { rewrite <- exp_0. apply exp_increasing. lra. }
  assert (Hinv : / 2 < / (1 + exp (- x))).
  { apply Rinv_lt_contravar; [apply Rmult_lt_0_compat; lra | lra]. }
  apply Rmult_lt_0_compat.
  - apply Rdiv_lt_0_compat; lra.
  - unfold Rdiv. lra.
Qed.

Lemma deriveXi_row_positive (x : R) (m v : list R) :
  Forall (fun y => 0 < y) v ->
  Forall (fun y => 0 < y)
    (map nsqrt
       (zipWith nadd
          (map (fun y => nadd y (Ctm.sq x))
             (zipWith nsub (map Ctm.sq m)
                (map (fun y => nmul y x) (map (nmul two) m))))
          (map Ctm.sq v))).
Proof.
  intros Hv. revert m. induction Hv as [|b v Hb Hv IH]; intros [|a m]; cbn [map zipWith];
    try (constructor; fail).
  constructor.
  - unfold Ctm.sq, two. cbn in *. apply sqrt_lt_R0.
    pose proof (Rle_0_sqr (a - x)) as H1. unfold Rsqr in H1.
    pose proof (Rmult_lt_0_compat _ _ Hb Hb) as H2. lra.
  - apply IH.
Qed.

(** [_deriveXi] is positive wherever the variances are: it is the square
    root of [(mean - s)^2 + varc^2]. *)
Lemma deriveXi_positive (M V : list (list R)) (s : list R) :
  allM (fun x => 0 < x) V -> allM (fun x => 0 < x) (Ctm._deriveXi M V s).
Proof.
  intros HV. unfold Ctm._deriveXi, mat_map, mat_zip, col_bcast_r, allM.
  revert M s. induction HV as [|v V Hv HV IH]; intros M s.
  - destruct (zipWith _ _ (map Ctm.sq s)); constructor.
  - destruct M as [|m M]; [constructor|].
    destruct s as [|x s]; [constructor|].
    cbn [map zipWith]. constructor.
    + apply deriveXi_row_positive; exact Hv.
    + apply IH.
Qed.

Lemma update_lxi_positive (M V : list (list R)) (s : list R) :
  allM (fun x => 0 < x) V ->
  allM (fun x => 0 < x)
    (mat_map (nmul two) (mat_map Ctm.negJakkola1 (Ctm._deriveXi M V s))).
Proof.
  intros HV. pose proof (deriveXi_positive M s HV) as Hxi.
  unfold mat_map, allM in *. rewrite map_map. apply Forall_map.
  eapply Forall_impl; [|exact Hxi]. intros r Hr. rewrite map_map.
  apply Forall_map. eapply Forall_impl; [|exact Hr].
  intros x Hx. cbn beta in Hx. pose proof (negJakkola1_positive Hx) as Hy.
  set (y := Ctm.negJakkola1 x) in *. unfold two. cbn [nmul nZ RNum]. lra.
Qed.

Lemma ncols_update_varcs (n : list R) (lxi isigT : list (list R)) :
  (ncols (Ctm.update_varcs n lxi isigT) <= length (diagonal isigT))%nat.
Proof.
  unfold Ctm.update_varcs. rewrite ncols_mat_map. apply ncols_row_bcast_r_le.
Qed.

Lemma ncols_update_means (varcs rhs : list (list R)) :
  (ncols (Ctm.update_means varcs rhs) <= ncols varcs)%nat.
Proof.
  unfold Ctm.update_means.
  etransitivity; [apply ncols_col_bcast_r_le | apply ncols_mat_zip_le].
Qed.
End BoundParameters.

(** ** The query loop of [ctm.py], for every interpretation of the numbers *)

Definition outcome {A : Type} (r : A + A) : A :=
  match r with inl a => a | inr a => a end.

Section QueryFacts.
Context {num : Type} {N : Numeric num}.
Variable ext : Externals num.
Variable dataset : DataSet num.
Variable modelState : Ctm.ModelState num.
Variable queryState : Ctm.QueryState num.
Variable queryPlan : Ctm.TrainPlan num.
Variables isigT expMeans S : list (list num).

(** One pass through the loop body of [query], whether it ends in [break]
    or not: the means come from the row-wise solves, and the variances, the
    bound parameters and the offsets from the closed-form updates, in this
    order. *)
Lemma query_iteration_updates (itr : nat) (st : Ctm.QuerySt num)
    (r : Ctm.QuerySt num + Ctm.QuerySt num) :
  Ctm.query_iteration ext dataset modelState queryState queryPlan
    isigT expMeans S itr st = Ok r ->
  let n := Ctm.docLens queryState in
  let rhsMat := Ctm.rhs_matrix (Ctm.q_s st) n (Ctm.q_lxi st) S isigT
                  (Ctm.topicMean modelState) in
  let means := fst (Ctm.solve_rows ext isigT n (Ctm.q_lxi st) rhsMat
                      (Ctm.q_means st) (Ctm.q_console st)) in
  let varcs := Ctm.update_varcs n (Ctm.q_lxi st) isigT in
  let lxi := mat_map (nmul two)
               (mat_map Ctm.negJakkola1 (Ctm._deriveXi means varcs (Ctm.q_s st))) in
  Ctm.q_means (outcome r) = means /\
  Ctm.q_varcs (outcome r) = varcs /\
  Ctm.q_lxi (outcome r) = lxi /\
  Ctm.q_s (outcome r) = Ctm.update_s (Ctm.K modelState) lxi means.
Proof.
  unfold Ctm.query_iteration. intros H.
  do 2 bind_ok H. cbn [Ctm.negJakkolaOfDerivedXi fst snd] in H.
  do 2 bind_ok H.
  match type of H with
  | (if ?b then _ else _) = _ => destruct b
  end; inversion H; subst; cbn; repeat split; reflexivity.
Qed.
End QueryFacts.

(** ** The variance invariant of [train] and [query] *)

Section VarianceInvariant.
Local Open Scope R_scope.
Variable ext : Externals R.
Variable dataset : DataSet R.
Variable modelState : Ctm.ModelState R.
Variable queryState : Ctm.QueryState R.
Variable trainPlan : Ctm.TrainPlan R.

Hypothesis oas_fine : oas_ok ext.
Hypothesis lengths_nonneg : Forall (fun x => 0 <= x) (Ctm.docLens queryState).

Definition variance_valid (st : Ctm.TrainSt R) : Prop :=
  allM (fun x => 0 <= x) (Ctm.t_varcs st) /\
  allM (fun x => 0 <= x) (Ctm.t_lxi st) /\
  (ncols (Ctm.t_means st) <= Ctm.K modelState)%nat.

Lemma nrows_update_sigT_le (dtype : DType) (D K kappa : nat)
    (means varcs : list (list R)) (tm : list R) :
  (nrows (Ctm.update_sigT ext dtype D K kappa means varcs tm) <= length tm)%nat.
Proof.
  unfold Ctm.update_sigT. rewrite nrows_mat_zip, nrows_mat_map, nrows_outer. lia.
Qed.

Lemma length_diagonal (M : list (list R)) : length (diagonal M) = nrows M.
Proof. unfold diagonal. rewrite length_map, length_seq. reflexivity. Qed.

Lemma length_update_topicMean (D kappa : nat) (means : list (list R)) :
  length (Ctm.update_topicMean D kappa means) = ncols means.
Proof. unfold Ctm.update_topicMean. rewrite length_map. apply length_sum_axis0. Qed.

Lemma reciprocal_positive (v : list R) :
  Forall (fun x => 0 < x) v -> Forall (fun x => 0 < x) (map (ndiv one) v).
Proof.
  intros Hv. apply Forall_map. eapply Forall_impl; [|exact Hv].
  intros x Hx. unfold one. cbn in *. apply Rdiv_lt_0_compat; lra.
Qed.

Lemma variance_valid_next (st : Ctm.TrainSt R) :
  variance_valid st ->
  let st' := next_state ext dataset modelState queryState st in
  allM (fun x => 0 < x) (Ctm.t_varcs st') /\
  allM (fun x => 0 < x) (Ctm.t_lxi st') /\
  (ncols (Ctm.t_means st') <= Ctm.K modelState)%nat.
Proof.
  intros (Hv & Hl & Hm). cbn [next_state Ctm.t_varcs Ctm.t_lxi Ctm.t_means].
  set (tm := Ctm.update_topicMean _ _ _).
  set (sig := Ctm.update_sigT _ _ _ _ _ _ _ _).
  assert (Htm : (length tm <= Ctm.K modelState)%nat)
    by (unfold tm; rewrite length_update_topicMean; exact Hm).
  assert (Hd : Forall (fun x => 0 < x) (diagonal (np_diag (map (ndiv one) (diagonal sig))))).
  { rewrite diagonal_np_diag. apply reciprocal_positive.
    apply sigT_diagonal_positive; assumption. }
  pose proof (@update_varcs_positive _ _ _ lengths_nonneg Hl Hd) as Hv'.
  split; [exact Hv'|]. split.
  - apply update_lxi_positive; exact Hv'.
  - etransitivity; [apply ncols_update_means|].
    etransitivity; [apply ncols_update_varcs|].
    rewrite diagonal_np_diag, length_map, length_diagonal.
    etransitivity; [apply nrows_update_sigT_le | exact Htm].
Qed.

Lemma variance_valid_reached (c : Console R) (i : nat) (st : Ctm.TrainSt R) :
  allM (fun x => 0 <= x) (Ctm.varcs queryState) ->
  allM (fun x => 0 <= x) (Ctm.lxi queryState) ->
  (ncols (Ctm.means queryState) <= Ctm.K modelState)%nat ->
  reaches ext dataset modelState queryState trainPlan c i st ->
  variance_valid st.
Proof.
  intros Hv Hl Hm (st0 & Hinit & Hrun).
  eapply reaches_invariant with (P := variance_valid); eauto.
  - intros a b Hab (H1 & H2 & H3).
    destruct Hab as (_ & _ & _ & _ & Em & Ev & El & _).
    unfold variance_valid. rewrite Em, Ev, El. auto.
  - intros s Hs. destruct (variance_valid_next Hs) as (H1 & H2 & H3).
    repeat split; auto using allM_weaken.
  - apply initial_state_arrays in Hinit.
    destruct Hinit as (_ & Em & Ev & El & _).
    unfold variance_valid. rewrite Em, Ev, El. auto.
Qed.

(** In [query] the bound parameters stay non-negative, so every variance
    update is positive. *)
Lemma query_lxi_nonneg (isigT expMeans S : list (list R)) (c : Console R)
    (i : nat) (st : Ctm.QuerySt R) :
  Forall (fun x => 0 < x) (diagonal isigT) ->
  allM (fun x => 0 <= x) (Ctm.lxi queryState) ->
  for_range (Ctm.query_iteration ext dataset modelState queryState trainPlan
               isigT expMeans S) 0 i
    (Ctm.query_initial modelState queryState c) = Ok (inl st) ->
  allM (fun x => 0 <= x) (Ctm.q_lxi st).
Proof.
  intros Hd Hl Hrun.
  eapply for_range_invariant
    with (P := fun s => allM (fun x => 0 <= x) (Ctm.q_lxi s)); [| |exact Hrun].
  - intros itr a b Ha Hb. apply query_iteration_updates in Hb.
    destruct Hb as (_ & _ & El & _). cbn [outcome] in El. rewrite El.
    apply allM_weaken, update_lxi_positive.
    apply update_varcs_positive; assumption.
  - exact Hl.
Qed.
End VarianceInvariant.

Lemma ref_oas_ok : oas_ok ref_ext.
Proof.
  intros X. cbn [oas ref_ext]. unfold oas_single. split.
  - apply Forall_forall. intros r Hr. apply repeat_spec in Hr. subst r.
    unfold nrows. rewrite !repeat_length. reflexivity.
  - apply Forall_diagonal. intros i Hi. unfold nrows in Hi.
    rewrite repeat_length in Hi. unfold entry.
    rewrite (nth_repeat_lt _ nil Hi), (nth_repeat_lt _ zero Hi). cbn. lra.
Qed.

Lemma tiny_lengths_nonneg : Forall (fun x => 0 <= x)%R (Ctm.docLens tiny_query).
Proof. repeat constructor; lra. Qed.

Lemma tiny_lxi_nonneg : allM (fun x => 0 <= x)%R (Ctm.lxi tiny_query).
Proof. repeat constructor; lra. Qed.

Lemma tiny_varcs_nonneg : allM (fun x => 0 <= x)%R (Ctm.varcs tiny_query).
Proof. repeat constructor; lra. Qed.

(** C4.  With non-negative document lengths and bound parameters [lxi]:
    in [train], given non-negative variances to start from, means with at
    most [K] columns and an OAS estimate with a non-negative diagonal, the
    variance update of every iteration [i] (line 262 of [ctm.py], the
    reciprocal of [docLen * lxi] plus the diagonal of [isigT]) has only
    positive entries, and it is the [varcs] of the state the loop goes on
    with and of the query state a [return] inside that iteration hands out;
    in [query], given an inverse covariance with a positive diagonal, the
    variance update of every iteration (line 361) has only positive entries.
    Real arithmetic stands for the floats. *)
Theorem varcs_strictly_positive
    (ext : Externals R) (dataset : DataSet R) (modelState : Ctm.ModelState R)
    (queryState : Ctm.QueryState R) (plan : Ctm.TrainPlan R) (c : Console R) :
  Forall (fun x => 0 <= x)%R (Ctm.docLens queryState) ->
  allM (fun x => 0 <= x)%R (Ctm.lxi queryState) ->
  (oas_ok ext ->
   allM (fun x => 0 <= x)%R (Ctm.varcs queryState) ->
   (ncols (Ctm.means queryState) <= Ctm.K modelState)%nat ->
   forall i st,
     reaches ext dataset modelState queryState plan c i st ->
     let D := sp_nrows (words dataset) in
     let K := Ctm.K modelState in
     let topicMean := Ctm.update_topicMean D (K + 2) (Ctm.t_means st) in
     let sigT := Ctm.update_sigT ext (Ctm.dtype modelState) D K (K + 2)
                   (Ctm.t_means st) (Ctm.t_varcs st) topicMean in
     let isigT := np_diag (map (ndiv one) (diagonal sigT)) in
     let varcs' := Ctm.update_varcs (Ctm.docLens queryState) (Ctm.t_lxi st) isigT in
     allM (fun x => 0 < x)%R varcs' /\
     (forall st', Ctm.iteration ext dataset modelState queryState plan i st
                  = Ok (inl st') -> Ctm.t_varcs st' = varcs') /\
     (forall o, Ctm.iteration ext dataset modelState queryState plan i st
                = Ok (inr o) -> Ctm.varcs (snd (fst (Ctm.returned o))) = varcs'))
  /\
  (forall isigT,
     la_inv ext (Ctm.sigT modelState) = Some isigT ->
     Forall (fun x => 0 < x)%R (diagonal isigT) ->
     forall i st,
       let expMeans := exp_shifted (Ctm.means queryState) in
       let S := Ctm.expected_counts (words dataset) expMeans (Ctm.vocab modelState) in
       for_range (Ctm.query_iteration ext dataset modelState queryState plan
                    isigT expMeans S) 0 i
         (Ctm.query_initial modelState queryState c) = Ok (inl st) ->
       let varcs' := Ctm.update_varcs (Ctm.docLens queryState) (Ctm.q_lxi st) isigT in
       allM (fun x => 0 < x)%R varcs' /\
       (forall r, Ctm.query_iteration ext dataset modelState queryState plan
                    isigT expMeans S i st = Ok r ->
                  Ctm.q_varcs (outcome r) = varcs')).
Proof.
  intros Hn Hl. split.
  - intros Hoas Hv Hm i st Hreach D K topicMean sigT isigT varcs'.
    pose proof (variance_valid_reached Hoas Hn Hv Hl Hm Hreach) as Hvalid.
    destruct (@variance_valid_next ext dataset modelState queryState Hoas Hn st Hvalid)
      as (Hpos & _ & _).
    split; [exact Hpos|]. split.
    + intros st' Hit. apply iteration_arrays in Hit.
      destruct Hit as (_ & _ & _ & _ & _ & Ev & _). exact Ev.
    + intros o Hit. apply iteration_return in Hit.
      destruct Hit as (_ & Ev & _). exact Ev.
  - intros isigT Hinv Hd i st expMeans S Hrun varcs'. split.
    + apply update_varcs_positive; [exact Hn| |exact Hd].
      eapply query_lxi_nonneg; eauto.
    + intros r Hit. apply query_iteration_updates in Hit.
      destruct Hit as (_ & Ev & _). exact Ev.
Qed.

Lemma varcs_strictly_positive_witness :
  exists st0,
    reaches ref_ext tiny_data tiny_model tiny_query (tiny_plan 60 30) console0 0 st0 /\
    allM (fun x => 0 < x)%R
      (Ctm.t_varcs (next_state ref_ext tiny_data tiny_model tiny_query st0)).
Proof.
  destruct (@tiny_initial_state 60 30 ltac:(discriminate)) as [st0 H0].
  assert (Hr : reaches ref_ext tiny_data tiny_model tiny_query (tiny_plan 60 30)
                 console0 0 st0).
  { exists st0. split; [exact H0 | reflexivity]. }
  exists st0. split; [exact Hr|].
  destruct (@varcs_strictly_positive ref_ext tiny_data tiny_model tiny_query
              (tiny_plan 60 30) console0 tiny_lengths_nonneg tiny_lxi_nonneg)
    as [Htrain _].
  refine (proj1 (Htrain ref_oas_ok tiny_varcs_nonneg _ 0%nat st0 Hr)).
  cbn. lia.
Defined.

(** ** The covariance mode *)

(** C7.  The plan's [fastButInaccurate] flag does not select the covariance
    mode.  In [ctm.py] the test on line 231 is [True or diagonalPriorCov]:
    with the flag off, [sigT] is still cut to its diagonal and [isigT] is the
    reciprocal of that diagonal, and [la.inv] is not called.  In
    [ctm_bohning_fast.py] the assignments under [# FIXME Undo debug] replace
    [sigT] by the identity after the branch, whatever the flag. *)
Theorem precision_ignores_flag
    (num : Type) (N : Numeric num) (ext : Externals num)
    (sigT : list (list num)) (K : nat) :
  Ctm.precision ext false sigT =
    Ok (np_diag (diagonal sigT), np_diag (map (ndiv one) (diagonal sigT))) /\
  Ctm.precision ext false sigT = Ctm.precision ext true sigT /\
  (forall flag,
     match CtmBohningFast.precision ext K flag sigT with
     | Ok p => fst p = CtmBohningFast.eye K
               /\ la_inv ext (CtmBohningFast.eye K) = Some (snd p)
     | Raise _ => True
     end).
Proof.
  split; [reflexivity|]. split; [reflexivity|].
  intros flag. unfold CtmBohningFast.precision.
  destruct flag.
  - cbn [bind]. destruct (la_inv ext (CtmBohningFast.eye K)); cbn; auto.
  - destruct (la_inv ext sigT); cbn [bind]; auto.
    destruct (la_inv ext (CtmBohningFast.eye K)); cbn; auto.
Qed.

(** ** The offset vector [s] *)

(** C10.  In the Bouchard model [train] fills the [s] array of the query
    state it was given with zeros before the loop and never assigns [s]
    again: [s] is all zeros at the head of every iteration, in the query
    state [train] returns (from inside the loop or after it) and in the
    passed-in query state after the call.  [query] assigns [s] in every
    iteration, from [(sum(lxi * means) + 0.25 K - 0.5) / sum(lxi)] with the
    [lxi] and [means] of that iteration. *)
Theorem train_keeps_s_at_zero
    (num : Type) (N : Numeric num) (ext : Externals num)
    (dataset : DataSet num) (modelState : Ctm.ModelState num)
    (queryState : Ctm.QueryState num) (plan : Ctm.TrainPlan num)
    (c : Console num) :
  let zeros := map (fun _ => zero) (Ctm.s queryState) in
  (forall i st, reaches ext dataset modelState queryState plan c i st ->
                Ctm.t_s st = zeros) /\
  (forall o, Ctm.train ext dataset modelState queryState plan c = Ok o ->
             Ctm.s (snd (fst (Ctm.returned o))) = zeros /\
             Ctm.s (Ctm.query_after o) = zeros) /\
  (forall isigT expMeans S itr st r,
     Ctm.query_iteration ext dataset modelState queryState plan
       isigT expMeans S itr st = Ok r ->
     Ctm.q_s (outcome r) =
       Ctm.update_s (Ctm.K modelState) (Ctm.q_lxi (outcome r))
         (Ctm.q_means (outcome r))).
Proof.
  intros zeros.
  assert (Hinv : forall i st st0,
            Ctm.initial_state ext modelState queryState plan c = Ok st0 ->
            for_range (Ctm.iteration ext dataset modelState queryState plan)
              0 i st0 = Ok (inl st) -> Ctm.t_s st = zeros).
  { intros i st st0 H0 Hrun.
    eapply reaches_invariant with (P := fun s => Ctm.t_s s = zeros); eauto.
    - intros a b Hab Hb. destruct Hab as (_ & _ & _ & _ & _ & _ & _ & Es).
      rewrite Es. exact Hb.
    - apply initial_state_arrays in H0. destruct H0 as (_ & _ & _ & _ & Es & _).
      exact Es. }
  split; [|split].
  - intros i st (st0 & H0 & Hrun). eapply Hinv; eauto.
  - intros o H. unfold Ctm.train in H. do 2 bind_ok H.
    destruct a0 as [st|o']; inversion H; subst; clear H.
    + cbn. pose proof (Hinv _ _ _ eq_refl E0) as Hs. rewrite Hs. auto.
    + pose proof E as E'. apply initial_state_arrays in E'.
      destruct E' as (_ & _ & _ & _ & Es & _).
      assert (Hstep : forall itr x y, Ctm.t_s x = zeros ->
                Ctm.iteration ext dataset modelState queryState plan itr x
                = Ok (inl y) -> Ctm.t_s y = zeros).
      { intros itr x y Hx Hy. apply iteration_arrays in Hy.
        destruct Hy as (_ & _ & _ & _ & _ & _ & _ & Ey). rewrite Ey. exact Hx. }
      destruct (@for_range_return _ _ _ (fun s => Ctm.t_s s = zeros) Hstep
                  _ _ _ _ Es E0) as (j & st1 & _ & Hs1 & Hb).
      apply iteration_return in Hb.
      destruct Hb as (_ & _ & _ & _ & Ea & Eb). rewrite Ea, Eb. auto.
  - intros isigT expMeans S itr st r H.
    apply query_iteration_updates in H.
    destruct H as (Em & _ & El & Es). rewrite Es, El, Em. reflexivity.
Qed.

(** ** The dimension check *)

(** A document-term matrix with two terms, against the one-term vocabulary
    of [tiny_model]. *)
Definition wide_data : DataSet R :=
  {| words := {| sp_cols := 2; sp_rows := [[(0%nat, 3%R); (1%nat, 2%R)]] |} |}.

(** C9 (as amended).  When the number of columns of the document-term matrix
    differs from that of the model's vocabulary, [newQueryState] stops at its
    assertion: it raises, and builds no query state. *)
Theorem newQueryState_checks_terms
    (num : Type) (N : Numeric num) (rnd : list (list num)) (data : DataSet num)
    (modelState : Ctm.ModelState num) (c : Console num) :
  sp_cols (words data) <> ncols (Ctm.vocab modelState) ->
  exists msg, Ctm.newQueryState rnd data modelState c = Raise (AssertionError msg).
Proof.
  intros Hne. unfold Ctm.newQueryState.
  destruct (Nat.eqb_spec (sp_cols (words data)) (ncols (Ctm.vocab modelState)))
    as [Heq|_]; [contradiction|].
  cbn [negb]. eexists; reflexivity.
Qed.

Lemma newQueryState_checks_terms_witness :
  sp_cols (words wide_data) <> ncols (Ctm.vocab tiny_model) /\
  exists msg,
    Ctm.newQueryState [[1%R; 2%R; 3%R; 4%R]] wide_data tiny_model console0
    = Raise (AssertionError msg).
Proof.
  assert (H : sp_cols (words wide_data) <> ncols (Ctm.vocab tiny_model))
    by (cbn; lia).
  split; [exact H|].
  exact (@newQueryState_checks_terms R RNum [[1%R; 2%R; 3%R; 4%R]] wide_data
           tiny_model console0 H).
Defined.

(** [train] compares no dimensions: called with the same mismatch and an
    empty iteration budget, it returns. *)
Lemma train_without_dimension_check :
  sp_cols (words wide_data) <> ncols (Ctm.vocab tiny_model) /\
  exists o,
    Ctm.train ref_ext wide_data tiny_model tiny_query (tiny_plan 0 1) console0
    = Ok o.
Proof.
  split; [cbn; lia|].
  destruct (@tiny_initial_state 0 1 ltac:(discriminate)) as [st0 H0].
  unfold Ctm.train. rewrite H0. cbn. eexists; reflexivity.
Qed.

(** ** The scratch array of [var_bound] *)

Lemma Rmax_same (x : R) : Rmax x x = x.
Proof. unfold Rmax. destruct (Rle_dec x x); reflexivity. Qed.

Lemma tiny_exp_shifted : exp_shifted (Ctm.means tiny_query) = [[1%R; 1%R]].
Proof.
  cbn. rewrite Rmax_same.
  replace (0 - 0)%R with 0%R by ring. rewrite exp_0. reflexivity.
Qed.

(** C6.  [var_bound] does not leave the query state as it found it: its
    line [expMeans = np.exp(means - means.max(axis=1)[:,np.newaxis],
    out=expMeans)] writes into the [expMeans] array of the query state that
    was passed in, and nothing restores it.  On the small problem the array
    holds 5, 5 before the call and 1, 1 after it. *)
Theorem var_bound_overwrites_expMeans :
  (forall (num : Type) (N : Numeric num) (ext : Externals num)
          (data : DataSet num) (m : Ctm.ModelState num) (q : Ctm.QueryState num),
     match Ctm.var_bound ext data m q with
     | Ok r => Ctm.expMeans (snd r) = exp_shifted (Ctm.means q)
     | Raise _ => True
     end) /\
  (exists b q',
     Ctm.var_bound ref_ext tiny_data tiny_model tiny_query = Ok (b, q') /\
     Ctm.expMeans q' = [[1%R; 1%R]] /\
     Ctm.expMeans tiny_query = [[5%R; 5%R]]).
Proof.
  split.
  - intros num N ext data m q.
    destruct (Ctm.var_bound ext data m q) as [r|e] eqn:E; [|exact I].
    apply var_bound_query in E. rewrite E. reflexivity.
  - destruct (proj2 (var_bound_ok_iff ref_ext tiny_data tiny_model tiny_query))
      as [[b q'] E].
    { eexists. apply tiny_sigT_inverse. }
    exists b, q'. split; [exact E|]. split; [|reflexivity].
    apply var_bound_query in E. cbn [snd] in E. rewrite E.
    cbn [after_var_bound Ctm.expMeans]. apply tiny_exp_shifted.
Qed.

(** ** The log-likelihood *)

Section LogLikelihood.
Local Open Scope R_scope.

(** The softmax of a row, as the specification writes it. *)
Definition softmax (row : list R) : list R :=
  map (fun x => exp x / vsum (map exp row)) row.

(** The entry of the document-term matrix at row [d] and column [t]. *)
Definition dense_words (W : csr_matrix R) (d t : nat) : R :=
  sp_get (nth d (sp_rows W) nil) t.

(** The sum of the specification, evaluated densely: every position of the
    [D] by [T] grid is visited, and the positions where [words] is zero are
    left out. *)
Definition dense_log_likelihood (W : csr_matrix R) (means vocab : list (list R))
    : R :=
  vsum (map (fun d =>
          vsum (map (fun t =>
                  if Req_dec_T (dense_words W d t) 0 then 0
                  else dense_words W d t
                       * ln (dot (softmax (nth d means nil)) (column vocab t)))
                (seq 0 (sp_cols W))))
        (seq 0 (sp_nrows W))).

(** A sparse matrix in canonical form: in every row the column indices are
    distinct and within the matrix. *)
Definition canonical (W : csr_matrix R) : Prop :=
  Forall (fun r : list (nat * R) =>
            NoDup (map fst r) /\ Forall (fun cx => (fst cx < sp_cols W)%nat) r)
         (sp_rows W).

Lemma vsum_app (l m : list R) : vsum (l ++ m) = vsum l + vsum m.
Proof.
  induction l as [|x l IH]; cbn [app].
  - rewrite vsum_nil. ring.
  - rewrite !vsum_cons, IH. ring.
Qed.

Lemma vsum_concat (L : list (list R)) : vsum (concat L) = vsum (map vsum L).
Proof.
  induction L as [|l L IH]; cbn [concat map]; auto.
  rewrite vsum_app, vsum_cons, IH. reflexivity.
Qed.

Lemma vsum_map_ext (A : Type) (f g : A -> R) (l : list A) :
  (forall a, In a l -> f a = g a) -> vsum (map f l) = vsum (map g l).
Proof. intros H. f_equal. apply map_ext_in. exact H. Qed.

Lemma vsum_map_scale (c : R) (l : list R) :
  vsum (map (fun x => x * c) l) = vsum l * c.
Proof.
  induction l as [|x l IH]; cbn [map].
  - rewrite vsum_nil. ring.
  - rewrite !vsum_cons, IH. ring.
Qed.

(** Picking out one index of a sum. *)
Lemma vsum_pick (a b : nat -> R) (c T : nat) :
  (c < T)%nat ->
  vsum (map (fun t => if Nat.eqb c t then a t else b t) (seq 0 T))
  = a c - b c + vsum (map b (seq 0 T)).
Proof.
  induction T as [|T IH]; intros Hc; [lia|].
  rewrite seq_S, !map_app, !vsum_app. cbn [map Nat.add].
  rewrite !vsum_cons, !vsum_nil.
  destruct (Nat.eqb_spec c T) as [->|Hne].
  - assert (E : vsum (map (fun t => if Nat.eqb T t then a t else b t) (seq 0 T))
                = vsum (map b (seq 0 T))).
    { apply vsum_map_ext. intros t Ht. apply in_seq in Ht.
      destruct (Nat.eqb_spec T t); [lia | reflexivity]. }
    rewrite E. ring.
  - rewrite IH by lia. ring.
Qed.

Lemma sp_get_absent (r : list (nat * R)) (c : nat) :
  ~ In c (map fst r) -> sp_get r c = 0.
Proof.
  induction r as [|[c' x] r IH]; cbn [sp_get map fst]; intros Hc; auto.
  destruct (Nat.eqb_spec c' c) as [->|_].
  - exfalso. apply Hc. left. reflexivity.
  - apply IH. intros Hin. apply Hc. right. exact Hin.
Qed.

(** The stored entries of a canonical row, weighted by [L], add up to the
    dense sum over all columns. *)
Lemma sparse_row_sum (L : nat -> R) (T : nat) (r : list (nat * R)) :
  NoDup (map fst r) -> Forall (fun cx => (fst cx < T)%nat) r ->
  vsum (map (fun cx => snd cx * L (fst cx)) r)
  = vsum (map (fun t => sp_get r t * L t) (seq 0 T)).
Proof.
  induction r as [|[c x] r IH]; cbn [map fst snd]; intros Hnd Hlt.
  - rewrite vsum_nil. cbn [sp_get].
    induction (seq 0 T) as [|t l IHl]; cbn [map]; [reflexivity|].
    rewrite vsum_cons, <- IHl. cbn. ring.
  - inversion Hnd as [|? ? Hnotin Hnd']; subst.
    inversion Hlt as [|? ? Hc Hlt']; subst. cbn [fst] in Hc.
    rewrite vsum_cons, (IH Hnd' Hlt'). cbn [sp_get].
    transitivity
      (vsum (map (fun t => if Nat.eqb c t then x * L t else sp_get r t * L t)
               (seq 0 T))).
    + rewrite vsum_pick by exact Hc.
      rewrite (sp_get_absent _ _ Hnotin). ring.
    + apply vsum_map_ext. intros t _. destruct (Nat.eqb c t); reflexivity.
Qed.

Lemma zipWith_map_same (A B C : Type) (f : A -> B -> C) (g : A -> B) (l : list A) :
  zipWith f l (map g l) = map (fun a => f a (g a)) l.
Proof. induction l as [|a l IH]; cbn; [reflexivity | rewrite IH; reflexivity]. Qed.

Lemma zipWith_seq (A B C : Type) (f : A -> B -> C) (l : list A) (m : list B)
    (da : A) (db : B) :
  length l = length m ->
  zipWith f l m = map (fun i => f (nth i l da) (nth i m db)) (seq 0 (length l)).
Proof.
  intros Hlen.
  apply nth_ext with (d := f da db) (d' := f da db).
  - rewrite length_zipWith, length_map, length_seq. lia.
  - intros i Hi. rewrite length_zipWith in Hi.
    rewrite (nth_zipWith f l m da db) by lia.
    rewrite nth_map_seq by lia. reflexivity.
Qed.

(** Shifting a row by any number before exponentiation does not change its
    softmax. *)
Lemma softmax_shift (m : R) (row : list R) :
  let e := map nexp (map (fun y => nsub y m) row) in
  map (fun x => ndiv x (vsum e)) e = softmax row.
Proof.
  cbn zeta. unfold softmax. rewrite !map_map. cbn [nexp nsub ndiv RNum].
  destruct row as [|x0 row]; [reflexivity|].
  set (l := x0 :: row).
  assert (Hs : vsum (map (fun y => exp (y - m)) l) = vsum (map exp l) * exp (- m)).
  { rewrite <- vsum_map_scale, map_map. apply vsum_map_ext.
    intros y _. unfold Rminus. apply exp_plus. }
  assert (Hpos : 0 < vsum (map exp l)).
  { apply vsum_pos; [discriminate|]. apply Forall_map, Forall_forall.
    intros y _. apply exp_pos. }
  apply map_ext. intros y. rewrite Hs.
  unfold Rminus. rewrite exp_plus.
  pose proof (exp_pos (- m)). field. split; lra.
Qed.

(** The shifted softmax of the code is the softmax of the specification. *)
Lemma rowwise_softmax_softmax (M : list (list R)) :
  rowwise_softmax M = map softmax M.
Proof.
  unfold rowwise_softmax, normalizerows_ip, exp_shifted, mat_map,
    col_bcast_r, max_axis1.
  rewrite zipWith_map_same, !map_map. apply map_ext. intros row.
  apply (softmax_shift (vmax row) row).
Qed.

Lemma softmax_positive (row : list R) : Forall (fun x => 0 < x) (softmax row).
Proof.
  unfold softmax. destruct row as [|x0 row]; [constructor|].
  set (l := x0 :: row).
  assert (Hpos : 0 < vsum (map exp l)).
  { apply vsum_pos; [discriminate|]. apply Forall_map, Forall_forall.
    intros y _. apply exp_pos. }
  apply Forall_map, Forall_forall. intros y _.
  apply Rdiv_lt_0_compat; [apply exp_pos | exact Hpos].
Qed.

Lemma dot_positive (u v : list R) :
  u <> nil -> v <> nil ->
  Forall (fun x => 0 < x) u -> Forall (fun x => 0 < x) v -> 0 < dot u v.
Proof.
  intros Hu Hv Pu Pv. unfold dot. apply vsum_pos.
  - destruct u; [contradiction|]. destruct v; [contradiction|]. discriminate.
  - eapply Forall_zipWith; [|exact Pu|exact Pv].
    intros a b Ha Hb. cbn in *. apply Rmult_lt_0_compat; assumption.
Qed.

Lemma column_positive (V : list (list R)) (t : nat) :
  Forall (fun r => (t < length r)%nat /\ Forall (fun x => 0 < x) r) V ->
  Forall (fun x => 0 < x) (column V t).
Proof.
  intros HV. unfold column. apply Forall_map.
  eapply Forall_impl; [|exact HV]. intros r [Ht Hr].
  apply nth_Forall; assumption.
Qed.
End LogLikelihood.

(** X19.  The log-likelihood of [ctm.py] (and of [ctm_bohning_fast.py], whose
    function has the same text) is the sum of the specification: over the
    non-zero entries of [words], [words[d,t] * ln(softmax(means[d,:]) .
    vocab[:,t])], as a dense evaluation restricted to those entries gives
    it.  The document-term matrix is in canonical form, there is a row of
    means for every document, and the vocabulary is positive, so that the
    safe logarithm is the logarithm. *)
Lemma log_likelihood_is_sparse_sum
    (ext : Externals R) (data : DataSet R) (modelState : Ctm.ModelState R)
    (queryState : Ctm.QueryState R) :
  (forall x, (0 < x)%R -> safe_log ext x = ln x) ->
  canonical (words data) ->
  length (Ctm.means queryState) = sp_nrows (words data) ->
  Forall (fun r => r <> nil) (Ctm.means queryState) ->
  Ctm.vocab modelState <> nil ->
  Forall (fun r => (sp_cols (words data) <= length r)%nat
                   /\ Forall (fun x => 0 < x)%R r) (Ctm.vocab modelState) ->
  Ctm.log_likelihood ext data modelState queryState
  = dense_log_likelihood (words data) (Ctm.means queryState)
      (Ctm.vocab modelState).
Proof.
  intros Hlog Hcan Hrows Hne Hvne Hv.
  unfold Ctm.log_likelihood, sp_data, sparseScalarProductOfSafeLnDot.
  cbn [sp_rows]. rewrite rowwise_softmax_softmax, vsum_concat, map_map.
  unfold sp_nrows in Hrows.
  rewrite (zipWith_seq _ _ _ nil nil) by (rewrite length_map; lia).
  rewrite !map_map. unfold dense_log_likelihood, sp_nrows.
  apply vsum_map_ext. intros d Hd. apply in_seq in Hd.
  change (@nil R) with (softmax nil) at 1. rewrite map_nth.
  rewrite map_map. cbn [snd fst].
  set (r := nth d (sp_rows (words data)) nil).
  set (m := nth d (Ctm.means queryState) nil).
  assert (Hr : NoDup (map fst r)
               /\ Forall (fun cx => (fst cx < sp_cols (words data))%nat) r).
  { unfold canonical in Hcan. rewrite Forall_forall in Hcan.
    apply Hcan, nth_In. lia. }
  destruct Hr as [Hnd Hlt].
  assert (Hm : m <> nil).
  { rewrite Forall_forall in Hne. apply Hne, nth_In. lia. }
  assert (Hdot : forall t, (t < sp_cols (words data))%nat ->
            (0 < dot (softmax m) (column (Ctm.vocab modelState) t))%R).
  { intros t Ht. apply dot_positive.
    - unfold softmax. destruct m; [contradiction | discriminate].
    - unfold column. destruct (Ctm.vocab modelState); [contradiction | discriminate].
    - apply softmax_positive.
    - apply column_positive. eapply Forall_impl; [|exact Hv].
      intros row [Hlen Hpos]. split; [lia | exact Hpos]. }
  transitivity
    (vsum (map (fun cx : nat * R =>
                  (snd cx * ln (dot (softmax m)
                                  (column (Ctm.vocab modelState) (fst cx))))%R) r)).
  - apply vsum_map_ext. intros cx Hcx. cbn [nmul RNum].
    rewrite Hlog; [reflexivity|]. apply Hdot.
    rewrite Forall_forall in Hlt. apply Hlt, Hcx.
  - rewrite (sparse_row_sum
               (fun t => ln (dot (softmax m) (column (Ctm.vocab modelState) t)))
               Hnd Hlt).
    apply vsum_map_ext. intros t _. unfold dense_words. fold r.
    destruct (Req_dec_T (sp_get r t) 0) as [E|_]; [rewrite E; ring | reflexivity].
Qed.

Lemma tiny_words_canonical : canonical tiny_words.
Proof.
  repeat constructor; cbn; try lia; tauto.
Qed.

Lemma log_likelihood_is_sparse_sum_witness :
  Ctm.log_likelihood ref_ext tiny_data tiny_model tiny_query
  = dense_log_likelihood (words tiny_data) (Ctm.means tiny_query)
      (Ctm.vocab tiny_model).
Proof.
  apply (@log_likelihood_is_sparse_sum ref_ext tiny_data tiny_model tiny_query).
  - intros x _. reflexivity.
  - exact tiny_words_canonical.
  - reflexivity.
  - repeat constructor; discriminate.
  - discriminate.
  - repeat constructor; cbn; try lia; lra.
Defined.

(** A model and a query state of the older Bohning variant: the small
    problem, with both means equal to one. *)
Definition old_model : CtmBohningOld.ModelState R :=
  {| CtmBohningOld.K := 2; CtmBohningOld.topicMean := [0%R; 0%R];
     CtmBohningOld.sigT := np_diag [1%R; 1%R];
     CtmBohningOld.vocab := [[1%R]; [1%R]];
     CtmBohningOld.A := [[(1 / 2)%R; (- 1 / 2)%R]; [(- 1 / 2)%R; (1 / 2)%R]];
     CtmBohningOld.dtype := Float64 |}.

Definition old_query : CtmBohningOld.QueryState R :=
  {| CtmBohningOld.means := [[1%R; 1%R]]; CtmBohningOld.varcs := [[1%R; 1%R]];
     CtmBohningOld.docLens := [3%R] |}.

(** C1.  The [log_likelihood] of [src/model/ctm_bohning.py] hands
    [queryState.means] to [sparseScalarProductOfSafeLnDot] as they are, with
    no [rowwise_softmax] around them.  For one document that holds its only
    term three times, means 1, 1 and the vocabulary 1, 1 it returns
    [3 * ln 2], where the sum of the specification, with the softmax of the
    means, is 0. *)
Theorem old_log_likelihood_skips_softmax :
  CtmBohningOld.log_likelihood ref_ext tiny_words old_model old_query
    = (3 * ln 2)%R /\
  dense_log_likelihood tiny_words (CtmBohningOld.means old_query)
    (CtmBohningOld.vocab old_model) = 0%R /\
  (3 * ln 2)%R <> 0%R.
Proof.
  split; [|split].
  - cbn. replace (1 * 1 + (1 * 1 + 0))%R with 2%R by ring. ring.
  - unfold dense_log_likelihood. cbn.
    destruct (Req_dec_T 3 0) as [E|_]; [lra|].
    pose proof (exp_pos 1) as He.
    replace (exp 1 / (exp 1 + (exp 1 + 0)) * 1
             + (exp 1 / (exp 1 + (exp 1 + 0)) * 1 + 0))%R with 1%R
      by (field; lra).
    rewrite ln_1. ring.
  - pose proof ln_lt_2. lra.
Qed.

(** ** Loops that end in [break] *)

Section BreakLoops.
Variable St : Type.
Variable body : nat -> St -> Exec (St + St).

(** An invariant kept by the body, whether it goes on or breaks, holds for
    the state the loop ends in. *)
Lemma for_range_outcome (P : St -> Prop) :
  (forall itr st r, P st -> body itr st = Ok r -> P (outcome r)) ->
  forall count itr st r,
    P st -> for_range body itr count st = Ok r -> P (outcome r).
Proof.
  intros Hstep count.
  induction count as [|c IH]; intros itr st r HP Hrun; cbn [for_range] in Hrun.
  - inversion Hrun; subst. exact HP.
  - destruct (body itr st) as [[st1|st1]|e] eqn:Hb; try discriminate.
    + eapply IH; [|exact Hrun]. apply (Hstep itr st (inl st1) HP Hb).
    + inversion Hrun; subst. apply (Hstep itr st (inr st1) HP Hb).
Qed.

(** A body that never raises gives a loop that never raises. *)
Lemma for_range_ok :
  (forall itr st, exists r, body itr st = Ok r) ->
  forall count itr st, exists r, for_range body itr count st = Ok r.
Proof.
  intros Hstep count.
  induction count as [|c IH]; intros itr st; cbn [for_range].
  - eauto.
  - destruct (Hstep itr st) as [[st1|st1] Hb]; rewrite Hb; eauto.
Qed.

(** The state a loop of at least one iteration ends in was computed by the
    last iteration it ran. *)
Lemma for_range_last (count itr : nat) (st : St) (r : St + St) :
  (0 < count)%nat ->
  for_range body itr count st = Ok r ->
  exists j st1 r',
    (itr <= j < itr + count)%nat /\
    for_range body itr (j - itr) st = Ok (inl st1) /\
    body j st1 = Ok r' /\ outcome r' = outcome r.
Proof.
  revert itr st. induction count as [|c IH]; intros itr st Hc Hrun; [lia|].
  cbn [for_range] in Hrun.
  destruct (body itr st) as [[st1|st1]|e] eqn:Hb; try discriminate.
  - destruct c as [|c].
    + cbn [for_range] in Hrun. inversion Hrun; subst.
      exists itr, st, (inl st1). rewrite Nat.sub_diag. cbn [for_range].
      repeat split; auto; lia.
    + destruct (IH (S itr) st1 ltac:(lia) Hrun) as (j & st2 & r' & Hj & Hpre & Hb' & Ho).
      exists j, st2, r'. repeat split; auto; try lia.
      replace (j - itr)%nat with (S (j - S itr)) by lia.
      cbn [for_range]. rewrite Hb. exact Hpre.
  - inversion Hrun; subst.
    exists itr, st, (inr st1). rewrite Nat.sub_diag. cbn [for_range].
    repeat split; auto; lia.
Qed.
End BreakLoops.

(** ** What [query] returns *)

(** X18.  The [query] of [ctm.py] returns the model state it was given, and
    leaves it as it was; the query state it returns holds the means, variances,
    bound parameters and offsets of the state its loop ended in, which, when
    the plan allows an iteration, the last iteration that ran computed. *)
Lemma query_returns_final_state
    (num : Type) (N : Numeric num) (ext : Externals num)
    (dataset : DataSet num) (modelState : Ctm.ModelState num)
    (queryState : Ctm.QueryState num) (plan : Ctm.TrainPlan num)
    (c : Console num) (o : Ctm.QueryOutput num) :
  Ctm.query ext dataset modelState queryState plan c = Ok o ->
  fst (Ctm.q_returned o) = modelState /\
  Ctm.q_model_after o = modelState /\
  exists isigT st,
    let expMeans := exp_shifted (Ctm.means queryState) in
    let S := Ctm.expected_counts (words dataset) expMeans (Ctm.vocab modelState) in
    let body := Ctm.query_iteration ext dataset modelState queryState plan
                  isigT expMeans S in
    la_inv ext (Ctm.sigT modelState) = Some isigT /\
    snd (Ctm.q_returned o) =
      {| Ctm.means := Ctm.q_means st; Ctm.expMeans := expMeans;
         Ctm.varcs := Ctm.q_varcs st; Ctm.lxi := Ctm.q_lxi st;
         Ctm.s := Ctm.q_s st; Ctm.docLens := Ctm.docLens queryState |} /\
    ((Ctm.iterations plan = 0)%nat ->
       st = Ctm.query_initial modelState queryState c) /\
    ((0 < Ctm.iterations plan)%nat ->
       exists j st1 r,
         (j < Ctm.iterations plan)%nat /\
         for_range body 0 j (Ctm.query_initial modelState queryState c)
           = Ok (inl st1) /\
         body j st1 = Ok r /\ outcome r = st).
Proof.
  unfold Ctm.query. intros H.
  destruct (la_inv ext (Ctm.sigT modelState)) as [isigT|] eqn:Hinv; [|discriminate].
  bind_ok H.
  assert (Ho : o = Ctm.query_output modelState queryState
                     (exp_shifted (Ctm.means queryState)) (outcome a)).
  { destruct a; inversion H; reflexivity. }
  subst o. cbn [Ctm.query_output Ctm.q_returned Ctm.q_model_after fst snd].
  split; [reflexivity|]. split; [reflexivity|].
  exists isigT, (outcome a). cbn zeta.
  split; [reflexivity|]. split; [reflexivity|]. split.
  - intros Hz. rewrite Hz in E. cbn [for_range] in E. inversion E. reflexivity.
  - intros Hpos.
    destruct (for_range_last _ _ _ Hpos E) as (j & st1 & r' & Hj & Hpre & Hb & Hout).
    exists j, st1, r'. rewrite Nat.sub_0_r in Hpre. repeat split; auto. lia.
Qed.

(** ** The [query] of [ctm_bohning_fast.py] *)

Section BohningQuery.
Context {num : Type} {N : Numeric num}.
Variable ext : Externals num.
Variable dbg :
  nat -> list num -> string -> csr_matrix num -> CtmBohningFast.ModelState num ->
  list (list num) -> list (list num) -> list num ->
  Console num -> Exec (Console num).
Variable data : DataSet num.
Variable modelState : CtmBohningFast.ModelState num.
Variable queryState : CtmBohningFast.QueryState num.
Variable plan : Ctm.TrainPlan num.
Variables isigT varcs : list (list num).

Local Abbreviation body :=
  (CtmBohningFast.query_iteration ext dbg data modelState queryState plan
     isigT varcs).

(** In the diagonal mode the first pass overwrites the caller's [means]
    array with the softmax of the means, and the assignment
    [means = varcs * rhs] then binds [means] to a new array: the caller's
    array is not written again. *)
Lemma bohning_iteration_alias (itr : nat) (st : CtmBohningFast.QuerySt num)
    (r : CtmBohningFast.QuerySt num + CtmBohningFast.QuerySt num) :
  Ctm.fastButInaccurate plan = true ->
  body itr st = Ok r ->
  CtmBohningFast.q_aliased (outcome r) = false /\
  CtmBohningFast.q_arg_means (outcome r) =
    (if CtmBohningFast.q_aliased st
     then rowwise_softmax (CtmBohningFast.q_means st)
     else CtmBohningFast.q_arg_means st).
Proof.
  unfold CtmBohningFast.query_iteration. intros Hf H. rewrite Hf in H.
  cbn [bind fst snd] in H. bind_ok H.
  match type of H with
  | (if ?b then _ else _) = _ => destruct b
  end; inversion H; subst; cbn; split; reflexivity.
Qed.

Lemma bohning_stale_means (count : nat) (st0 : CtmBohningFast.QuerySt num)
    (r : CtmBohningFast.QuerySt num + CtmBohningFast.QuerySt num) :
  Ctm.fastButInaccurate plan = true ->
  CtmBohningFast.q_aliased st0 = true ->
  for_range body 0 (S count) st0 = Ok r ->
  CtmBohningFast.q_arg_means (outcome r)
  = rowwise_softmax (CtmBohningFast.q_means st0).
Proof.
  intros Hf Ha Hrun. cbn [for_range] in Hrun.
  set (X := rowwise_softmax (CtmBohningFast.q_means st0)).
  destruct (body 0 st0) as [[st1|st1]|e] eqn:Hb; try discriminate.
  - destruct (bohning_iteration_alias _ _ Hf Hb) as [H1 H2].
    rewrite Ha in H2. cbn [outcome] in H1, H2.
    apply (for_range_outcome body
             (fun s => CtmBohningFast.q_aliased s = false
                       /\ CtmBohningFast.q_arg_means s = X)) in Hrun.
    + apply Hrun.
    + intros itr st r0 [Pa Pm] Hb0.
      destruct (bohning_iteration_alias _ _ Hf Hb0) as [Q1 Q2].
      rewrite Pa in Q2. split; [exact Q1 | rewrite Q2; exact Pm].
    + split; assumption.
  - inversion Hrun; subst.
    destruct (bohning_iteration_alias _ _ Hf Hb) as [_ H2].
    rewrite Ha in H2. exact H2.
Qed.

Lemma bohning_iteration_ok (itr : nat) (st : CtmBohningFast.QuerySt num) :
  Ctm.debug plan = false -> Ctm.fastButInaccurate plan = true ->
  exists r, body itr st = Ok r.
Proof.
  intros Hd Hf. unfold CtmBohningFast.query_iteration, CtmBohningFast.debugFn.
  rewrite Hf, Hd. cbn [bind fst snd].
  match goal with
  | |- exists r, (if ?b then _ else _) = _ => destruct b
  end; eauto.
Qed.
End BohningQuery.

Definition no_debug :
  nat -> list R -> string -> csr_matrix R -> CtmBohningFast.ModelState R ->
  list (list R) -> list (list R) -> list R -> Console R -> Exec (Console R) :=
  fun _ _ _ _ _ _ _ _ c => Ok c.

(** The small problem for the Bohning model: [A = 0.5 * (eye(K) - 1/(K+1))]. *)
Definition bohning_model : CtmBohningFast.ModelState R :=
  {| CtmBohningFast.K := 2; CtmBohningFast.topicMean := [0%R; 0%R];
     CtmBohningFast.sigT := np_diag [1%R; 1%R];
     CtmBohningFast.vocab := [[1%R]; [1%R]];
     CtmBohningFast.vocabPrior := (11 / 10)%R;
     CtmBohningFast.A := [[(1 / 3)%R; (- 1 / 6)%R]; [(- 1 / 6)%R; (1 / 3)%R]];
     CtmBohningFast.dtype := Float64;
     CtmBohningFast.name := "ctm/bohning" |}.

Definition bohning_query : CtmBohningFast.QueryState R :=
  {| CtmBohningFast.means := [[0%R; 0%R]];
     CtmBohningFast.expMeans := [[5%R; 5%R]];
     CtmBohningFast.varcs := [[1%R; 1%R]];
     CtmBohningFast.docLens := [3%R] |}.

Definition bohning_plan : Ctm.TrainPlan R :=
  {| Ctm.iterations := 2; Ctm.epsilon := 2%R; Ctm.logFrequency := 10;
     Ctm.fastButInaccurate := true; Ctm.debug := false |}.

Lemma softmax_zero_zero : rowwise_softmax [[0%R; 0%R]] = [[(1 / 2)%R; (1 / 2)%R]].
Proof.
  rewrite rowwise_softmax_softmax. cbn. rewrite exp_0.
  replace (1 / (1 + (1 + 0)))%R with (1 / 2)%R by field. reflexivity.
Qed.

(** C5.  The [query] of [ctm_bohning_fast.py] ends in
    [return modelState, queryState]: it returns the query state it was
    given.  The variances it computed on line 346 are in a local variable
    only, so the returned [varcs] are the input's; and in the diagonal mode
    the returned [means] are the softmax of the input means, which line 359
    wrote into the caller's array in the first pass, not the means of the
    last iteration.  On the small problem the computed variances are 2/5
    and the returned ones 1; the returned means are 1/2, 1/2. *)
Theorem bohning_query_returns_stale_state :
  (forall (num : Type) (N : Numeric num) (ext : Externals num) dbg
          (data : DataSet num) (modelState : CtmBohningFast.ModelState num)
          (queryState : CtmBohningFast.QueryState num)
          (plan : Ctm.TrainPlan num) (c : Console num),
     match CtmBohningFast.query ext dbg data modelState queryState plan c with
     | Ok o =>
         fst (CtmBohningFast.q_returned o) = modelState /\
         CtmBohningFast.varcs (snd (CtmBohningFast.q_returned o))
           = CtmBohningFast.varcs queryState /\
         (Ctm.fastButInaccurate plan = true -> (0 < Ctm.iterations plan)%nat ->
          CtmBohningFast.means (snd (CtmBohningFast.q_returned o))
            = rowwise_softmax (CtmBohningFast.means queryState))
     | Raise _ => True
     end) /\
  (exists o isigT,
     la_inv ref_ext (CtmBohningFast.sigT bohning_model) = Some isigT /\
     CtmBohningFast.query ref_ext no_debug tiny_data bohning_model
       bohning_query bohning_plan console0 = Ok o /\
     CtmBohningFast.query_varcs bohning_model bohning_query isigT
       = [[(2 / 5)%R; (2 / 5)%R]] /\
     CtmBohningFast.varcs (snd (CtmBohningFast.q_returned o))
       = [[1%R; 1%R]] /\
     CtmBohningFast.means (snd (CtmBohningFast.q_returned o))
       = [[(1 / 2)%R; (1 / 2)%R]]).
Proof.
  assert (General : forall (num : Type) (N : Numeric num) (ext : Externals num) dbg
          (data : DataSet num) (modelState : CtmBohningFast.ModelState num)
          (queryState : CtmBohningFast.QueryState num)
          (plan : Ctm.TrainPlan num) (c : Console num),
     match CtmBohningFast.query ext dbg data modelState queryState plan c with
     | Ok o =>
         fst (CtmBohningFast.q_returned o) = modelState /\
         CtmBohningFast.varcs (snd (CtmBohningFast.q_returned o))
           = CtmBohningFast.varcs queryState /\
         (Ctm.fastButInaccurate plan = true -> (0 < Ctm.iterations plan)%nat ->
          CtmBohningFast.means (snd (CtmBohningFast.q_returned o))
            = rowwise_softmax (CtmBohningFast.means queryState))
     | Raise _ => True
     end).
  { intros num N ext dbg data modelState queryState plan c.
    destruct (CtmBohningFast.query ext dbg data modelState queryState plan c)
      as [o|e] eqn:H; [|exact I].
    unfold CtmBohningFast.query in H.
    destruct (la_inv ext (CtmBohningFast.sigT modelState)) as [isigT|]; [|discriminate].
    do 2 bind_ok H.
    assert (Ho : o = CtmBohningFast.query_output modelState queryState (outcome a0)).
    { destruct a0; inversion H; reflexivity. }
    subst o. cbn [CtmBohningFast.query_output CtmBohningFast.q_returned fst snd
                  CtmBohningFast.varcs CtmBohningFast.means].
    split; [reflexivity|]. split; [reflexivity|].
    intros Hf Hpos. destruct (Ctm.iterations plan) as [|k]; [lia|].
    eapply bohning_stale_means in E0; [exact E0 | exact Hf | reflexivity]. }
  split; [exact General|].
  assert (Hinv : la_inv ref_ext (CtmBohningFast.sigT bohning_model)
                 = Some (np_diag [(1 / 1)%R; (1 / 1)%R])).
  { cbn [la_inv ref_ext CtmBohningFast.sigT bohning_model].
    rewrite diag_inv_np_diag; [reflexivity|]. repeat constructor; lra. }
  assert (Hrun : exists o, CtmBohningFast.query ref_ext no_debug tiny_data
                   bohning_model bohning_query bohning_plan console0 = Ok o).
  { unfold CtmBohningFast.query. rewrite Hinv.
    unfold CtmBohningFast.debugFn at 1. cbn [Ctm.debug bohning_plan bind].
    match goal with
    | |- exists o, bind (for_range ?b ?i ?n ?s) _ = _ =>
        destruct (for_range_ok b
                    (fun itr st => bohning_iteration_ok ref_ext no_debug tiny_data
                                     bohning_model bohning_query bohning_plan
                                     _ _ itr st eq_refl eq_refl) n i s)
          as [r Hr]; rewrite Hr
    end.
    cbn [bind]. destruct r; eauto. }
  destruct Hrun as [o Ho].
  exists o, (np_diag [(1 / 1)%R; (1 / 1)%R]).
  pose proof (General R RNum ref_ext no_debug tiny_data bohning_model
                bohning_query bohning_plan console0) as G.
  rewrite Ho in G. destruct G as (_ & Gv & Gm).
  split; [exact Hinv|]. split; [exact Ho|]. split; [|split].
  - unfold CtmBohningFast.query_varcs. rewrite diagonal_np_diag. cbn.
    replace (1 / (3 * (2 - 1) / 2 + 1 / 1))%R with (2 / 5)%R by field.
    reflexivity.
  - rewrite Gv. reflexivity.
  - rewrite Gm by (cbn; auto; lia). apply softmax_zero_zero.
Qed.

(** ** One training iteration on the small problem *)

(** Splits a [Forall] over an explicit list into its entries. *)
Ltac each_entry := repeat first [apply Forall_nil | apply Forall_cons].

Section TinyIteration.
Local Open Scope R_scope.

Lemma tiny_exp_shape (a b : R) :
  exists e1 e2, exp_shifted [[a; b]] = [[e1; e2]] /\ 0 < e1 /\ 0 < e2.
Proof.
  eexists _, _. split; [reflexivity|]. split; apply exp_pos.
Qed.

Lemma tiny_vocab_step (e1 e2 x y : R) :
  0 < e1 -> 0 < e2 -> 0 <= x -> 0 <= y ->
  Ctm.update_vocab tiny_words [[e1; e2]] [[x]; [y]] (11 / 10) = [[1]; [1]].
Proof.
  intros He1 He2 Hx Hy.
  assert (Hpos : positive_rows
            (Ctm.update_vocab tiny_words [[e1; e2]] [[x]; [y]] (11 / 10))).
  { apply update_vocab_positive.
    - exact tiny_words_nonneg.
    - cbn; lia.
    - each_entry; lra.
    - each_entry; lra.
    - each_entry; discriminate.
    - lra. }
  assert (Hshape : exists q1 q2,
            Ctm.update_vocab tiny_words [[e1; e2]] [[x]; [y]] (11 / 10)
            = [[q1]; [q2]]).
  { eexists _, _. reflexivity. }
  destruct Hshape as (q1 & q2 & E). rewrite E in *.
  inversion Hpos as [|r1 t1 [H1 _] Hrest]; subst.
  inversion Hrest as [|r2 t2 [H2 _] _]; subst.
  rewrite vsum_cons, vsum_nil in H1, H2.
  replace q1 with 1 by lra. replace q2 with 1 by lra. reflexivity.
Qed.

Lemma tiny_sigT_step (a b v1 v2 : R) :
  0 <= v1 -> 0 <= v2 ->
  exists d1 d2,
    diagonal (Ctm.update_sigT ref_ext Float64 1 2 4 [[a; b]] [[v1; v2]]
                (Ctm.update_topicMean 1 4 [[a; b]])) = [d1; d2]
    /\ 0 < d1 /\ 0 < d2.
Proof.
  intros Hv1 Hv2.
  assert (Hpos : Forall (fun x => 0 < x)
            (diagonal (Ctm.update_sigT ref_ext Float64 1 2 4 [[a; b]] [[v1; v2]]
                         (Ctm.update_topicMean 1 4 [[a; b]])))).
  { apply sigT_diagonal_positive.
    - exact ref_oas_ok.
    - each_entry; lra.
    - cbn; lia. }
  assert (Hshape : exists d1 d2,
            diagonal (Ctm.update_sigT ref_ext Float64 1 2 4 [[a; b]] [[v1; v2]]
                        (Ctm.update_topicMean 1 4 [[a; b]])) = [d1; d2]).
  { eexists _, _. reflexivity. }
  destruct Hshape as (d1 & d2 & E). rewrite E in Hpos.
  exists d1, d2. split; [exact E|].
  inversion Hpos as [|? ? H1 Hrest]; subst.
  inversion Hrest as [|? ? H2 _]; subst. auto.
Qed.

Lemma tiny_varcs_step (l1 l2 d1 d2 : R) :
  0 <= l1 -> 0 <= l2 -> 0 < d1 -> 0 < d2 ->
  exists w1 w2,
    Ctm.update_varcs [3] [[l1; l2]] (np_diag (map (ndiv one) [d1; d2]))
    = [[w1; w2]] /\ 0 < w1 /\ 0 < w2.
Proof.
  intros Hl1 Hl2 Hd1 Hd2.
  assert (Hpos : allM (fun x => 0 < x)
            (Ctm.update_varcs [3] [[l1; l2]] (np_diag (map (ndiv one) [d1; d2])))).
  { apply update_varcs_positive.
    - each_entry; lra.
    - each_entry; lra.
    - rewrite diagonal_np_diag. apply reciprocal_positive.
      each_entry; assumption. }
  assert (Hshape : exists w1 w2,
            Ctm.update_varcs [3] [[l1; l2]] (np_diag (map (ndiv one) [d1; d2]))
            = [[w1; w2]]).
  { eexists _, _. reflexivity. }
  destruct Hshape as (w1 & w2 & E). rewrite E in Hpos.
  exists w1, w2. split; [exact E|].
  inversion Hpos as [|? ? Hrow _]; subst.
  inversion Hrow as [|? ? H1 Hrest]; subst.
  inversion Hrest as [|? ? H2 _]; subst. auto.
Qed.

Lemma tiny_means_step (w1 w2 l1 l2 e1 e2 d1 d2 a b : R) :
  exists m1 m2,
    Ctm.update_means [[w1; w2]]
      (Ctm.rhs_matrix [0] [3] [[l1; l2]]
         (Ctm.expected_counts tiny_words [[e1; e2]] [[1]; [1]])
         (np_diag (map (ndiv one) [d1; d2]))
         (Ctm.update_topicMean 1 4 [[a; b]]))
    = [[m1; m2]].
Proof. eexists _, _. reflexivity. Qed.

Lemma tiny_lxi_step (m1 m2 w1 w2 : R) :
  0 < w1 -> 0 < w2 ->
  exists l1 l2,
    mat_map (nmul two)
      (mat_map Ctm.negJakkola1 (Ctm._deriveXi [[m1; m2]] [[w1; w2]] [0]))
    = [[l1; l2]] /\ 0 < l1 /\ 0 < l2.
Proof.
  intros Hw1 Hw2.
  assert (Hpos : allM (fun x => 0 < x)
            (mat_map (nmul two)
               (mat_map Ctm.negJakkola1 (Ctm._deriveXi [[m1; m2]] [[w1; w2]] [0])))).
  { apply update_lxi_positive. each_entry; assumption. }
  assert (Hshape : exists l1 l2,
            mat_map (nmul two)
              (mat_map Ctm.negJakkola1 (Ctm._deriveXi [[m1; m2]] [[w1; w2]] [0]))
            = [[l1; l2]]).
  { eexists _, _. reflexivity. }
  destruct Hshape as (l1 & l2 & E). rewrite E in Hpos.
  exists l1, l2. split; [exact E|].
  inversion Hpos as [|? ? Hrow _]; subst.
  inversion Hrow as [|? ? H1 Hrest]; subst.
  inversion Hrest as [|? ? H2 _]; subst. auto.
Qed.

(** The arrays of the small problem at the head of an iteration: one row of
    two means, non-negative variances and bound parameters, offsets zero,
    and a non-negative vocabulary of one term per topic. *)
Definition tiny_arrays (st : Ctm.TrainSt R) : Prop :=
  (exists a b, Ctm.t_means st = [[a; b]]) /\
  (exists v1 v2, Ctm.t_varcs st = [[v1; v2]] /\ 0 <= v1 /\ 0 <= v2) /\
  (exists l1 l2, Ctm.t_lxi st = [[l1; l2]] /\ 0 <= l1 /\ 0 <= l2) /\
  Ctm.t_s st = [0] /\
  (exists x y, Ctm.t_vocab st = [[x]; [y]] /\ 0 <= x /\ 0 <= y).

(** After the updates of an iteration, moreover, the vocabulary is 1, 1 and
    the covariance is diagonal with a positive diagonal. *)
Definition tiny_ready (st : Ctm.TrainSt R) : Prop :=
  tiny_arrays st /\
  Ctm.t_vocab st = [[1]; [1]] /\
  (exists d1 d2, Ctm.t_sigT st = np_diag [d1; d2] /\ 0 < d1 /\ 0 < d2).

Lemma tiny_next (st : Ctm.TrainSt R) :
  tiny_arrays st ->
  tiny_ready (next_state ref_ext tiny_data tiny_model tiny_query st).
Proof.
  intros ((a & b & Em) & (v1 & v2 & Ev & Hv1 & Hv2)
          & (l1 & l2 & El & Hl1 & Hl2) & Es & (x & y & Ex & Hx & Hy)).
  destruct (tiny_exp_shape a b) as (e1 & e2 & Ee & He1 & He2).
  destruct (tiny_sigT_step a b Hv1 Hv2) as (d1 & d2 & Ed & Hd1 & Hd2).
  destruct (tiny_varcs_step Hl1 Hl2 Hd1 Hd2) as (w1 & w2 & Ew & Hw1 & Hw2).
  destruct (tiny_means_step w1 w2 l1 l2 e1 e2 d1 d2 a b) as (m1 & m2 & Emm).
  destruct (tiny_lxi_step m1 m2 Hw1 Hw2) as (k1 & k2 & Ek & Hk1 & Hk2).
  unfold tiny_ready, tiny_arrays, next_state.
  cbn [Ctm.t_means Ctm.t_varcs Ctm.t_lxi Ctm.t_s Ctm.t_vocab Ctm.t_sigT].
  cbn [words tiny_data Ctm.dtype Ctm.K Ctm.vocabPrior Ctm.docLens tiny_model
       tiny_query sp_nrows sp_rows tiny_words length Nat.add].
  rewrite Em, Ev, El, Es, Ex, Ee, Ed, (tiny_vocab_step He1 He2 Hx Hy), Ew, Emm, Ek.
  repeat split.
  - exists m1, m2. reflexivity.
  - exists w1, w2. repeat split; auto; lra.
  - exists k1, k2. repeat split; auto; lra.
  - exists 1, 1. repeat split; auto; lra.
  - exists d1, d2. repeat split; auto.
Qed.

Lemma tiny_ready_arrays (a b : Ctm.TrainSt R) :
  same_arrays a b -> tiny_ready b -> tiny_ready a.
Proof.
  intros (_ & Esig & _ & Ev & Em & Evar & El & Es) H.
  unfold tiny_ready, tiny_arrays in *.
  rewrite Esig, Ev, Em, Evar, El, Es. exact H.
Qed.
End TinyIteration.

(** ** The logging checkpoint *)

(** The list [l] with [v] at index [i]. *)
Fixpoint put {A : Type} (l : list A) (i : nat) (v : A) : list A :=
  match l, i with
  | nil, _ => nil
  | _ :: l', O => v :: l'
  | x :: l', S i' => x :: put l' i' v
  end.

Lemma store_put (A : Type) (l : list A) (i : nat) (v : A) :
  (i < length l)%nat -> store l i v = Ok (put l i v).
Proof.
  revert i. induction l as [|x l IH]; intros [|i] Hi; cbn in *; try lia; auto.
  rewrite IH by lia. reflexivity.
Qed.

Lemma store_range (A : Type) (l l' : list A) (i : nat) (v : A) :
  store l i v = Ok l' -> (i < length l)%nat.
Proof.
  revert i l'. induction l as [|x l IH]; intros [|i] l' H; cbn in *;
    try discriminate; try lia.
  destruct (store l i v) eqn:E; [|discriminate].
  apply IH in E. lia.
Qed.

Lemma length_put (A : Type) (l : list A) (i : nat) (v : A) :
  length (put l i v) = length l.
Proof.
  revert i. induction l as [|x l IH]; intros [|i]; cbn; auto.
Qed.

Lemma nth_put_same (A : Type) (l : list A) (i : nat) (v d : A) :
  (i < length l)%nat -> nth i (put l i v) d = v.
Proof.
  revert i. induction l as [|x l IH]; intros [|i] Hi; cbn in *; try lia; auto.
  apply IH; lia.
Qed.

Lemma nth_put_other (A : Type) (l : list A) (i j : nat) (v d : A) :
  i <> j -> nth j (put l i v) d = nth j l d.
Proof.
  revert i j. induction l as [|x l IH]; intros [|i] [|j] Hij; cbn; auto; try lia.
Qed.

Section Checkpoint.
Context {num : Type} {N : Numeric num}.
Variable ext : Externals num.
Variable dataset : DataSet num.
Variable modelState : Ctm.ModelState num.
Variable queryState : Ctm.QueryState num.
Variable trainPlan : Ctm.TrainPlan num.

(** Whether the checkpoint of iteration [itr] ends the training: the test of
    lines 300-302, on the state the updates of that iteration have left. *)
Definition stops (itr : nat) (st : Ctm.TrainSt num) : bool :=
  let total := vsum (Ctm.docLens queryState) in
  let like := Ctm.log_likelihood ext dataset
                (Ctm.current_model modelState st)
                (after_var_bound (Ctm.current_query queryState st)) in
  let perp := perplexity_from_like like total in
  let lastPerp := perplexity_from_like
                    (nth (Ctm.t_bvIdx st - 1) (Ctm.t_likelyValues st) zero)
                    total in
  (1 <? Ctm.t_bvIdx st)%nat && (30 <=? itr)%nat && nltb (nsub lastPerp perp) one.

(** A checkpoint whose slot exists and whose bound evaluates: it returns the
    current model and query state when [stops] holds, and otherwise goes on
    with the same arrays and the next slot. *)
Lemma checkpoint_decision (itr : nat) (st : Ctm.TrainSt num)
    (r : num * Ctm.QueryState num) :
  (0 < Ctm.logFrequency trainPlan)%nat ->
  (itr mod Ctm.logFrequency trainPlan = 0)%nat ->
  Ctm.var_bound ext dataset (Ctm.current_model modelState st)
    (Ctm.current_query queryState st) = Ok r ->
  (Ctm.t_bvIdx st < length (Ctm.t_boundValues st))%nat ->
  (Ctm.t_bvIdx st < length (Ctm.t_likelyValues st))%nat ->
  (Ctm.t_bvIdx st < length (Ctm.t_boundIters st))%nat ->
  let b := Ctm.t_bvIdx st in
  let like := Ctm.log_likelihood ext dataset
                (Ctm.current_model modelState st)
                (after_var_bound (Ctm.current_query queryState st)) in
  let bv := put (Ctm.t_boundValues st) b (fst r) in
  let lv := put (Ctm.t_likelyValues st) b like in
  let bi := put (Ctm.t_boundIters st) b itr in
  exists c,
    Ctm.checkpoint ext dataset modelState queryState trainPlan itr st =
    if stops itr st
    then Ok (inr {| Ctm.returned :=
                      (Ctm.current_model modelState st,
                       after_var_bound (Ctm.current_query queryState st),
                       clamp ext bi bv lv b);
                    Ctm.model_after := Ctm.model_arg modelState st;
                    Ctm.query_after := Ctm.query_arg queryState st;
                    Ctm.console_after := c |})
    else Ok (inl (Ctm.with_log st
                    (exp_shifted (Ctm.t_means st)) (b + 1) bi bv lv c)).
Proof.
  intros HL Hmod Hvb Hb1 Hb2 Hb3 b like bv lv bi.
  unfold Ctm.checkpoint.
  assert (Hc : ((0 <? Ctm.logFrequency trainPlan)%nat
                && (itr mod Ctm.logFrequency trainPlan =? 0)%nat) = true).
  { apply andb_true_intro. split; [apply Nat.ltb_lt; exact HL|].
    apply Nat.eqb_eq; exact Hmod. }
  rewrite Hc, Hvb. cbn [bind].
  pose proof (var_bound_query _ _ _ _ Hvb) as Hq. rewrite Hq.
  rewrite (store_put _ _ Hb1). cbn [bind].
  rewrite (store_put _ _ Hb2). cbn [bind].
  rewrite (store_put _ _ Hb3). cbn [bind].
  fold b like bv lv bi.
  unfold stops. fold b like.
  assert (Hlv : nth b lv zero = like) by (apply nth_put_same; exact Hb2).
  assert (Hbi : nth b bi 0%nat = itr) by (apply nth_put_same; exact Hb3).
  rewrite Hlv, Hbi.
  destruct (1 <? b)%nat eqn:H1; cbn [andb].
  - assert (Hprev : nth (b - 1) lv zero
                    = nth (b - 1) (Ctm.t_likelyValues st) zero).
    { apply nth_put_other. apply Nat.ltb_lt in H1. lia. }
    rewrite Hprev.
    destruct (30 <=? itr)%nat; cbn [andb].
    + match goal with
      | |- exists c, (if ?t then _ else _) = _ => destruct t
      end; eexists; reflexivity.
    + eexists; reflexivity.
  - eexists; reflexivity.
Qed.
End Checkpoint.

(** ** The slots of the trace *)

Section Bookkeeping.
Context {num : Type} {N : Numeric num}.
Variable ext : Externals num.
Variable dataset : DataSet num.
Variable modelState : Ctm.ModelState num.
Variable queryState : Ctm.QueryState num.
Variable trainPlan : Ctm.TrainPlan num.

Local Abbreviation L := (Ctm.logFrequency trainPlan).
Local Abbreviation slots :=
  (Ctm.iterations trainPlan / Ctm.logFrequency trainPlan)%nat.

(** At the head of iteration [itr] the next free slot [bvIdx] is the one of
    the next logging iteration, and the three trace arrays have the length
    they were allocated with. *)
Definition log_slots (itr : nat) (st : Ctm.TrainSt num) : Prop :=
  (0 < L)%nat /\
  (itr <= Ctm.t_bvIdx st * L < itr + L)%nat /\
  length (Ctm.t_boundIters st) = slots /\
  length (Ctm.t_boundValues st) = slots /\
  length (Ctm.t_likelyValues st) = slots.

Lemma log_slots_initial (c : Console num) (st0 : Ctm.TrainSt num) :
  Ctm.initial_state ext modelState queryState trainPlan c = Ok st0 ->
  log_slots 0 st0.
Proof.
  unfold Ctm.initial_state, log_slots. intros H.
  destruct (Nat.eqb_spec L 0) as [E|E]; [discriminate|].
  destruct (la_inv ext (Ctm.sigT modelState)); [|discriminate].
  inversion H; subst; clear H. cbn.
  rewrite !repeat_length. repeat split; lia.
Qed.

Lemma log_slots_index (itr : nat) (st : Ctm.TrainSt num) :
  log_slots itr st -> (itr mod L = 0)%nat ->
  Ctm.t_bvIdx st = (itr / L)%nat.
Proof.
  intros (HL & Hb & _) Hmod.
  pose proof (Nat.div_mod_eq itr L) as E. rewrite Hmod in E.
  nia.
Qed.

Lemma log_slots_updates (itr : nat) (st st1 : Ctm.TrainSt num) :
  Ctm.updates ext dataset modelState queryState trainPlan itr st = Ok st1 ->
  log_slots itr st -> log_slots itr st1.
Proof.
  intros H. apply updates_next_state in H. rewrite H. exact (fun x => x).
Qed.

Lemma log_slots_checkpoint (itr : nat) (st1 st' : Ctm.TrainSt num) :
  Ctm.checkpoint ext dataset modelState queryState trainPlan itr st1
    = Ok (inl st') ->
  log_slots itr st1 -> log_slots (S itr) st'.
Proof.
  unfold Ctm.checkpoint. intros H (HL & Hb & Hi & Hv & Hl).
  destruct (0 <? L)%nat eqn:EL; cbn [andb] in H.
  - destruct (Nat.eqb_spec (itr mod L) 0) as [Hmod|Hmod].
    + do 4 bind_ok H.
      pose proof (store_range _ _ _ E0) as R1.
      pose proof (store_range _ _ _ E1) as R2.
      pose proof (store_range _ _ _ E2) as R3.
      rewrite (store_put _ _ R1) in E0. rewrite (store_put _ _ R2) in E1.
      rewrite (store_put _ _ R3) in E2.
      inversion E0; inversion E1; inversion E2; subst; clear E0 E1 E2.
      pose proof (Nat.div_mod_eq itr L) as Ed. rewrite Hmod in Ed.
      assert (Hq : Ctm.t_bvIdx st1 = (itr / L)%nat).
      { apply log_slots_index; [|exact Hmod]. unfold log_slots; auto. }
      assert (Hnew : log_slots (S itr)
                (Ctm.with_log st1 (Ctm.t_expMeans st1) (Ctm.t_bvIdx st1 + 1)
                   (put (Ctm.t_boundIters st1) (Ctm.t_bvIdx st1) itr)
                   (put (Ctm.t_boundValues st1) (Ctm.t_bvIdx st1) (fst a))
                   (put (Ctm.t_likelyValues st1) (Ctm.t_bvIdx st1)
                      (Ctm.log_likelihood ext dataset
                         (Ctm.current_model modelState st1) (snd a)))
                   (Ctm.t_console st'))).
      { unfold log_slots. cbn. rewrite !length_put.
        rewrite Hq. repeat split; auto; lia. }
      repeat match type of H with
             | (if ?b then _ else _) = _ => destruct b
             end; inversion H; subst; clear H; exact Hnew.
    + inversion H; subst; clear H. unfold log_slots.
      repeat split; auto; try lia.
      destruct (Nat.eq_dec (Ctm.t_bvIdx st' * L) itr) as [Eq|Ne]; [|lia].
      exfalso. apply Hmod. rewrite <- Eq. apply Nat.Div0.mod_mul.
  - apply Nat.ltb_ge in EL. lia.
Qed.

Lemma log_slots_iteration (itr : nat) (st st' : Ctm.TrainSt num) :
  log_slots itr st ->
  Ctm.iteration ext dataset modelState queryState trainPlan itr st
    = Ok (inl st') ->
  log_slots (S itr) st'.
Proof.
  unfold Ctm.iteration. intros Hs H. bind_ok H.
  eapply log_slots_checkpoint; [exact H|].
  eapply log_slots_updates; eauto.
Qed.

(** The state at the head of iteration [itr]. *)
Lemma log_slots_reached (c : Console num) (st0 st : Ctm.TrainSt num)
    (itr : nat) :
  Ctm.initial_state ext modelState queryState trainPlan c = Ok st0 ->
  for_range (Ctm.iteration ext dataset modelState queryState trainPlan)
    0 itr st0 = Ok (inl st) ->
  log_slots itr st.
Proof.
  intros H0 Hrun. apply log_slots_initial in H0.
  change itr with (0 + itr)%nat.
  eapply for_range_indexed; [|exact H0|exact Hrun].
  intros; eapply log_slots_iteration; eauto.
Qed.

(** Without the debug flag the updates of an iteration print nothing but
    what [negJakkolaOfDerivedXi] reports, and never raise. *)
Lemma updates_without_debug (itr : nat) (st : Ctm.TrainSt num) :
  Ctm.debug trainPlan = false ->
  exists c,
    Ctm.updates ext dataset modelState queryState trainPlan itr st =
    Ok (set_console (next_state ext dataset modelState queryState st) c).
Proof.
  intros Hd. unfold Ctm.updates, Ctm.debugFn. rewrite Hd.
  cbn [Ctm._debug_with_nothing bind].
  rewrite precision_diagonal. cbn [bind fst snd].
  eexists. reflexivity.
Qed.
End Bookkeeping.

(** ** The early return of [train] *)

(** C2, as the code has it.  A logging checkpoint of [train] in [ctm.py]
    ends the training when three things hold together: two checkpoints have
    been logged before it (the iteration index is at least twice
    [logFrequency], so that [bvIdx > 1]), the iteration index is at least 30,
    and the perplexity of the previous checkpoint exceeds the current one by
    less than 1.  Then [train] returns the current model state, the current
    query state and the clamped trace.  The slot of the checkpoint has to
    exist and the bound has to evaluate, otherwise the checkpoint raises. *)
Theorem train_stops_at_flat_checkpoint
    {num : Type} {N : Numeric num} (ext : Externals num)
    (dataset : DataSet num) (modelState : Ctm.ModelState num)
    (queryState : Ctm.QueryState num) (trainPlan : Ctm.TrainPlan num)
    (c : Console num) (st0 st st1 : Ctm.TrainSt num) (itr : nat)
    (r : num * Ctm.QueryState num) :
  let L := Ctm.logFrequency trainPlan in
  let total := vsum (Ctm.docLens queryState) in
  let model := Ctm.current_model modelState st1 in
  let query := after_var_bound (Ctm.current_query queryState st1) in
  let like := Ctm.log_likelihood ext dataset model query in
  let previous := nth (itr / L - 1) (Ctm.t_likelyValues st1) zero in
  Ctm.initial_state ext modelState queryState trainPlan c = Ok st0 ->
  (itr < Ctm.iterations trainPlan)%nat ->
  for_range (Ctm.iteration ext dataset modelState queryState trainPlan)
    0 itr st0 = Ok (inl st) ->
  Ctm.updates ext dataset modelState queryState trainPlan itr st = Ok st1 ->
  (itr mod L = 0)%nat ->
  (itr / L < Ctm.iterations trainPlan / L)%nat ->
  Ctm.var_bound ext dataset model (Ctm.current_query queryState st1) = Ok r ->
  (2 * L <= itr)%nat ->
  (30 <= itr)%nat ->
  nltb (nsub (perplexity_from_like previous total)
             (perplexity_from_like like total)) one = true ->
  exists o,
    Ctm.train ext dataset modelState queryState trainPlan c = Ok o /\
    Ctm.returned o =
      (model, query,
       clamp ext (put (Ctm.t_boundIters st1) (itr / L) itr)
                 (put (Ctm.t_boundValues st1) (itr / L) (fst r))
                 (put (Ctm.t_likelyValues st1) (itr / L) like)
                 (itr / L)).
Proof.
  intros L total model query like previous
         H0 Hlt Hrun Hup Hmod Hslot Hvb H2 H30 Hflat.
  assert (Hs : log_slots trainPlan itr st1).
  { eapply log_slots_updates; [exact Hup|].
    eapply log_slots_reached; [exact H0 | exact Hrun]. }
  pose proof (log_slots_index Hs Hmod) as Hb.
  destruct Hs as (HL & _ & Hi & Hv & Hl).
  fold L in HL, Hb, Hi, Hv, Hl.
  assert (Hb2 : (1 < itr / L)%nat).
  { pose proof (Nat.div_mod_eq itr L) as E. rewrite Hmod in E. nia. }
  destruct (@checkpoint_decision _ _ ext dataset modelState queryState
              trainPlan itr st1 r) as (c' & Hcp); auto;
    try (rewrite Hb; lia).
  assert (Hstop : stops ext dataset modelState queryState itr st1 = true).
  { unfold stops. rewrite Hb. fold L total model query like previous.
    rewrite Hflat.
    apply Nat.ltb_lt in Hb2. apply Nat.leb_le in H30.
    rewrite Hb2, H30. reflexivity. }
  rewrite Hstop, Hb in Hcp.
  eexists. split.
  - unfold Ctm.train. rewrite H0. cbn [bind].
    replace (Ctm.iterations trainPlan)
      with (itr + S (Ctm.iterations trainPlan - itr - 1))%nat by lia.
    rewrite for_range_app, Hrun. cbn [for_range Nat.add].
    unfold Ctm.iteration at 1. rewrite Hup. cbn [bind].
    rewrite Hcp. cbn [bind]. reflexivity.
  - reflexivity.
Qed.

(** ** The whole run on the small problem *)

Section TinyRun.
Local Open Scope R_scope.
Variables slots L : nat.
Hypothesis HL : (0 < L)%nat.

Local Abbreviation plan := (tiny_plan (slots * L) L).
Local Abbreviation tiny_iteration :=
  (Ctm.iteration ref_ext tiny_data tiny_model tiny_query (tiny_plan (slots * L) L)).

(** With one term in the vocabulary every word has probability one. *)
Lemma tiny_log_likelihood (ms : Ctm.ModelState R) (qs : Ctm.QueryState R)
    (a b : R) :
  Ctm.vocab ms = [[1]; [1]] -> Ctm.means qs = [[a; b]] ->
  Ctm.log_likelihood ref_ext tiny_data ms qs = 0.
Proof.
  intros Hv Hm. unfold Ctm.log_likelihood. rewrite Hv, Hm.
  cbn.
  set (e1 := exp (a - Rmax a b)).
  set (e2 := exp (b - Rmax a b)).
  assert (He1 : 0 < e1) by apply exp_pos.
  assert (He2 : 0 < e2) by apply exp_pos.
  replace (e1 / (e1 + (e2 + 0)) * 1 + (e2 / (e1 + (e2 + 0)) * 1 + 0)) with 1
    by (field; lra).
  rewrite ln_1. lra.
Qed.

Lemma tiny_perplexity : perplexity_from_like 0 (vsum [3]) = 1.
Proof.
  unfold perplexity_from_like. cbn.
  replace (- (0 / (3 + 0))) with 0 by (field; lra).
  apply exp_0.
Qed.

(** The logged likelihoods of the small problem are all zero. *)
Definition tiny_flat (st : Ctm.TrainSt R) : Prop :=
  forall j, nth j (Ctm.t_likelyValues st) 0 = 0.

Lemma tiny_start :
  exists st0,
    Ctm.initial_state ref_ext tiny_model tiny_query plan console0 = Ok st0
    /\ tiny_arrays st0 /\ tiny_flat st0.
Proof.
  unfold Ctm.initial_state. cbn [Ctm.logFrequency Ctm.iterations tiny_plan].
  destruct (Nat.eqb_spec L 0) as [E|_]; [lia|].
  rewrite tiny_sigT_inverse. eexists. split; [reflexivity|]. split.
  - unfold tiny_arrays. cbn. repeat split.
    + exists 0, 0. reflexivity.
    + exists 1, 1. repeat split; lra.
    + exists 1, 1. repeat split; lra.
    + exists 1, 1. repeat split; lra.
  - intros j. cbn. apply nth_repeat.
Qed.
(** The number of slots the plan allocates. *)
Lemma tiny_slots : (Ctm.iterations plan / Ctm.logFrequency plan)%nat = slots.
Proof. cbn. apply Nat.div_mul. lia. Qed.

(** A logging checkpoint of the small problem: the bound evaluates, the slot
    exists, the likelihood is zero and only the two guards decide whether
    the training stops. *)
Lemma tiny_checkpoint (itr : nat) (st1 : Ctm.TrainSt R) :
  tiny_ready st1 -> tiny_flat st1 -> log_slots plan itr st1 ->
  (itr < slots * L)%nat -> (itr mod L = 0)%nat ->
  (exists r,
     Ctm.var_bound ref_ext tiny_data (Ctm.current_model tiny_model st1)
       (Ctm.current_query tiny_query st1) = Ok r) /\
  (Ctm.t_bvIdx st1 < slots)%nat /\
  Ctm.log_likelihood ref_ext tiny_data (Ctm.current_model tiny_model st1)
    (after_var_bound (Ctm.current_query tiny_query st1)) = 0 /\
  stops ref_ext tiny_data tiny_model tiny_query itr st1 =
    (1 <? Ctm.t_bvIdx st1)%nat && (30 <=? itr)%nat.
Proof.
  intros (Harr & Hvoc & (d1 & d2 & Hsig & Hd1 & Hd2)) Hflat Hs Hlt Hmod.
  destruct Harr as ((a & b & Hm) & _).
  assert (Hlike : Ctm.log_likelihood ref_ext tiny_data
                    (Ctm.current_model tiny_model st1)
                    (after_var_bound (Ctm.current_query tiny_query st1)) = 0).
  { apply tiny_log_likelihood with (a := a) (b := b); cbn; assumption. }
  split; [|split; [|split]].
  - apply var_bound_ok_iff. cbn [Ctm.sigT Ctm.current_model la_inv ref_ext].
    rewrite Hsig, diag_inv_np_diag; [eauto|]. each_entry; lra.
  - rewrite (log_slots_index Hs Hmod). cbn [Ctm.logFrequency tiny_plan].
    apply Nat.Div0.div_lt_upper_bound. lia.
  - exact Hlike.
  - unfold stops. rewrite Hlike, Hflat.
    cbn [Ctm.docLens tiny_query]. rewrite tiny_perplexity.
    cbn [nltb nsub one lit nZ RNum].
    match goal with
    | |- context [Rlt_dec ?x ?y] =>
        destruct (Rlt_dec x y) as [_|Hn]; [|exfalso; apply Hn; lra]
    end.
    apply andb_true_r.
Qed.
(** The head of an iteration of the small run. *)
Definition tiny_head (itr : nat) (st : Ctm.TrainSt R) : Prop :=
  tiny_arrays st /\ tiny_flat st /\ log_slots plan itr st.

(** The updates of an iteration of the small run. *)
Lemma tiny_updates (itr : nat) (st : Ctm.TrainSt R) :
  tiny_head itr st ->
  exists st1,
    Ctm.updates ref_ext tiny_data tiny_model tiny_query plan itr st = Ok st1
    /\ tiny_ready st1 /\ tiny_flat st1 /\ log_slots plan itr st1.
Proof.
  intros (Harr & Hflat & Hs).
  destruct (@updates_without_debug _ _ ref_ext tiny_data tiny_model tiny_query
              plan itr st eq_refl) as (c & Hup).
  eexists. split; [exact Hup|]. split; [|split].
  - eapply tiny_ready_arrays; [|apply tiny_next; exact Harr].
    unfold same_arrays. cbn. repeat split; reflexivity.
  - exact Hflat.
  - eapply log_slots_updates; [exact Hup | exact Hs].
Qed.

(** An iteration that does not meet both guards goes on. *)
Lemma tiny_continue (itr : nat) (st : Ctm.TrainSt R) :
  (itr < slots * L)%nat ->
  ((itr mod L = 0)%nat -> (itr < 2 * L)%nat \/ (itr < 30)%nat) ->
  tiny_head itr st ->
  exists st', tiny_iteration itr st = Ok (inl st') /\ tiny_head (S itr) st'.
Proof.
  intros Hlt Hguard Hhead.
  destruct (tiny_updates Hhead) as (st1 & Hup & Hready & Hflat & Hs).
  unfold Ctm.iteration. rewrite Hup. cbn [bind].
  assert (Hgo : exists st',
            Ctm.checkpoint ref_ext tiny_data tiny_model tiny_query plan itr st1
              = Ok (inl st')
            /\ tiny_arrays st' /\ tiny_flat st').
  { destruct (Nat.eq_dec (itr mod L) 0) as [Hmod|Hmod].
    - destruct (tiny_checkpoint Hready Hflat Hs Hlt Hmod)
        as ((r & Hvb) & Hb & Hlike & Hstop).
      pose proof Hs as (_ & _ & Hi & Hv & Hl). rewrite tiny_slots in Hi, Hv, Hl.
      destruct (@checkpoint_decision _ _ ref_ext tiny_data tiny_model
                  tiny_query plan itr st1 r) as (c' & Hcp); auto; try lia.
      assert (Hno : stops ref_ext tiny_data tiny_model tiny_query itr st1
                    = false).
      { rewrite Hstop. apply andb_false_iff.
        destruct (Hguard Hmod) as [H2|H30].
        - left. apply Nat.ltb_ge.
          pose proof (log_slots_index Hs Hmod) as Hq.
          cbn [Ctm.logFrequency tiny_plan] in Hq.
          pose proof (Nat.div_mod_eq itr L) as E. rewrite Hmod in E.
          rewrite Hq. nia.
        - right. apply Nat.leb_gt. exact H30. }
      rewrite Hno in Hcp. eexists. split; [exact Hcp|]. split.
      + destruct Hready as (Harr & _). exact Harr.
      + intros j. cbn [Ctm.t_likelyValues Ctm.with_log]. rewrite Hlike.
        destruct (Nat.eq_dec (Ctm.t_bvIdx st1) j) as [<-|Hne].
        * apply nth_put_same. lia.
        * rewrite nth_put_other by exact Hne. apply Hflat.
    - exists st1. split; [|split; [destruct Hready as (Harr & _); exact Harr
                                 | exact Hflat]].
      unfold Ctm.checkpoint. cbn [Ctm.logFrequency tiny_plan].
      destruct (Nat.eqb_spec (itr mod L) 0) as [E|_]; [contradiction|].
      rewrite andb_false_r. reflexivity. }
  destruct Hgo as (st' & Hcp & Harr' & Hflat').
  exists st'. split; [exact Hcp|]. split; [exact Harr'|]. split; [exact Hflat'|].
  eapply log_slots_checkpoint; [exact Hcp | exact Hs].
Qed.

(** The small run up to iteration [j], when no checkpoint before [j] meets
    both guards. *)
Lemma tiny_run (j : nat) :
  (j <= slots * L)%nat ->
  (forall itr, (itr < j)%nat -> (itr mod L = 0)%nat ->
     (itr < 2 * L)%nat \/ (itr < 30)%nat) ->
  exists st0 st,
    Ctm.initial_state ref_ext tiny_model tiny_query plan console0 = Ok st0 /\
    for_range tiny_iteration 0 j st0 = Ok (inl st) /\
    tiny_head j st.
Proof.
  intros Hj Hguard.
  destruct tiny_start as (st0 & H0 & Harr & Hflat).
  destruct (@for_range_steps _ (Ctm.TrainOutput R) tiny_iteration tiny_head j)
    with (count := j) (itr := 0%nat) (st := st0) as (st & Hrun & Hhead).
  - intros itr s Hlt Hhead. apply tiny_continue; auto. lia.
  - lia.
  - split; [exact Harr|]. split; [exact Hflat|].
    eapply log_slots_initial. exact H0.
  - exists st0, st. auto.
Qed.
End TinyRun.

(** The early return happens on the small problem: with 60 iterations and
    a checkpoint every 15, the checkpoint of iteration 30 is the third one,
    the perplexity has stayed at 1, and [train] returns there. *)
Lemma train_stops_at_flat_checkpoint_witness :
  exists (st1 : Ctm.TrainSt R) (r : R * Ctm.QueryState R) o,
    Ctm.train ref_ext tiny_data tiny_model tiny_query (tiny_plan 60 15)
      console0 = Ok o /\
    Ctm.returned o =
      (Ctm.current_model tiny_model st1,
       after_var_bound (Ctm.current_query tiny_query st1),
       clamp ref_ext
         (put (Ctm.t_boundIters st1) 2 30%nat)
         (put (Ctm.t_boundValues st1) 2 (fst r))
         (put (Ctm.t_likelyValues st1) 2
            (Ctm.log_likelihood ref_ext tiny_data
               (Ctm.current_model tiny_model st1)
               (after_var_bound (Ctm.current_query tiny_query st1))))
         2%nat).
Proof.
  assert (HL : (0 < 15)%nat) by lia.
  destruct (@tiny_run 4 15 HL 30) as (st0 & st & H0 & Hrun & Hhead);
    [lia | intros; lia |].
  destruct (@tiny_updates 4 15 30 st Hhead) as (st1 & Hup & Hready & Hflat & Hs).
  destruct (@tiny_checkpoint 4 15 HL 30 st1 Hready Hflat Hs)
    as ((r & Hvb) & Hb & Hlike & _); [lia | reflexivity |].
  exists st1, r.
  apply (@train_stops_at_flat_checkpoint R RNum ref_ext tiny_data tiny_model
           tiny_query (tiny_plan 60 15) console0 st0 st st1 30 r).
  - exact H0.
  - cbn; lia.
  - exact Hrun.
  - exact Hup.
  - reflexivity.
  - cbn; lia.
  - exact Hvb.
  - cbn; lia.
  - lia.
  - rewrite Hlike, Hflat. cbn [Ctm.docLens tiny_query].
    rewrite tiny_perplexity. cbn [nltb nsub one lit nZ RNum].
    match goal with
    | |- context [Rlt_dec ?x ?y] =>
        destruct (Rlt_dec x y) as [_|Hn]; [reflexivity | exfalso; apply Hn; lra]
    end.
Defined.

(** C2, as the specification has it, fails on the small problem run for 80
    iterations with a checkpoint every 40.  The checkpoint of iteration 40
    lies past the floor of 30 and the perplexity has not moved since the
    checkpoint of iteration 0, but it fills slot 1 only, the loop goes on
    and [train] returns after the last iteration. *)
Lemma train_passes_second_checkpoint :
  exists st0 st st1 st' stN,
    Ctm.initial_state ref_ext tiny_model tiny_query (tiny_plan 80 40) console0
      = Ok st0 /\
    for_range (Ctm.iteration ref_ext tiny_data tiny_model tiny_query
                 (tiny_plan 80 40)) 0 40 st0 = Ok (inl st) /\
    Ctm.updates ref_ext tiny_data tiny_model tiny_query (tiny_plan 80 40) 40 st
      = Ok st1 /\
    (40 mod Ctm.logFrequency (tiny_plan 80 40) = 0)%nat /\
    Ctm.t_bvIdx st1 = 1%nat /\
    (perplexity_from_like (nth 0 (Ctm.t_likelyValues st1) 0)
       (vsum (Ctm.docLens tiny_query))
     - perplexity_from_like
         (Ctm.log_likelihood ref_ext tiny_data
            (Ctm.current_model tiny_model st1)
            (after_var_bound (Ctm.current_query tiny_query st1)))
         (vsum (Ctm.docLens tiny_query)) < 1)%R /\
    Ctm.checkpoint ref_ext tiny_data tiny_model tiny_query (tiny_plan 80 40)
      40 st1 = Ok (inl st') /\
    for_range (Ctm.iteration ref_ext tiny_data tiny_model tiny_query
                 (tiny_plan 80 40)) 0 80 st0 = Ok (inl stN) /\
    Ctm.train ref_ext tiny_data tiny_model tiny_query (tiny_plan 80 40)
      console0 = Ok (Ctm.final_output tiny_model tiny_query stN).
Proof.
  assert (HL : (0 < 40)%nat) by lia.
  destruct (@tiny_run 2 40 HL 40) as (st0 & st & H0 & Hrun & Hhead);
    [lia | intros; lia |].
  destruct (@tiny_run 2 40 HL 80) as (st0' & stN & H0' & HrunN & _);
    [lia | intros; lia |].
  assert (E0 : st0' = st0) by congruence. subst st0'.
  destruct (@tiny_updates 2 40 40 st Hhead) as (st1 & Hup & Hready & Hflat & Hs).
  destruct (@tiny_checkpoint 2 40 HL 40 st1 Hready Hflat Hs)
    as (_ & _ & Hlike & _); [lia | reflexivity |].
  destruct (@tiny_continue 2 40 HL 40 st) as (st' & Hit & _);
    [lia | intros; lia | exact Hhead |].
  unfold Ctm.iteration in Hit. change (2 * 40)%nat with 80%nat in *.
  rewrite Hup in Hit. cbn [bind] in Hit.
  exists st0, st, st1, st', stN.
  split; [exact H0|]. split; [exact Hrun|]. split; [exact Hup|].
  split; [reflexivity|]. split; [|split; [|split; [exact Hit|split]]].
  - rewrite (@log_slots_index _ (tiny_plan 80 40) 40 st1 Hs); reflexivity.
  - rewrite Hlike, Hflat. cbn [Ctm.docLens tiny_query].
    rewrite tiny_perplexity. lra.
  - exact HrunN.
  - unfold Ctm.train. rewrite H0. cbn [bind Ctm.iterations tiny_plan].
    rewrite HrunN. reflexivity.
Qed.

(** ** The diagnostics of [train] *)

Section Diagnostics.
Context {num : Type} {N : Numeric num}.
Variable ext : Externals num.
Variable dataset : DataSet num.
Variable modelState : Ctm.ModelState num.
Variable queryState : Ctm.QueryState num.
Variable trainPlan : Ctm.TrainPlan num.

(** Printing never takes a line back. *)
Definition extends (c c' : Console num) : Prop :=
  exists l, out c' = out c ++ l.

Lemma extends_refl (c : Console num) : extends c c.
Proof. exists nil. symmetry. apply app_nil_r. Qed.

Lemma extends_trans (a b c : Console num) :
  extends a b -> extends b c -> extends a c.
Proof.
  intros [l Hl] [m Hm]. exists (l ++ m). rewrite Hm, Hl. symmetry. apply app_assoc.
Qed.

Lemma extends_In (c c' : Console num) (m : Chan * Msg num) :
  extends c c' -> In m (out c) -> In m (out c').
Proof. intros [l Hl] H. rewrite Hl. apply in_or_app. left. exact H. Qed.

Lemma report_extends (prefix : string) (X : list num) (c : Console num) :
  extends c (Ctm.report prefix X c).
Proof.
  unfold Ctm.report. destruct (Ctm.errorMsg X).
  - eexists. cbn. rewrite <- app_assoc. reflexivity.
  - apply extends_refl.
Qed.

(** The two warnings of [_debug_with_bound] about the value [X] called
    [name] are on the error stream. *)
Definition warned (name : string) (X : list num) (c : Console num) : Prop :=
  (any_nan X = true ->
   In (Stderr, Text (append "WARNING: " (append name " contains NaNs")))
      (out c)) /\
  (any_inf X = true ->
   In (Stderr, Text (append "WARNING: " (append name " contains INFs")))
      (out c)).

Lemma warned_extends (name : string) (X : list num) (c c' : Console num) :
  extends c c' -> warned name X c -> warned name X c'.
Proof.
  intros He [Hn Hi]. split; intros H; eapply extends_In; eauto.
Qed.

(** The lines of one call of [_debug_with_bound]. *)
Lemma debug_lines (b1 b2 b3 : bool) (w1 w2 line : Msg num) (bound : num)
    (c : Console num) :
  let c1 := if b1 then printStderr w1 c else c in
  let c2 := if b2 then printStderr w2 c1 else c1 in
  let c3 := if b3 then printStderr line c2 else print line c2 in
  extends c (set_last bound c3) /\
  ((b1 = true -> In (Stderr, w1) (out (set_last bound c3))) /\
   (b2 = true -> In (Stderr, w2) (out (set_last bound c3)))).
Proof.
  unfold extends. destruct b1, b2, b3; cbn;
    (split; [eexists; rewrite <- ?app_assoc; reflexivity|]);
    split; intros Hx; try discriminate Hx;
    rewrite !in_app_iff; cbn [In]; auto 6.
Qed.

(** One call of [_debug_with_bound] that returns: it has only added lines,
    the warnings among them. *)
Lemma debug_with_bound_console (itr : nat) (X : list num) (name : string)
    (W : csr_matrix num) (K : nat) (topicMean : list num)
    (sigT vocab : list (list num)) (vocabPrior : num) (dtype : DType)
    (means varcs lxi : list (list num)) (s n : list num) (c c' : Console num) :
  Ctm._debug_with_bound ext itr X name W K topicMean sigT vocab vocabPrior
    dtype means varcs lxi s n c = Ok c' ->
  extends c c' /\ warned name X c'.
Proof.
  unfold Ctm._debug_with_bound, warned. intros H.
  match type of H with
  | bind ?m _ = Ok _ => destruct m as [r|] eqn:E; [|discriminate H]
  end.
  unfold bind in H. injection H as <-.
  apply debug_lines.
Qed.

(** The same for [debugFn] when the plan asks for debugging. *)
Lemma debugFn_console (itr : nat) (X : list num) (name : string)
    (W : csr_matrix num) (K : nat) (topicMean : list num)
    (sigT vocab : list (list num)) (vocabPrior : num) (dtype : DType)
    (means varcs lxi : list (list num)) (s n : list num) (c c' : Console num) :
  Ctm.debug trainPlan = true ->
  Ctm.debugFn ext trainPlan itr X name W K topicMean sigT vocab vocabPrior
    dtype means varcs lxi s n c = Ok c' ->
  extends c c' /\ warned name X c'.
Proof.
  unfold Ctm.debugFn. intros ->. apply debug_with_bound_console.
Qed.
End Diagnostics.

Section DebugRun.
Context {num : Type} {N : Numeric num}.
Variable ext : Externals num.
Variable dataset : DataSet num.
Variable modelState : Ctm.ModelState num.
Variable queryState : Ctm.QueryState num.
Variable trainPlan : Ctm.TrainPlan num.

(** The console an iteration leaves: in the state the loop goes on with, or
    in what [train] returns. *)
Definition result_console (res : Ctm.TrainSt num + Ctm.TrainOutput num)
    : Console num :=
  match res with
  | inl st => Ctm.t_console st
  | inr o => Ctm.console_after o
  end.

(** The scans the updates of an iteration make when the plan asks for
    debugging: each of the seven values, as the updates have left it. *)
Definition all_warned (st1 : Ctm.TrainSt num) : Prop :=
  let c := Ctm.t_console st1 in
  warned "topicMean" (Ctm.t_topicMean st1) c /\
  warned "sigT" (concat (Ctm.t_sigT st1)) c /\
  warned "vocab" (concat (Ctm.t_vocab st1)) c /\
  warned "varcs" (concat (Ctm.t_varcs st1)) c /\
  warned "means" (concat (Ctm.t_means st1)) c /\
  warned "lxi" (concat (Ctm.t_lxi st1)) c /\
  warned "s" (Ctm.t_s st1) c.

Lemma updates_warned (itr : nat) (st st1 : Ctm.TrainSt num) :
  Ctm.debug trainPlan = true ->
  Ctm.updates ext dataset modelState queryState trainPlan itr st = Ok st1 ->
  all_warned st1.
Proof.
  intros Hd H. unfold Ctm.updates in H.
  bind_ok H. rewrite precision_diagonal in H. cbn [bind fst snd] in H.
  do 4 bind_ok H.
  cbn [Ctm.negJakkolaOfDerivedXi fst snd] in H.
  do 2 bind_ok H.
  eapply debugFn_console in E; [|exact Hd].
  eapply debugFn_console in E0; [|exact Hd].
  eapply debugFn_console in E1; [|exact Hd].
  eapply debugFn_console in E2; [|exact Hd].
  eapply debugFn_console in E3; [|exact Hd].
  eapply debugFn_console in E4; [|exact Hd].
  eapply debugFn_console in E5; [|exact Hd].
  destruct E as [X0 W0], E0 as [X1 W1], E1 as [X2 W2], E2 as [X3 W3],
           E3 as [X4 W4], E4 as [X5 W5], E5 as [X6 W6].
  assert (X5' : extends a3 a4).
  { eapply extends_trans; [|exact X5].
    eapply extends_trans; [|apply report_extends].
    eapply extends_trans; [|apply report_extends].
    apply report_extends. }
  inversion H; subst; clear H. unfold all_warned.
  cbn [Ctm.t_console Ctm.t_topicMean Ctm.t_sigT Ctm.t_vocab Ctm.t_varcs
       Ctm.t_means Ctm.t_lxi Ctm.t_s].
  assert (Y5 : extends a4 a5) by exact X6.
  assert (Y4 : extends a3 a5) by (eapply extends_trans; eauto).
  assert (Y3 : extends a2 a5) by (eapply extends_trans; eauto).
  assert (Y2 : extends a1 a5) by (eapply extends_trans; eauto).
  assert (Y1 : extends a0 a5) by (eapply extends_trans; eauto).
  assert (Y0 : extends a a5) by (eapply extends_trans; eauto).
  repeat split;
    first [ apply W6
          | apply (warned_extends Y5 W5)
          | apply (warned_extends Y4 W4)
          | apply (warned_extends Y3 W3)
          | apply (warned_extends Y2 W2)
          | apply (warned_extends Y1 W1)
          | apply (warned_extends Y0 W0) ].
Qed.

(** What a logging checkpoint prints: the iteration line and, when the
    bound is below the one logged before, the degradation on the error
    stream. *)
Definition checkpoint_console (itr : nat) (st : Ctm.TrainSt num)
    (r : num * Ctm.QueryState num) : Console num :=
  let b := Ctm.t_bvIdx st in
  let like := Ctm.log_likelihood ext dataset
                (Ctm.current_model modelState st)
                (after_var_bound (Ctm.current_query queryState st)) in
  let perp := perplexity_from_like like (vsum (Ctm.docLens queryState)) in
  let previous := nth (b - 1) (Ctm.t_boundValues st) zero in
  let c := print (IterationLine itr perp (fst r)) (Ctm.t_console st) in
  if (0 <? b)%nat && nltb (fst r) previous
  then printStderr (BoundDegradation previous (fst r)) c
  else c.

Lemma checkpoint_prints (itr : nat) (st : Ctm.TrainSt num)
    (r : num * Ctm.QueryState num)
    (res : Ctm.TrainSt num + Ctm.TrainOutput num) :
  (0 < Ctm.logFrequency trainPlan)%nat ->
  (itr mod Ctm.logFrequency trainPlan = 0)%nat ->
  Ctm.var_bound ext dataset (Ctm.current_model modelState st)
    (Ctm.current_query queryState st) = Ok r ->
  Ctm.checkpoint ext dataset modelState queryState trainPlan itr st = Ok res ->
  result_console res = checkpoint_console itr st r.
Proof.
  intros HL Hmod Hvb H. unfold Ctm.checkpoint in H.
  assert (Hc : ((0 <? Ctm.logFrequency trainPlan)%nat
                && (itr mod Ctm.logFrequency trainPlan =? 0)%nat) = true).
  { apply andb_true_intro. split; [apply Nat.ltb_lt; exact HL|].
    apply Nat.eqb_eq; exact Hmod. }
  rewrite Hc, Hvb in H. cbn [bind] in H.
  pose proof (var_bound_query _ _ _ _ Hvb) as Hq. rewrite Hq in H.
  do 3 bind_ok H.
  pose proof (store_range _ _ _ E) as R1.
  pose proof (store_range _ _ _ E0) as R2.
  rewrite (store_put _ _ R1) in E. rewrite (store_put _ _ R2) in E0.
  inversion E; inversion E0; subst a a0; clear E E0.
  assert (Hcur : nth (Ctm.t_bvIdx st)
                   (put (Ctm.t_boundValues st) (Ctm.t_bvIdx st) (fst r)) zero
                 = fst r) by (apply nth_put_same; exact R1).
  assert (Hlike : nth (Ctm.t_bvIdx st)
                   (put (Ctm.t_likelyValues st) (Ctm.t_bvIdx st)
                      (Ctm.log_likelihood ext dataset
                         (Ctm.current_model modelState st)
                         (after_var_bound (Ctm.current_query queryState st))))
                   zero
                  = Ctm.log_likelihood ext dataset
                      (Ctm.current_model modelState st)
                      (after_var_bound (Ctm.current_query queryState st)))
    by (apply nth_put_same; exact R2).
  rewrite Hcur, Hlike in H.
  assert (Hcons : forall c0,
            (if (0 <? Ctm.t_bvIdx st)%nat
                && nltb (fst r)
                     (nth (Ctm.t_bvIdx st - 1)
                        (put (Ctm.t_boundValues st) (Ctm.t_bvIdx st) (fst r))
                        zero)
             then printStderr
                    (BoundDegradation
                       (nth (Ctm.t_bvIdx st - 1)
                          (put (Ctm.t_boundValues st) (Ctm.t_bvIdx st) (fst r))
                          zero) (fst r)) c0
             else c0)
            = (if (0 <? Ctm.t_bvIdx st)%nat
                  && nltb (fst r)
                       (nth (Ctm.t_bvIdx st - 1) (Ctm.t_boundValues st) zero)
               then printStderr
                      (BoundDegradation
                         (nth (Ctm.t_bvIdx st - 1) (Ctm.t_boundValues st) zero)
                         (fst r)) c0
               else c0)).
  { intros c0. destruct (0 <? Ctm.t_bvIdx st)%nat eqn:Hb; [|reflexivity].
    apply Nat.ltb_lt in Hb. rewrite nth_put_other by lia. reflexivity. }
  rewrite !Hcons in H. unfold checkpoint_console.
  repeat match type of H with
         | (if ?b then _ else _) = _ =>
             match b with
             | context [nltb (fst r)] => fail 1
             | _ => destruct b
             end
         end; inversion H; subst; reflexivity.
Qed.
End DebugRun.

Section DebugReturns.
Context {num : Type} {N : Numeric num}.
Variable ext : Externals num.
Variable dataset : DataSet num.
Variable modelState : Ctm.ModelState num.
Variable queryState : Ctm.QueryState num.
Variable trainPlan : Ctm.TrainPlan num.

(** [_debug_with_bound] returns when the covariance it is given can be
    inverted. *)
Lemma debug_with_bound_returns (itr : nat) (X : list num) (name : string)
    (W : csr_matrix num) (K : nat) (topicMean : list num)
    (sigT vocab : list (list num)) (vocabPrior : num) (dtype : DType)
    (means varcs lxi : list (list num)) (s n : list num) (c : Console num) :
  (exists isigT, la_inv ext sigT = Some isigT) ->
  exists c',
    Ctm._debug_with_bound ext itr X name W K topicMean sigT vocab vocabPrior
      dtype means varcs lxi s n c = Ok c'.
Proof.
  intros [isigT Hi]. unfold Ctm._debug_with_bound, Ctm.var_bound.
  cbn [Ctm.sigT]. rewrite Hi. cbn [bind]. eexists. reflexivity.
Qed.

(** The updates of an iteration return when the covariance can be inverted
    before and after its own update. *)
Lemma updates_returns (itr : nat) (st : Ctm.TrainSt num) :
  (exists isigT, la_inv ext (Ctm.t_sigT st) = Some isigT) ->
  (exists isigT,
     la_inv ext (Ctm.t_sigT (next_state ext dataset modelState queryState st))
     = Some isigT) ->
  exists st1,
    Ctm.updates ext dataset modelState queryState trainPlan itr st = Ok st1.
Proof.
  intros H1 H2. destruct (Ctm.debug trainPlan) eqn:Hd.
  - unfold Ctm.updates, Ctm.debugFn. rewrite Hd.
    cbn [next_state Ctm.t_sigT] in H2.
    edestruct debug_with_bound_returns as (c1 & E1);
      [exact H1 | rewrite E1; cbn [bind]].
    rewrite precision_diagonal. cbn [bind fst snd].
    do 4 (edestruct debug_with_bound_returns as (? & E);
          [exact H2 | rewrite E; clear E; cbn [bind]]).
    cbn [Ctm.negJakkolaOfDerivedXi fst snd].
    do 2 (edestruct debug_with_bound_returns as (? & E);
          [exact H2 | rewrite E; clear E; cbn [bind]]).
    eexists. reflexivity.
  - destruct (@updates_without_debug _ _ ext dataset modelState queryState
                trainPlan itr st Hd) as (c & Hc).
    eexists. exact Hc.
Qed.

(** A logging checkpoint that returns has found its slot. *)
Lemma checkpoint_slot (itr : nat) (st : Ctm.TrainSt num)
    (res : Ctm.TrainSt num + Ctm.TrainOutput num) :
  (0 < Ctm.logFrequency trainPlan)%nat ->
  (itr mod Ctm.logFrequency trainPlan = 0)%nat ->
  Ctm.checkpoint ext dataset modelState queryState trainPlan itr st = Ok res ->
  (Ctm.t_bvIdx st < length (Ctm.t_boundValues st))%nat /\
  (Ctm.t_bvIdx st < length (Ctm.t_likelyValues st))%nat /\
  (Ctm.t_bvIdx st < length (Ctm.t_boundIters st))%nat.
Proof.
  intros HL Hmod H. unfold Ctm.checkpoint in H.
  assert (Hc : ((0 <? Ctm.logFrequency trainPlan)%nat
                && (itr mod Ctm.logFrequency trainPlan =? 0)%nat) = true).
  { apply andb_true_intro. split; [apply Nat.ltb_lt; exact HL|].
    apply Nat.eqb_eq; exact Hmod. }
  rewrite Hc in H. do 4 bind_ok H.
  apply store_range in E0, E1, E2. auto.
Qed.
End DebugReturns.

(** C8, as the code has it.  After the updates of an iteration of [train]
    in [ctm.py]: when the plan asks for debugging, every value the updates
    have produced (topicMean, sigT, vocab, varcs, means, lxi, s) that holds a
    NaN or an INF has its warning on the error stream; the numbers are those
    the updates compute without any report; and a logging checkpoint that
    follows keeps the lines printed so far, writes the bound degradation to
    the error stream when the bound lies below the one logged before, and
    leaves [train] exactly when the early-stop test holds. *)
Theorem diagnostics_of_train
    {num : Type} {N : Numeric num} (ext : Externals num)
    (dataset : DataSet num) (modelState : Ctm.ModelState num)
    (queryState : Ctm.QueryState num) (trainPlan : Ctm.TrainPlan num)
    (itr : nat) (st st1 : Ctm.TrainSt num) :
  Ctm.updates ext dataset modelState queryState trainPlan itr st = Ok st1 ->
  (Ctm.debug trainPlan = true -> all_warned st1) /\
  same_arrays st1 (next_state ext dataset modelState queryState st) /\
  (forall r res,
     (0 < Ctm.logFrequency trainPlan)%nat ->
     (itr mod Ctm.logFrequency trainPlan = 0)%nat ->
     Ctm.var_bound ext dataset (Ctm.current_model modelState st1)
       (Ctm.current_query queryState st1) = Ok r ->
     Ctm.checkpoint ext dataset modelState queryState trainPlan itr st1
       = Ok res ->
     let previous := nth (Ctm.t_bvIdx st1 - 1) (Ctm.t_boundValues st1) zero in
     extends (Ctm.t_console st1) (result_console res) /\
     ((0 < Ctm.t_bvIdx st1)%nat -> nltb (fst r) previous = true ->
      In (Stderr, BoundDegradation previous (fst r))
         (out (result_console res))) /\
     (stops ext dataset modelState queryState itr st1 = true <->
      exists o, res = inr o)).
Proof.
  intros Hup. split; [|split].
  - intros Hd. eapply updates_warned; eauto.
  - apply updates_next_state in Hup. rewrite Hup.
    unfold same_arrays. cbn. repeat split; reflexivity.
  - intros r res HL Hmod Hvb Hcp previous.
    assert (Hcons : result_console res
                    = checkpoint_console ext dataset modelState queryState
                        itr st1 r)
      by (eapply checkpoint_prints; eauto).
    assert (Hslot : (Ctm.t_bvIdx st1 < length (Ctm.t_boundValues st1))%nat /\
                    (Ctm.t_bvIdx st1 < length (Ctm.t_likelyValues st1))%nat /\
                    (Ctm.t_bvIdx st1 < length (Ctm.t_boundIters st1))%nat)
      by (eapply checkpoint_slot; eauto).
    destruct Hslot as (R1 & R2 & R3).
    destruct (@checkpoint_decision _ _ ext dataset modelState queryState
                trainPlan itr st1 r HL Hmod Hvb R1 R2 R3) as (c & Hdec).
    rewrite Hcons. unfold checkpoint_console. fold previous.
    split; [|split].
    + destruct ((0 <? Ctm.t_bvIdx st1)%nat && nltb (fst r) previous);
        unfold extends; cbn [out print printStderr];
        eexists; rewrite <- ?app_assoc; reflexivity.
    + intros Hb Hlow. apply Nat.ltb_lt in Hb. rewrite Hb, Hlow.
      cbn [andb out printStderr]. apply in_or_app. right. left. reflexivity.
    + rewrite Hcp in Hdec.
      destruct (stops ext dataset modelState queryState itr st1).
      * split; [intros _; eexists; injection Hdec as ->; reflexivity | auto].
      * injection Hdec as ->.
        split; [discriminate | intros [o Ho]; discriminate Ho].
Qed.

(** ** A run in which a NaN appears

    One empty document, two topics, a vocabulary of one term and a prior
    that is NaN: the vocabulary becomes NaN in the first M-step, and no
    other array does, the document holding no word. *)

Definition empty_words : csr_matrix nanR :=
  {| sp_cols := 1; sp_rows := [[]] |}.

Definition nan_data : DataSet nanR := {| words := empty_words |}.

Definition nan_model : Ctm.ModelState nanR :=
  {| Ctm.K := 2; Ctm.topicMean := [Some 0%R; Some 0%R];
     Ctm.sigT := np_diag [Some 1%R; Some 1%R];
     Ctm.vocab := [[Some 1%R]; [Some 1%R]]; Ctm.vocabPrior := None;
     Ctm.dtype := Float64; Ctm.name := Ctm.MODEL_NAME |}.

Definition nan_query : Ctm.QueryState nanR :=
  {| Ctm.means := [[Some 0%R; Some 0%R]];
     Ctm.expMeans := [[Some 0%R; Some 0%R]];
     Ctm.varcs := [[Some 1%R; Some 1%R]]; Ctm.lxi := [[Some 1%R; Some 1%R]];
     Ctm.s := [Some 0%R]; Ctm.docLens := [Some 0%R] |}.

Definition nan_plan (debug : bool) : Ctm.TrainPlan nanR :=
  {| Ctm.iterations := 1; Ctm.epsilon := Some 2%R; Ctm.logFrequency := 1;
     Ctm.fastButInaccurate := false; Ctm.debug := debug |}.

Definition nan_console : Console nanR := {| last := Some 0%R; out := nil |}.

(** The state at the head of the only iteration. *)
Definition nan_state : Ctm.TrainSt nanR :=
  {| Ctm.t_topicMean := [Some 0%R; Some 0%R];
     Ctm.t_sigT := np_diag [Some 1%R; Some 1%R];
     Ctm.t_isigT := np_diag [Some (1 / 1)%R; Some (1 / 1)%R];
     Ctm.t_vocab := [[Some 1%R]; [Some 1%R]];
     Ctm.t_means := [[Some 0%R; Some 0%R]];
     Ctm.t_expMeans := [[Some 0%R; Some 0%R]];
     Ctm.t_varcs := [[Some 1%R; Some 1%R]];
     Ctm.t_lxi := [[Some 1%R; Some 1%R]];
     Ctm.t_s := [Some 0%R]; Ctm.t_bvIdx := 0;
     Ctm.t_boundIters := [0%nat]; Ctm.t_boundValues := [Some 0%R];
     Ctm.t_likelyValues := [Some 0%R]; Ctm.t_console := nan_console |}.

Section NanRun.
Local Open Scope R_scope.

Lemma nan_diag_inverse (a b : R) :
  a <> 0 -> b <> 0 ->
  la_inv ref_ext (np_diag [Some a; Some b])
  = Some (np_diag [Some (1 / a); Some (1 / b)]).
Proof.
  intros Ha Hb. cbn. unfold diag_inv. cbn.
  repeat match goal with
         | |- context [Req_dec_T ?x ?y] =>
             destruct (Req_dec_T x y); try contradiction; try lra
         end.
  reflexivity.
Qed.

Lemma nan_initial_state (debug : bool) :
  Ctm.initial_state ref_ext nan_model nan_query (nan_plan debug) nan_console
  = Ok nan_state.
Proof.
  unfold Ctm.initial_state. cbn [Ctm.logFrequency nan_plan Nat.eqb].
  cbn [Ctm.sigT nan_model]. rewrite nan_diag_inverse by lra. reflexivity.
Qed.

Lemma nan_next_vocab :
  Ctm.t_vocab (next_state ref_ext nan_data nan_model nan_query nan_state)
  = [[None]; [None]].
Proof. reflexivity. Qed.

Lemma nan_next_sigT :
  exists i,
    la_inv ref_ext
      (Ctm.t_sigT (next_state ref_ext nan_data nan_model nan_query nan_state))
    = Some i.
Proof.
  assert (E : exists d1 d2,
            Ctm.t_sigT (next_state ref_ext nan_data nan_model nan_query
                          nan_state)
            = np_diag [Some d1; Some d2] /\ d1 <> 0 /\ d2 <> 0).
  { eexists _, _. split; [reflexivity|]. split; cbn; nra. }
  destruct E as (d1 & d2 & E & H1 & H2). rewrite E.
  rewrite nan_diag_inverse by assumption. eauto.
Qed.

Lemma nan_state_sigT :
  exists i, la_inv ref_ext (Ctm.t_sigT nan_state) = Some i.
Proof.
  cbn [Ctm.t_sigT nan_state]. rewrite nan_diag_inverse by lra. eauto.
Qed.

(** Without the debug flag the updates print nothing. *)
Lemma nan_silent_updates :
  Ctm.updates ref_ext nan_data nan_model nan_query (nan_plan false) 0 nan_state
  = Ok (set_console
          (next_state ref_ext nan_data nan_model nan_query nan_state)
          nan_console).
Proof. reflexivity. Qed.
End NanRun.

(** With the debug flag the NaN of the vocabulary is reported on the error
    stream. *)
Lemma diagnostics_of_train_witness :
  exists st1,
    Ctm.updates ref_ext nan_data nan_model nan_query (nan_plan true) 0 nan_state
      = Ok st1 /\
    In (Stderr, Text "WARNING: vocab contains NaNs") (out (Ctm.t_console st1)).
Proof.
  destruct (@updates_returns _ _ ref_ext nan_data nan_model nan_query
              (nan_plan true) 0 nan_state nan_state_sigT nan_next_sigT)
    as (st1 & Hup).
  exists st1. split; [exact Hup|].
  destruct (@diagnostics_of_train _ _ ref_ext nan_data nan_model nan_query
              (nan_plan true) 0 nan_state st1 Hup) as (Hw & Hsame & _).
  destruct (Hw eq_refl) as (_ & _ & (Hn & _) & _).
  apply Hn.
  destruct Hsame as (_ & _ & _ & Hv & _). rewrite Hv. reflexivity.
Defined.

(** C8, as the specification has it, fails on this run when the plan does
    not ask for debugging: the vocabulary [train] returns is NaN, and all
    that was printed is the line of the checkpoint, on the standard output. *)
Lemma silent_nan_in_vocab :
  exists o perp bound,
    Ctm.train ref_ext nan_data nan_model nan_query (nan_plan false) nan_console
      = Ok o /\
    Ctm.vocab (fst (fst (Ctm.returned o))) = [[None]; [None]] /\
    any_nan (concat (Ctm.vocab (fst (fst (Ctm.returned o))))) = true /\
    out (Ctm.console_after o) = [(Stdout, IterationLine 0 perp bound)].
Proof.
  set (st1 := set_console
                (next_state ref_ext nan_data nan_model nan_query nan_state)
                nan_console).
  assert (Hvb : exists r,
            Ctm.var_bound ref_ext nan_data (Ctm.current_model nan_model st1)
              (Ctm.current_query nan_query st1) = Ok r).
  { apply var_bound_ok_iff. exact nan_next_sigT. }
  destruct Hvb as (r & Hvb).
  assert (HL : (0 < Ctm.logFrequency (nan_plan false))%nat) by (cbn; lia).
  assert (Hmod : (0 mod Ctm.logFrequency (nan_plan false) = 0)%nat)
    by reflexivity.
  destruct (@checkpoint_decision _ _ ref_ext nan_data nan_model nan_query
              (nan_plan false) 0 st1 r HL Hmod Hvb) as (c & Hcp);
    try (cbn; lia).
  assert (Hgo : stops ref_ext nan_data nan_model nan_query 0 st1 = false)
    by reflexivity.
  rewrite Hgo in Hcp.
  pose proof (@checkpoint_prints _ _ ref_ext nan_data nan_model nan_query
                (nan_plan false) 0 st1 r _ HL Hmod Hvb Hcp) as Hcons.
  cbn [result_console Ctm.t_console Ctm.with_log] in Hcons.
  eexists _, _, (fst r). split; [|split; [|split]].
  - unfold Ctm.train. rewrite nan_initial_state.
    cbn [bind Ctm.iterations nan_plan for_range].
    unfold Ctm.iteration. rewrite nan_silent_updates. cbn [bind].
    fold st1. rewrite Hcp. reflexivity.
  - reflexivity.
  - reflexivity.
  - cbn [Ctm.console_after Ctm.final_output Ctm.t_console Ctm.with_log].
    rewrite Hcons. reflexivity.
Qed.

(** ** [query] returns *)

(** Without the debug flag the [query] of [ctm.py] raises only when the
    covariance of the model cannot be inverted. *)
Lemma query_returns {num : Type} {N : Numeric num} (ext : Externals num)
    (dataset : DataSet num) (modelState : Ctm.ModelState num)
    (queryState : Ctm.QueryState num) (plan : Ctm.TrainPlan num)
    (c : Console num) (isigT : list (list num)) :
  Ctm.debug plan = false ->
  la_inv ext (Ctm.sigT modelState) = Some isigT ->
  exists o, Ctm.query ext dataset modelState queryState plan c = Ok o.
Proof.
  intros Hd Hi. unfold Ctm.query. rewrite Hi.
  match goal with
  | |- context [for_range ?body ?i ?n ?s] =>
      destruct (@for_range_ok _ body) with (count := n) (itr := i) (st := s)
        as (r & Hr)
  end.
  - intros itr st. unfold Ctm.query_iteration, Ctm.query_debugFn.
    rewrite Hd. cbn [bind Ctm._debug_with_nothing].
    match goal with
    | |- context [if ?b then _ else _] => destruct b
    end; eexists; reflexivity.
  - rewrite Hr. cbn [bind]. destruct r; eexists; reflexivity.
Qed.

(** On the small problem [query] returns, and returns the model it got. *)
Lemma query_returns_final_state_witness :
  exists o,
    Ctm.query ref_ext tiny_data tiny_model tiny_query (tiny_plan 1 1) console0
      = Ok o /\
    fst (Ctm.q_returned o) = tiny_model.
Proof.
  destruct (@query_returns _ _ ref_ext tiny_data tiny_model tiny_query
              (tiny_plan 1 1) console0 _ eq_refl tiny_sigT_inverse)
    as (o & Ho).
  exists o. split; [exact Ho|].
  destruct (@query_returns_final_state _ _ ref_ext tiny_data tiny_model
              tiny_query (tiny_plan 1 1) console0 o Ho) as (H & _).
  exact H.
Defined.

(** ** The same updates in the Bohning variants *)

Module BohningUpdates.
Section Updates.
Context {num : Type} {N : Numeric num}.
Local Open Scope num_scope.

(** [ctm_bohning_fast.py], [train], line 272:
    [np.reciprocal(docLens[:,np.newaxis] * (K-1.)/K + np.diagonal(sigT))] *)
Definition train_varcs (K : nat) (docLens : list num)
    (sigT : list (list num)) : list (list num) :=
  map (fun nd => map (fun x => one /! (nd *! (ofnat K -! one) /! ofnat K +! x))
                     (diagonal sigT)) docLens.

(** The literal [1E-300]. *)
Definition tiny_float : num := nZ 1 /! nZ (10 ^ 300).

(** [src/model/ctm_bohning.py], [train], lines 209-211:
    [vocab *= (R.T.dot(expMeans)).T; vocab = normalizerows_ip(vocab);
     vocab += 1E-300] *)
Definition update_vocab (W : csr_matrix num) (expMeans vocab : list (list num))
    : list (list num) :=
  let R := sparseScalarQuotientOfDot W expMeans vocab in
  let vocab := mat_zip nmul vocab (spT_dot_T R expMeans) in
  let vocab := normalizerows_ip vocab in
  mat_map (fun x => x +! tiny_float) vocab.
End Updates.
End BohningUpdates.

Section BohningUpdateFacts.
Local Open Scope R_scope.

(** The variances of the Bohning model, in [train] and in [query], are
    positive when there is a topic, the document lengths are non-negative
    and the diagonal that is added is positive. *)
Lemma bohning_varcs_positive (K : nat) (docLens : list R)
    (sigT : list (list R)) :
  (1 <= K)%nat ->
  Forall (fun x => 0 <= x) docLens ->
  Forall (fun x => 0 < x) (diagonal sigT) ->
  allM (fun x => 0 < x) (BohningUpdates.train_varcs K docLens sigT).
Proof.
  intros HK Hn Hd. unfold BohningUpdates.train_varcs, allM.
  apply Forall_map. eapply Forall_impl; [|exact Hn].
  intros nd Hnd. apply Forall_map. eapply Forall_impl; [|exact Hd].
  intros x Hx. cbn in Hnd, Hx. unfold one, ofnat. cbn.
  assert (Hk : 1 <= IZR (Z.of_nat K)) by (apply IZR_le; lia).
  apply Rdiv_lt_0_compat; [lra|].
  assert (0 <= nd * (IZR (Z.of_nat K) - 1) / IZR (Z.of_nat K)).
  { apply Rdiv_nonneg; [|lra]. apply Rmult_le_pos; lra. }
  lra.
Qed.

Lemma bohning_query_varcs_positive (modelState : CtmBohningFast.ModelState R)
    (queryState : CtmBohningFast.QueryState R) (isigT : list (list R)) :
  (1 <= CtmBohningFast.K modelState)%nat ->
  Forall (fun x => 0 <= x) (CtmBohningFast.docLens queryState) ->
  Forall (fun x => 0 < x) (diagonal isigT) ->
  allM (fun x => 0 < x) (CtmBohningFast.query_varcs modelState queryState isigT).
Proof.
  intros HK Hn Hd.
  exact (@bohning_varcs_positive _ _ isigT HK Hn Hd).
Qed.

Lemma tiny_float_positive : 0 < @BohningUpdates.tiny_float R RNum.
Proof.
  unfold BohningUpdates.tiny_float.
  change (0 < IZR 1 / IZR (10 ^ 300)).
  apply Rdiv_lt_0_compat; apply IZR_lt; [lia|].
  apply Z.pow_pos_nonneg; lia.
Qed.

Lemma vsum_map_add (c : R) (l : list R) :
  vsum (map (fun x => x + c) l) = vsum l + INR (length l) * c.
Proof.
  induction l as [|x l IH]; cbn [map length].
  - rewrite vsum_nil. cbn. ring.
  - rewrite !vsum_cons, IH, S_INR. ring.
Qed.

(** The last two steps of the older vocabulary update: a row with
    non-negative entries and a positive sum is left with positive entries
    that sum to one plus [1E-300] for each term. *)
Lemma legacy_vocab_rows (M : list (list R)) :
  Forall (fun r => Forall (fun x => 0 <= x) r /\ 0 < vsum r) M ->
  Forall (fun r => vsum r = 1 + INR (length r) * BohningUpdates.tiny_float
                   /\ Forall (fun x => 0 < x) r)
    (mat_map (fun x => x + BohningUpdates.tiny_float) (normalizerows_ip M)).
Proof.
  intros HM. unfold mat_map, normalizerows_ip. rewrite map_map.
  apply Forall_map. eapply Forall_impl; [|exact HM].
  intros r [Hr Hs]. cbn beta. pose proof tiny_float_positive as He. split.
  - rewrite vsum_map_add, !length_map.
    change (fun x : R => ndiv x (vsum r)) with (fun x : R => x / vsum r).
    rewrite vsum_map_div. field. lra.
  - rewrite map_map. apply Forall_map. eapply Forall_impl; [|exact Hr].
    intros x Hx. cbn beta in Hx |- *.
    change (0 < x / vsum r + BohningUpdates.tiny_float).
    assert (0 <= x / vsum r) by (apply Rdiv_nonneg; lra).
    lra.
Qed.
End BohningUpdateFacts.

(** * Further properties of the code *)

(** ** Where a loop returns *)

Section ReturnInLoop.
Variables St Ret : Type.
Variable body : nat -> St -> Exec (St + Ret).

(** A value returned from inside the loop was returned by some iteration
    [j], which the loop had reached without returning. *)
Lemma for_range_return_at (count itr : nat) (st : St) (r : Ret) :
  for_range body itr count st = Ok (inr r) ->
  exists j st1,
    (itr <= j < itr + count)%nat /\
    for_range body itr (j - itr) st = Ok (inl st1) /\
    body j st1 = Ok (inr r).
Proof.
  revert itr st. induction count as [|n IH]; intros itr st H;
    cbn [for_range] in H; [discriminate|].
  destruct (body itr st) as [[st1|r1]|e] eqn:Hb; try discriminate.
  - destruct (IH _ _ H) as (j & st2 & Hj & Hpre & Hret).
    exists j, st2. split; [lia|]. split; [|exact Hret].
    replace (j - itr)%nat with (S (j - S itr)) by lia.
    cbn [for_range]. rewrite Hb. exact Hpre.
  - inversion H; subst. exists itr, st. rewrite Nat.sub_diag.
    split; [lia|]. split; [reflexivity | exact Hb].
Qed.
End ReturnInLoop.

(** ** The exceptions of [train] *)

Lemma store_overflow (A : Type) (l : list A) (i : nat) (v : A) :
  (length l <= i)%nat -> store l i v = Raise IndexError.
Proof.
  revert i. induction l as [|x l IH]; intros [|i] Hi; cbn in *; try lia; auto.
  rewrite IH by lia. reflexivity.
Qed.

Section TrainExceptions.
Context {num : Type} {N : Numeric num}.
Variable ext : Externals num.
Variable dataset : DataSet num.
Variable modelState : Ctm.ModelState num.
Variable queryState : Ctm.QueryState num.
Variable trainPlan : Ctm.TrainPlan num.

Lemma var_bound_raises (data : DataSet num) (m : Ctm.ModelState num)
    (q : Ctm.QueryState num) (e : PyErr) :
  Ctm.var_bound ext data m q = Raise e -> e = LinAlgError.
Proof.
  unfold Ctm.var_bound. destruct (la_inv ext (Ctm.sigT m)); [discriminate|].
  intros H; inversion H; reflexivity.
Qed.

Lemma debugFn_raises (itr : nat) (X : list num) (name : string)
    (W : csr_matrix num) (K : nat) (topicMean : list num)
    (sigT vocab : list (list num)) (vocabPrior : num) (dtype : DType)
    (means varcs lxi : list (list num)) (s n : list num) (c : Console num)
    (e : PyErr) :
  Ctm.debugFn ext trainPlan itr X name W K topicMean sigT vocab vocabPrior
    dtype means varcs lxi s n c = Raise e ->
  e = LinAlgError.
Proof.
  unfold Ctm.debugFn. destruct (Ctm.debug trainPlan).
  - unfold Ctm._debug_with_bound. intros H.
    match type of H with
    | bind ?m _ = _ => destruct m as [r|e'] eqn:E
    end.
    + discriminate H.
    + cbn [bind] in H. inversion H; subst. eapply var_bound_raises; eauto.
  - discriminate.
Qed.

(** The updates of an iteration raise nothing but what [la.inv] raises
    inside the debug printer. *)
Lemma updates_raises (itr : nat) (st : Ctm.TrainSt num) (e : PyErr) :
  Ctm.updates ext dataset modelState queryState trainPlan itr st = Raise e ->
  e = LinAlgError.
Proof.
  unfold Ctm.updates. intros H.
  repeat match type of H with
         | bind (Ctm.precision _ _ _) _ = _ =>
             rewrite precision_diagonal in H; cbn [bind fst snd] in H
         | bind (Ctm.debugFn ?a ?b ?c ?d ?e0 ?f ?g ?h ?i ?j ?k ?l ?m ?n ?o ?p ?q ?r)
                _ = _ =>
             let E := fresh "E" in
             destruct (Ctm.debugFn a b c d e0 f g h i j k l m n o p q r)
               as [?|?] eqn:E;
             [ cbn [bind] in H
             | cbn [bind] in H; inversion H; subst;
               eapply debugFn_raises; exact E ]
         | _ => progress cbn [Ctm.negJakkolaOfDerivedXi fst snd] in H
         end.
  discriminate H.
Qed.
End TrainExceptions.

(** X1.  [train] of [ctm.py] allocates its trace with
    [iterations // logFrequency] before anything else: with a
    [logFrequency] of zero it raises [ZeroDivisionError], whatever the data,
    the states and the rest of the plan, although the loop itself tests
    [logFrequency > 0]. *)
Theorem train_zero_logFrequency
    {num : Type} {N : Numeric num} (ext : Externals num)
    (dataset : DataSet num) (modelState : Ctm.ModelState num)
    (queryState : Ctm.QueryState num) (trainPlan : Ctm.TrainPlan num)
    (c : Console num) :
  Ctm.logFrequency trainPlan = 0%nat ->
  Ctm.train ext dataset modelState queryState trainPlan c
  = Raise ZeroDivisionError.
Proof.
  intros H. unfold Ctm.train, Ctm.initial_state. rewrite H. reflexivity.
Qed.

Lemma train_zero_logFrequency_witness :
  Ctm.train ref_ext tiny_data tiny_model tiny_query (tiny_plan 5 0) console0
  = Raise ZeroDivisionError.
Proof.
  apply (@train_zero_logFrequency R RNum ref_ext tiny_data tiny_model
           tiny_query (tiny_plan 5 0) console0).
  reflexivity.
Defined.

(** X2.  The trace of [train] has [iterations // logFrequency] slots, but a
    checkpoint is due at every multiple of [logFrequency] below
    [iterations].  When [iterations] is not a multiple of [logFrequency] and
    the loop arrives at iteration [(iterations // logFrequency) *
    logFrequency], the checkpoint there finds no slot: [train] raises
    [IndexError], unless [la.inv] has raised in that iteration before. *)
Theorem train_overruns_trace
    {num : Type} {N : Numeric num} (ext : Externals num)
    (dataset : DataSet num) (modelState : Ctm.ModelState num)
    (queryState : Ctm.QueryState num) (trainPlan : Ctm.TrainPlan num)
    (c : Console num) (st0 st : Ctm.TrainSt num) :
  let L := Ctm.logFrequency trainPlan in
  let slots := (Ctm.iterations trainPlan / L)%nat in
  Ctm.initial_state ext modelState queryState trainPlan c = Ok st0 ->
  (Ctm.iterations trainPlan mod L <> 0)%nat ->
  for_range (Ctm.iteration ext dataset modelState queryState trainPlan)
    0 (slots * L) st0 = Ok (inl st) ->
  Ctm.train ext dataset modelState queryState trainPlan c = Raise IndexError \/
  Ctm.train ext dataset modelState queryState trainPlan c = Raise LinAlgError.
Proof.
  intros L slots H0 Hmod Hrun.
  assert (Hs : log_slots trainPlan (slots * L) st)
    by (eapply log_slots_reached; eauto).
  pose proof Hs as (HL & _). fold L in HL.
  pose proof (Nat.div_mod_eq (Ctm.iterations trainPlan) L) as Ediv.
  fold slots in Ediv.
  assert (Hlt : (slots * L < Ctm.iterations trainPlan)%nat) by lia.
  assert (Hit : Ctm.iteration ext dataset modelState queryState trainPlan
                  (slots * L) st = Raise IndexError \/
                Ctm.iteration ext dataset modelState queryState trainPlan
                  (slots * L) st = Raise LinAlgError).
  { unfold Ctm.iteration.
    destruct (Ctm.updates ext dataset modelState queryState trainPlan
                (slots * L) st) as [st1|e] eqn:Hup; cbn [bind].
    - assert (Hs1 : log_slots trainPlan (slots * L) st1)
        by (eapply log_slots_updates; eauto).
      assert (Hm : ((slots * L) mod L = 0)%nat) by apply Nat.Div0.mod_mul.
      pose proof (log_slots_index Hs1 Hm) as Hb.
      fold L in Hb. rewrite Nat.div_mul in Hb by lia.
      destruct Hs1 as (_ & _ & _ & Hv & _). fold L slots in Hv.
      unfold Ctm.checkpoint. fold L.
      assert (Hc : ((0 <? L)%nat && ((slots * L) mod L =? 0)%nat) = true).
      { apply andb_true_intro. split; [apply Nat.ltb_lt; exact HL|].
        apply Nat.eqb_eq; exact Hm. }
      rewrite Hc.
      destruct (Ctm.var_bound ext dataset (Ctm.current_model modelState st1)
                  (Ctm.current_query queryState st1)) as [r|e] eqn:Hvb;
        cbn [bind].
      + left. rewrite store_overflow by (rewrite Hb, Hv; lia). reflexivity.
      + right. apply var_bound_raises in Hvb. subst e. reflexivity.
    - right. apply updates_raises in Hup. subst e. reflexivity. }
  unfold Ctm.train. rewrite H0. cbn [bind].
  replace (Ctm.iterations trainPlan)
    with (slots * L + S (Ctm.iterations trainPlan - slots * L - 1))%nat by lia.
  rewrite for_range_app, Hrun. cbn [for_range Nat.add].
  destruct Hit as [Hit|Hit]; rewrite Hit; cbn [bind]; auto.
Qed.

Lemma train_overruns_trace_witness :
  Ctm.train ref_ext tiny_data tiny_model tiny_query (tiny_plan 1 2) console0
    = Raise IndexError \/
  Ctm.train ref_ext tiny_data tiny_model tiny_query (tiny_plan 1 2) console0
    = Raise LinAlgError.
Proof.
  destruct (@tiny_initial_state 1 2 ltac:(discriminate)) as [st0 H0].
  apply (@train_overruns_trace R RNum ref_ext tiny_data tiny_model tiny_query
           (tiny_plan 1 2) console0 st0 st0 H0).
  - cbn. discriminate.
  - reflexivity.
Defined.

(** ** The trace of [train] *)

Section Trace.
Context {num : Type} {N : Numeric num}.
Variable ext : Externals num.
Variable dataset : DataSet num.
Variable modelState : Ctm.ModelState num.
Variable queryState : Ctm.QueryState num.
Variable trainPlan : Ctm.TrainPlan num.

Local Abbreviation L := (Ctm.logFrequency trainPlan).

(** A checkpoint that leaves [train] is a logging one at which the
    early-stop test holds. *)
Lemma checkpoint_returns_stops (itr : nat) (st1 : Ctm.TrainSt num)
    (o : Ctm.TrainOutput num) :
  Ctm.checkpoint ext dataset modelState queryState trainPlan itr st1
    = Ok (inr o) ->
  (0 < L)%nat /\ (itr mod L = 0)%nat /\
  stops ext dataset modelState queryState itr st1 = true.
Proof.
  intros H.
  assert (Hlog : (0 < L)%nat /\ (itr mod L = 0)%nat).
  { unfold Ctm.checkpoint in H.
    destruct (0 <? L)%nat eqn:E0; cbn [andb] in H; [|discriminate].
    destruct (Nat.eqb_spec (itr mod L) 0) as [E1|E1]; [|discriminate].
    apply Nat.ltb_lt in E0. auto. }
  destruct Hlog as [HL Hmod]. split; [exact HL|]. split; [exact Hmod|].
  assert (Hvb : exists r,
            Ctm.var_bound ext dataset (Ctm.current_model modelState st1)
              (Ctm.current_query queryState st1) = Ok r).
  { unfold Ctm.checkpoint in H.
    destruct ((0 <? L)%nat && (itr mod L =? 0)%nat); [|discriminate].
    bind_ok H. eauto. }
  destruct Hvb as [r Hvb].
  destruct (@checkpoint_slot _ _ ext dataset modelState queryState trainPlan
              itr st1 _ HL Hmod H) as (R1 & R2 & R3).
  destruct (@checkpoint_decision _ _ ext dataset modelState queryState
              trainPlan itr st1 r HL Hmod Hvb R1 R2 R3) as (c & Hdec).
  rewrite H in Hdec.
  destruct (stops ext dataset modelState queryState itr st1);
    [reflexivity | discriminate Hdec].
Qed.

(** The slots below [bvIdx] hold the iterations that were logged. *)
Definition logged (itr : nat) (st : Ctm.TrainSt num) : Prop :=
  log_slots trainPlan itr st /\
  forall j, (j < Ctm.t_bvIdx st)%nat ->
            nth j (Ctm.t_boundIters st) 0%nat = (j * L)%nat.

Lemma logged_iteration (itr : nat) (st st' : Ctm.TrainSt num) :
  logged itr st ->
  Ctm.iteration ext dataset modelState queryState trainPlan itr st
    = Ok (inl st') ->
  logged (S itr) st'.
Proof.
  intros [Hs Hl] Hit.
  split; [eapply log_slots_iteration; eauto|].
  unfold Ctm.iteration in Hit. bind_ok Hit.
  assert (Hs1 : log_slots trainPlan itr a)
    by (eapply log_slots_updates; eauto).
  apply updates_next_state in E.
  assert (Hl1 : forall j, (j < Ctm.t_bvIdx a)%nat ->
                          nth j (Ctm.t_boundIters a) 0%nat = (j * L)%nat).
  { rewrite E. exact Hl. }
  clear E Hl Hs. pose proof Hs1 as (HL & _).
  destruct (Nat.eq_dec (itr mod L) 0) as [Hmod|Hmod].
  - assert (Hvb : exists r,
              Ctm.var_bound ext dataset (Ctm.current_model modelState a)
                (Ctm.current_query queryState a) = Ok r).
    { assert (Hc : ((0 <? L)%nat && (itr mod L =? 0)%nat) = true).
      { apply andb_true_intro. split; [apply Nat.ltb_lt; exact HL|].
        apply Nat.eqb_eq; exact Hmod. }
      pose proof Hit as Hit'. unfold Ctm.checkpoint in Hit'.
      rewrite Hc in Hit'. bind_ok Hit'. eauto. }
    destruct Hvb as [r Hvb].
    destruct (@checkpoint_slot _ _ ext dataset modelState queryState trainPlan
                itr a _ HL Hmod Hit) as (R1 & R2 & R3).
    destruct (@checkpoint_decision _ _ ext dataset modelState queryState
                trainPlan itr a r HL Hmod Hvb R1 R2 R3) as (c & Hdec).
    rewrite Hit in Hdec.
    destruct (stops ext dataset modelState queryState itr a);
      [discriminate Hdec|].
    injection Hdec as ->. cbn [Ctm.t_bvIdx Ctm.t_boundIters Ctm.with_log].
    intros j Hj.
    destruct (Nat.eq_dec j (Ctm.t_bvIdx a)) as [->|Hne].
    + rewrite nth_put_same by exact R3.
      rewrite (log_slots_index Hs1 Hmod).
      pose proof (Nat.div_mod_eq itr L) as Ed. rewrite Hmod in Ed. lia.
    + rewrite nth_put_other by auto. apply Hl1. lia.
  - unfold Ctm.checkpoint in Hit.
    destruct (Nat.eqb_spec (itr mod L) 0) as [E1|_]; [contradiction|].
    rewrite andb_false_r in Hit. injection Hit as <-. exact Hl1.
Qed.

Lemma logged_reached (c : Console num) (st0 st : Ctm.TrainSt num) (itr : nat) :
  Ctm.initial_state ext modelState queryState trainPlan c = Ok st0 ->
  for_range (Ctm.iteration ext dataset modelState queryState trainPlan)
    0 itr st0 = Ok (inl st) ->
  logged itr st.
Proof.
  intros H0 Hrun.
  assert (Hinit : logged 0 st0).
  { split; [eapply log_slots_initial; eauto|].
    apply initial_state_arrays in H0.
    destruct H0 as (_ & _ & _ & _ & _ & Hb & _). rewrite Hb. intros j Hj; lia. }
  change itr with (0 + itr)%nat.
  eapply for_range_indexed; [|exact Hinit|exact Hrun].
  intros; eapply logged_iteration; eauto.
Qed.
End Trace.

(** X3.  When the loop of [train] runs to its end, the trace it returns has
    [iterations // logFrequency] entries in each of its three arrays, and
    [boundIters] holds the iterations of the checkpoints: 0, [logFrequency],
    twice [logFrequency], and so on. *)
Theorem train_logs_checkpoint_iterations
    {num : Type} {N : Numeric num} (ext : Externals num)
    (dataset : DataSet num) (modelState : Ctm.ModelState num)
    (queryState : Ctm.QueryState num) (trainPlan : Ctm.TrainPlan num)
    (c : Console num) (st0 st : Ctm.TrainSt num) :
  let L := Ctm.logFrequency trainPlan in
  let slots := (Ctm.iterations trainPlan / L)%nat in
  Ctm.initial_state ext modelState queryState trainPlan c = Ok st0 ->
  for_range (Ctm.iteration ext dataset modelState queryState trainPlan)
    0 (Ctm.iterations trainPlan) st0 = Ok (inl st) ->
  exists o boundValues likelyValues,
    Ctm.train ext dataset modelState queryState trainPlan c = Ok o /\
    snd (Ctm.returned o)
      = (map (fun j => (j * L)%nat) (seq 0 slots), boundValues, likelyValues) /\
    length boundValues = slots /\ length likelyValues = slots.
Proof.
  intros L slots H0 Hrun.
  assert (Hlog : logged trainPlan (Ctm.iterations trainPlan) st)
    by (eapply logged_reached; eauto).
  destruct Hlog as [Hs Hl].
  destruct Hs as (HL & Hb & Hi & Hv & Hk). fold L slots in HL, Hb, Hi, Hv, Hk.
  fold L in Hl.
  exists (Ctm.final_output modelState queryState st),
         (Ctm.t_boundValues st), (Ctm.t_likelyValues st).
  split; [|split; [|split; assumption]].
  - unfold Ctm.train. rewrite H0. cbn [bind]. rewrite Hrun. reflexivity.
  - cbn [Ctm.final_output Ctm.returned snd]. f_equal. f_equal.
    pose proof (Nat.div_mod_eq (Ctm.iterations trainPlan) L) as Ed.
    fold slots in Ed.
    assert (Hge : (slots <= Ctm.t_bvIdx st)%nat) by nia.
    apply nth_ext with (d := 0%nat) (d' := 0%nat).
    + rewrite length_map, length_seq. exact Hi.
    + intros j Hj. rewrite Hi in Hj.
      rewrite nth_map_seq by exact Hj. apply Hl. lia.
Qed.

Lemma train_logs_checkpoint_iterations_witness :
  exists o boundValues likelyValues,
    Ctm.train ref_ext tiny_data tiny_model tiny_query (tiny_plan 80 40) console0
      = Ok o /\
    snd (Ctm.returned o) = ([0; 40]%nat, boundValues, likelyValues) /\
    length boundValues = 2%nat /\ length likelyValues = 2%nat.
Proof.
  assert (HL : (0 < 40)%nat) by lia.
  destruct (@tiny_run 2 40 HL 80) as (st0 & st & H0 & Hrun & _);
    [lia | intros; lia |].
  exact (@train_logs_checkpoint_iterations R RNum ref_ext tiny_data tiny_model
           tiny_query (tiny_plan 80 40) console0 st0 st H0 Hrun).
Defined.

(** X4.  [train] returns from inside its loop only at a checkpoint of an
    iteration that is at least 30 and at least twice [logFrequency].  So a
    plan of at most 30 iterations, or of at most two checkpoints, is run to
    its end: whatever [train] returns then is the state after the last
    iteration, with the full trace. *)
Theorem train_runs_short_plans
    {num : Type} {N : Numeric num} (ext : Externals num)
    (dataset : DataSet num) (modelState : Ctm.ModelState num)
    (queryState : Ctm.QueryState num) (trainPlan : Ctm.TrainPlan num)
    (c : Console num) (o : Ctm.TrainOutput num) :
  Ctm.train ext dataset modelState queryState trainPlan c = Ok o ->
  (Ctm.iterations trainPlan <= 30)%nat \/
  (Ctm.iterations trainPlan <= 2 * Ctm.logFrequency trainPlan)%nat ->
  exists st,
    reaches ext dataset modelState queryState trainPlan c
      (Ctm.iterations trainPlan) st /\
    o = Ctm.final_output modelState queryState st.
Proof.
  intros H Hshort. unfold Ctm.train in H. do 2 bind_ok H.
  destruct a0 as [st|o'].
  - injection H as <-. exists st. split; [|reflexivity].
    exists a. split; [exact E | exact E0].
  - exfalso. injection H as ->.
    pose proof E0 as E1. apply for_range_return_at in E1.
    destruct E1 as (j & st1 & Hj & Hpre & Hret).
    rewrite Nat.sub_0_r in Hpre.
    assert (Hs : log_slots trainPlan j st1)
      by (eapply log_slots_reached; eauto).
    unfold Ctm.iteration in Hret. bind_ok Hret.
    assert (Hs1 : log_slots trainPlan j a0)
      by (eapply log_slots_updates; eauto).
    destruct (@checkpoint_returns_stops _ _ ext dataset modelState queryState
                trainPlan j a0 _ Hret) as (HL & Hmod & Hstop).
    pose proof (log_slots_index Hs1 Hmod) as Hb.
    unfold stops in Hstop. rewrite Hb in Hstop.
    apply andb_true_iff in Hstop. destruct Hstop as [Hstop _].
    apply andb_true_iff in Hstop. destruct Hstop as [H1 H30].
    apply Nat.ltb_lt in H1. apply Nat.leb_le in H30.
    pose proof (Nat.div_mod_eq j (Ctm.logFrequency trainPlan)) as Ed.
    rewrite Hmod in Ed. nia.
Qed.

Lemma train_runs_short_plans_witness :
  exists st,
    reaches ref_ext tiny_data tiny_model tiny_query (tiny_plan 80 40) console0
      80 st /\
    Ctm.train ref_ext tiny_data tiny_model tiny_query (tiny_plan 80 40) console0
      = Ok (Ctm.final_output tiny_model tiny_query st).
Proof.
  assert (HL : (0 < 40)%nat) by lia.
  destruct (@tiny_run 2 40 HL 80) as (st0 & stN & H0 & Hrun & _);
    [lia | intros; lia |].
  assert (Htrain : Ctm.train ref_ext tiny_data tiny_model tiny_query
                     (tiny_plan 80 40) console0
                   = Ok (Ctm.final_output tiny_model tiny_query stN)).
  { unfold Ctm.train. change (2 * 40)%nat with 80%nat in *.
    rewrite H0. cbn [bind Ctm.iterations tiny_plan]. rewrite Hrun.
    reflexivity. }
  destruct (@train_runs_short_plans R RNum ref_ext tiny_data tiny_model
              tiny_query (tiny_plan 80 40) console0 _ Htrain)
    as (st & Hreach & Ho).
  - right. cbn. lia.
  - exists st. split; [exact Hreach|]. rewrite <- Ho. exact Htrain.
Defined.

(** ** The rest of [sidetopics/model/ctm.py] *)

Module CtmRest.
Section Model.
Context {num : Type} {N : Numeric num}.
Local Open Scope num_scope.

(** [M[d,:]] and [v[d]] for an index that is not negative. *)
Definition row_at (M : list (list num)) (d : nat) : Exec (list num) :=
  match nth_error M d with
  | Some r => Ok r
  | None => Raise IndexError
  end.

Definition item_at (v : list num) (d : nat) : Exec num :=
  match nth_error v d with
  | Some x => Ok x
  | None => Raise IndexError
  end.

(** [np.sqrt(means[d,:]**2 - 2 * means[d,:] * s[d] + s[d]**2 + varcs[d,:]**2)],
    with [m = means[d,:]], [v = varcs[d,:]] and [x = s[d]]. *)
Definition xi_row (m v : list num) (x : num) : list num :=
  map nsqrt
    (zipWith nadd
       (map (fun y => y +! Ctm.sq x)
          (zipWith nsub (map Ctm.sq m)
             (map (fun y => y *! x) (map (nmul two) m))))
       (map Ctm.sq v)).

(** [negJakkolaOfDerivedXi(means, varcs, s, d)] with a document index [d]. *)
Definition negJakkolaOfDerivedXi_at (means varcs : list (list num))
    (s : list num) (d : nat) (c : Console num)
    : Exec (list num * Console num) :=
  let c := Ctm.report "Means " (concat means) c in
  let c := Ctm.report "s " s c in
  let c := Ctm.report "lxi " (concat varcs) c in
  m <- row_at means d ;;
  x <- item_at s d ;;
  v <- row_at varcs d ;;
  Ok (map Ctm.negJakkola1 (xi_row m v x), c).

(** [0.5/x * (0.5 - 1./(1 + np.exp(-x)))] *)
Definition jakkola1 (x : num) : num :=
  (lit 1 2 /! x) *! (lit 1 2 -! (one /! (one +! nexp (nneg x)))).

(** [jakkolaOfDerivedXi(means, varcs, s)], with [d = None]. *)
Definition jakkolaOfDerivedXi (means varcs : list (list num)) (s : list num)
    (c : Console num) : list (list num) * Console num :=
  let c := Ctm.report "Means " (concat means) c in
  let c := Ctm.report "s " s c in
  let c := Ctm.report "lxi " (concat varcs) c in
  (mat_map jakkola1 (Ctm._deriveXi means varcs s), c).

(** [jakkolaOfDerivedXi(means, varcs, s, d)] with a document index [d]: the
    branch of line 547 computes [0.5/vec * (1./(1 + np.exp(-vec)) - 0.5)]. *)
Definition jakkolaOfDerivedXi_at (means varcs : list (list num))
    (s : list num) (d : nat) (c : Console num)
    : Exec (list num * Console num) :=
  let c := Ctm.report "Means " (concat means) c in
  let c := Ctm.report "s " s c in
  let c := Ctm.report "lxi " (concat varcs) c in
  m <- row_at means d ;;
  x <- item_at s d ;;
  v <- row_at varcs d ;;
  Ok (map Ctm.negJakkola1 (xi_row m v x), c).

(** [verifyProper(X, xName)] *)
Definition verifyProper (X : list num) (xName : string) (c : Console num)
    : Console num :=
  let c := if any_nan X
           then print (Text (append xName " contains NaNs")) c else c in
  if any_inf X then print (Text (append xName " contains Infs")) c else c.

(** [newTrainPlan(iterations, epsilon, logFrequency, fastButInaccurate, debug)] *)
Definition newTrainPlan (iterations : nat) (epsilon : num)
    (logFrequency : nat) (fastButInaccurate debug : bool)
    : Ctm.TrainPlan num :=
  {| Ctm.iterations := iterations; Ctm.epsilon := epsilon;
     Ctm.logFrequency := logFrequency;
     Ctm.fastButInaccurate := fastButInaccurate; Ctm.debug := debug |}.

(** The defaults of [newTrainPlan]; [DEBUG] is [True] in this file. *)
Definition defaultTrainPlan : Ctm.TrainPlan num :=
  newTrainPlan 100 two 10 false true.
End Model.
End CtmRest.

Section DerivedXiRows.
Context {num : Type} {N : Numeric num}.

Lemma deriveXi_cons (m v : list num) (x : num) (M V : list (list num))
    (s : list num) :
  Ctm._deriveXi (m :: M) (v :: V) (x :: s)
  = CtmRest.xi_row m v x :: Ctm._deriveXi M V s.
Proof. reflexivity. Qed.

Lemma deriveXi_row (means varcs : list (list num)) (s : list num) (d : nat)
    (m v : list num) (x : num) :
  nth_error means d = Some m -> nth_error s d = Some x ->
  nth_error varcs d = Some v ->
  nth_error (Ctm._deriveXi means varcs s) d = Some (CtmRest.xi_row m v x).
Proof.
  revert means varcs s.
  induction d as [|d IH]; intros [|m0 M] [|v0 V] [|x0 s] Hm Hx Hv;
    cbn [nth_error] in Hm, Hx, Hv; try discriminate.
  - inversion Hm; inversion Hx; inversion Hv; subst.
    rewrite deriveXi_cons. reflexivity.
  - rewrite deriveXi_cons. cbn [nth_error]. apply IH; assumption.
Qed.

Lemma nth_error_nth_nil (A : Type) (M : list (list A)) (d : nat) (r : list A) :
  nth_error M d = Some r -> nth d M nil = r.
Proof. intros H. apply nth_error_nth. exact H. Qed.
End DerivedXiRows.

(** X5.  [negJakkolaOfDerivedXi] called with a document index [d] returns
    row [d] of what it returns without one, and prints the same lines, for
    every [d] below the lengths of [means], [s] and [varcs]; for any other
    [d] it raises [IndexError]. *)
Theorem negJakkola_row_of_matrix
    {num : Type} {N : Numeric num} (means varcs : list (list num))
    (s : list num) (d : nat) (c : Console num) :
  let full := Ctm.negJakkolaOfDerivedXi means varcs s c in
  let inside := (d < length means)%nat /\ (d < length s)%nat
                /\ (d < length varcs)%nat in
  (inside ->
   CtmRest.negJakkolaOfDerivedXi_at means varcs s d c
   = Ok (nth d (fst full) nil, snd full)) /\
  (~ inside ->
   CtmRest.negJakkolaOfDerivedXi_at means varcs s d c = Raise IndexError).
Proof.
  intros full inside. split.
  - intros (Hm & Hs & Hv).
    pose proof (nth_error_nth' means nil Hm) as Em.
    pose proof (nth_error_nth' s zero Hs) as Es.
    pose proof (nth_error_nth' varcs nil Hv) as Ev.
    unfold CtmRest.negJakkolaOfDerivedXi_at, CtmRest.row_at, CtmRest.item_at.
    rewrite Em, Es, Ev. cbn [bind]. unfold full.
    cbn [Ctm.negJakkolaOfDerivedXi fst snd]. f_equal. f_equal.
    rewrite row_mat_map. f_equal. symmetry.
    apply nth_error_nth. apply deriveXi_row; assumption.
  - intros Hout.
    unfold CtmRest.negJakkolaOfDerivedXi_at, CtmRest.row_at, CtmRest.item_at.
    destruct (nth_error means d) as [m|] eqn:Em; [|reflexivity].
    destruct (nth_error s d) as [x|] eqn:Es; [|reflexivity].
    destruct (nth_error varcs d) as [v|] eqn:Ev; [|reflexivity].
    exfalso. apply Hout. unfold inside.
    repeat split; apply nth_error_Some; congruence.
Qed.

Section JakkolaFacts.
Local Open Scope R_scope.

Lemma jakkola1_opp (x : R) : CtmRest.jakkola1 x = - Ctm.negJakkola1 x.
Proof. unfold CtmRest.jakkola1, Ctm.negJakkola1, lit, one. cbn. ring. Qed.

Lemma negJakkola1_even (x : R) :
  x <> 0 -> Ctm.negJakkola1 (- x) = Ctm.negJakkola1 x.
Proof.
  intros Hx. unfold Ctm.negJakkola1, lit, one. cbn.
  rewrite Ropp_involutive, (exp_Ropp x).
  pose proof (exp_pos x) as He.
  field. repeat split; lra.
Qed.

Lemma negJakkola1_nonzero_positive (x : R) :
  x <> 0 -> 0 < Ctm.negJakkola1 x.
Proof.
  intros Hx. destruct (Rlt_dec 0 x) as [Hp|Hn].
  - apply negJakkola1_positive. exact Hp.
  - rewrite <- negJakkola1_even by exact Hx.
    apply negJakkola1_positive. lra.
Qed.

Lemma xi_row_positive (m v : list R) (x : R) :
  Forall (fun y => 0 < y) v -> Forall (fun y => 0 < y) (CtmRest.xi_row m v x).
Proof. intros Hv. apply deriveXi_row_positive. exact Hv. Qed.
End JakkolaFacts.

(** X6.  [jakkolaOfDerivedXi] disagrees with itself.  Called with a document
    index it returns what [negJakkolaOfDerivedXi] returns for that index;
    called without one it returns the negation of the matrix of
    [negJakkolaOfDerivedXi].  So the vector for document [d] is the negation
    of row [d] of the matrix, and with positive variances it is positive
    where the row of the matrix is negative. *)
Theorem jakkola_branches_disagree
    (means varcs : list (list R)) (s : list R) (d : nat) (c : Console R) :
  (d < length means)%nat -> (d < length s)%nat -> (d < length varcs)%nat ->
  exists r c',
    CtmRest.jakkolaOfDerivedXi_at means varcs s d c = Ok (r, c') /\
    CtmRest.negJakkolaOfDerivedXi_at means varcs s d c = Ok (r, c') /\
    nth d (fst (CtmRest.jakkolaOfDerivedXi means varcs s c)) nil
      = map Ropp r /\
    (allM (fun x => 0 < x)%R varcs -> Forall (fun y => 0 < y)%R r).
Proof.
  intros Hm Hs Hv.
  pose proof (nth_error_nth' means nil Hm) as Em.
  pose proof (nth_error_nth' s 0%R Hs) as Es.
  pose proof (nth_error_nth' varcs nil Hv) as Ev.
  eexists _, _. split; [|split; [|split]].
  - unfold CtmRest.jakkolaOfDerivedXi_at, CtmRest.row_at, CtmRest.item_at.
    rewrite Em, Es, Ev. cbn [bind]. reflexivity.
  - unfold CtmRest.negJakkolaOfDerivedXi_at, CtmRest.row_at, CtmRest.item_at.
    rewrite Em, Es, Ev. cbn [bind]. reflexivity.
  - cbn [CtmRest.jakkolaOfDerivedXi fst]. rewrite row_mat_map.
    rewrite (nth_error_nth _ _ nil (deriveXi_row _ _ _ _ Em Es Ev)).
    rewrite map_map. apply map_ext. intros x. apply jakkola1_opp.
  - intros Hpos. apply Forall_map.
    assert (Hrow : Forall (fun y => 0 < y)%R (nth d varcs nil)).
    { unfold allM in Hpos. rewrite Forall_forall in Hpos. apply Hpos.
      apply nth_In. exact Hv. }
    pose proof (xi_row_positive (nth d means nil) (nth d s 0%R) Hrow) as Hxi.
    eapply Forall_impl; [|exact Hxi].
    intros y Hy. apply negJakkola1_positive. exact Hy.
Qed.

Lemma jakkola_branches_disagree_witness :
  exists r c',
    CtmRest.jakkolaOfDerivedXi_at [[0; 0]]%R [[1; 1]]%R [0%R] 0 console0
      = Ok (r, c') /\
    nth 0 (fst (CtmRest.jakkolaOfDerivedXi [[0; 0]]%R [[1; 1]]%R [0%R] console0))
      nil = map Ropp r /\
    Forall (fun y => 0 < y)%R r.
Proof.
  destruct (@jakkola_branches_disagree [[0; 0]]%R [[1; 1]]%R [0%R] 0 console0)
    as (r & c' & H1 & _ & H3 & H4); try (cbn; lia).
  exists r, c'. split; [exact H1|]. split; [exact H3|].
  apply H4. each_entry; lra.
Defined.

(** X7.  [negJakkola] is positive and even away from zero: for a vector
    without a zero entry every entry of [negJakkola(vec)] is positive, and
    [negJakkola(-vec)] equals [negJakkola(vec)]. *)
Theorem negJakkola_even_and_positive (v : list R) :
  Forall (fun x => x <> 0)%R v ->
  Forall (fun y => 0 < y)%R (Ctm.negJakkola v) /\
  Ctm.negJakkola (map Ropp v) = Ctm.negJakkola v.
Proof.
  intros Hv. unfold Ctm.negJakkola. split.
  - apply Forall_map. eapply Forall_impl; [|exact Hv].
    intros x Hx. apply negJakkola1_nonzero_positive. exact Hx.
  - rewrite map_map. apply map_ext_in. intros x Hx.
    apply negJakkola1_even. rewrite Forall_forall in Hv. apply Hv. exact Hx.
Qed.

Lemma negJakkola_even_and_positive_witness :
  Forall (fun y => 0 < y)%R (Ctm.negJakkola [1; -2]%R) /\
  Ctm.negJakkola (map Ropp [1; -2]%R) = Ctm.negJakkola [1; -2]%R.
Proof.
  apply (@negJakkola_even_and_positive [1; -2]%R).
  each_entry; lra.
Defined.

(** ** What [newQueryState] builds *)

Lemma sp_sum_axis1_nonneg (W : csr_matrix R) :
  sp_all (fun x => 0 <= x)%R W -> Forall (fun x => 0 <= x)%R (sp_sum_axis1 W).
Proof.
  intros HW. unfold sp_sum_axis1, sp_all in *. apply Forall_map.
  eapply Forall_impl; [|exact HW].
  intros r Hr. cbn beta. apply vsum_nonneg. apply Forall_map. exact Hr.
Qed.

Lemma ones_positive (D K : nat) :
  allM (fun x => 0 < x)%R (repeat (repeat (@one R RNum) K) D).
Proof.
  unfold allM. apply Forall_forall. intros r Hr.
  apply repeat_spec in Hr. subst r.
  apply Forall_forall. intros x Hx. apply repeat_spec in Hx. subst x.
  unfold one. cbn. lra.
Qed.

(** X8.  When the number of terms of the data matches the vocabulary of the
    model, [newQueryState] returns a query state that [train] can start
    from: the document lengths are the row sums of the counts, so they are
    non-negative when the counts are; the variances are all 1; the offsets
    [s] are all 0; and every entry of [lxi] is positive, whatever the random
    draw for the means was. *)
Theorem newQueryState_prepares_train
    (rnd : list (list R)) (data : DataSet R) (modelState : Ctm.ModelState R)
    (c : Console R) :
  sp_cols (words data) = ncols (Ctm.vocab modelState) ->
  sp_all (fun x => 0 <= x)%R (words data) ->
  exists q c',
    Ctm.newQueryState rnd data modelState c = Ok (q, c') /\
    Ctm.docLens q = sp_sum_axis1 (words data) /\
    Forall (fun x => 0 <= x)%R (Ctm.docLens q) /\
    Ctm.varcs q = repeat (repeat 1%R (Ctm.K modelState))
                    (sp_nrows (words data)) /\
    Ctm.s q = repeat 0%R (sp_nrows (words data)) /\
    allM (fun x => 0 < x)%R (Ctm.lxi q).
Proof.
  intros HT HW. unfold Ctm.newQueryState. rewrite HT, Nat.eqb_refl.
  cbn [negb]. eexists _, _. split; [reflexivity|].
  cbn [Ctm.docLens Ctm.varcs Ctm.s Ctm.lxi Ctm.negJakkolaOfDerivedXi fst].
  split; [reflexivity|]. split; [apply sp_sum_axis1_nonneg; exact HW|].
  split; [reflexivity|]. split; [reflexivity|].
  pose proof (deriveXi_positive
                (map (firstn (Ctm.K modelState))
                   (normalizerows_ip
                      (mat_map (nastype (Ctm.dtype modelState)) rnd)))
                (repeat zero (sp_nrows (words data)))
                (ones_positive (sp_nrows (words data)) (Ctm.K modelState)))
    as Hxi.
  unfold mat_map, allM in *. apply Forall_map.
  eapply Forall_impl; [|exact Hxi]. intros r Hr.
  apply Forall_map. eapply Forall_impl; [|exact Hr].
  intros x Hx. apply negJakkola1_positive. exact Hx.
Qed.

Lemma newQueryState_prepares_train_witness :
  exists q c',
    Ctm.newQueryState [[1; 2; 3; 4]]%R tiny_data tiny_model console0
      = Ok (q, c') /\
    Ctm.docLens q = [(3 + 0)%R] /\
    Ctm.varcs q = [[1; 1]]%R /\
    Ctm.s q = [0%R] /\
    allM (fun x => 0 < x)%R (Ctm.lxi q).
Proof.
  destruct (@newQueryState_prepares_train [[1; 2; 3; 4]]%R tiny_data tiny_model
              console0 eq_refl tiny_words_nonneg)
    as (q & c' & H1 & H2 & _ & H4 & H5 & H6).
  exists q, c'. repeat split; assumption.
Defined.

(** ** What [train] reads of the query state *)

(** The part of an outcome of a loop body that a function [f] of the
    returned value shows. *)
Definition shown {St Ret A : Type} (f : Ret -> A) (r : Exec (St + Ret))
    : Exec (St + A) :=
  match r with
  | Ok (inl st) => Ok (inl st)
  | Ok (inr x) => Ok (inr (f x))
  | Raise e => Raise e
  end.

Lemma for_range_shown (St Ret A : Type) (f : Ret -> A)
    (body body' : nat -> St -> Exec (St + Ret)) :
  (forall itr st, shown f (body itr st) = shown f (body' itr st)) ->
  forall count itr st,
    shown f (for_range body itr count st)
    = shown f (for_range body' itr count st).
Proof.
  intros Hb count. induction count as [|n IH]; intros itr st;
    cbn [for_range]; [reflexivity|].
  specialize (Hb itr st).
  destruct (body itr st) as [[a|r]|e], (body' itr st) as [[a'|r']|e'];
    cbn [shown] in Hb; try discriminate Hb.
  - injection Hb as <-. apply IH.
  - cbn [shown]. exact Hb.
  - cbn [shown]. exact Hb.
Qed.

(** What a caller sees of a call of [train], apart from the contents of the
    query state it passed in: the returned triple, the model object and the
    console. *)
Definition train_result {num : Type} (o : Ctm.TrainOutput num) :=
  (Ctm.returned o, Ctm.model_after o, Ctm.console_after o).

Definition train_shown {num : Type} (r : Exec (Ctm.TrainOutput num)) :=
  match r with
  | Ok o => Ok (train_result o)
  | Raise e => Raise e
  end.

Section QueryStateInputs.
Context {num : Type} {N : Numeric num}.
Variable ext : Externals num.
Variable dataset : DataSet num.
Variable modelState : Ctm.ModelState num.
Variable trainPlan : Ctm.TrainPlan num.
Variables q q' : Ctm.QueryState num.
Hypothesis Hmeans : Ctm.means q = Ctm.means q'.
Hypothesis Hvarcs : Ctm.varcs q = Ctm.varcs q'.
Hypothesis Hlxi : Ctm.lxi q = Ctm.lxi q'.
Hypothesis Hlens : Ctm.docLens q = Ctm.docLens q'.
Hypothesis Hs : length (Ctm.s q) = length (Ctm.s q').

Lemma map_const_length (A B : Type) (b : B) (l l' : list A) :
  length l = length l' -> map (fun _ => b) l = map (fun _ => b) l'.
Proof.
  revert l'. induction l as [|x l IH]; intros [|y l'] H; cbn in *;
    try discriminate; auto.
  f_equal. apply IH. lia.
Qed.

Lemma initial_state_inputs (c : Console num) :
  Ctm.initial_state ext modelState q trainPlan c
  = Ctm.initial_state ext modelState q' trainPlan c.
Proof.
  unfold Ctm.initial_state.
  rewrite Hmeans, Hvarcs, Hlxi, (map_const_length zero _ _ Hs). reflexivity.
Qed.

Lemma updates_inputs (itr : nat) (st : Ctm.TrainSt num) :
  Ctm.updates ext dataset modelState q trainPlan itr st
  = Ctm.updates ext dataset modelState q' trainPlan itr st.
Proof. unfold Ctm.updates. rewrite Hlens. reflexivity. Qed.

Lemma checkpoint_inputs (itr : nat) (st : Ctm.TrainSt num) :
  shown train_result
    (Ctm.checkpoint ext dataset modelState q trainPlan itr st)
  = shown train_result
      (Ctm.checkpoint ext dataset modelState q' trainPlan itr st).
Proof.
  unfold Ctm.checkpoint, Ctm.current_query. rewrite Hlens.
  destruct ((0 <? Ctm.logFrequency trainPlan)%nat
            && (itr mod Ctm.logFrequency trainPlan =? 0)%nat); [|reflexivity].
  match goal with
  | |- context [Ctm.var_bound ?a ?b ?c ?d] =>
      destruct (Ctm.var_bound a b c d) as [r|e]; [|reflexivity]
  end.
  cbn [bind].
  destruct (store (Ctm.t_boundValues st) (Ctm.t_bvIdx st) (fst r))
    as [bv|e]; [|reflexivity]. cbn [bind].
  match goal with
  | |- context [store (Ctm.t_likelyValues st) ?i ?v] =>
      destruct (store (Ctm.t_likelyValues st) i v) as [lv|e]; [|reflexivity]
  end.
  cbn [bind].
  destruct (store (Ctm.t_boundIters st) (Ctm.t_bvIdx st) itr)
    as [bi|e]; [|reflexivity]. cbn [bind].
  repeat match goal with
         | |- context [if ?b then _ else _] =>
             match b with
             | context [nltb (nth (Ctm.t_bvIdx st) bv zero)] => fail 1
             | _ => destruct b
             end
         end; reflexivity.
Qed.

Lemma iteration_inputs (itr : nat) (st : Ctm.TrainSt num) :
  shown train_result
    (Ctm.iteration ext dataset modelState q trainPlan itr st)
  = shown train_result
      (Ctm.iteration ext dataset modelState q' trainPlan itr st).
Proof.
  unfold Ctm.iteration. rewrite updates_inputs.
  destruct (Ctm.updates ext dataset modelState q' trainPlan itr st)
    as [st1|e]; cbn [bind]; [apply checkpoint_inputs | reflexivity].
Qed.
End QueryStateInputs.

(** X9.  [train] reads the means, variances, bound parameters and document
    lengths of the query state it is given, and nothing else of it: the
    contents of [expMeans] (it works on a copy of [means]) and the values in
    [s] (it overwrites them with zeros) change neither what [train] returns
    or raises, nor what it prints, nor what it leaves in the model object. *)
Theorem train_ignores_expMeans_and_s
    {num : Type} {N : Numeric num} (ext : Externals num)
    (dataset : DataSet num) (modelState : Ctm.ModelState num)
    (trainPlan : Ctm.TrainPlan num) (q q' : Ctm.QueryState num)
    (c : Console num) :
  Ctm.means q = Ctm.means q' -> Ctm.varcs q = Ctm.varcs q' ->
  Ctm.lxi q = Ctm.lxi q' -> Ctm.docLens q = Ctm.docLens q' ->
  length (Ctm.s q) = length (Ctm.s q') ->
  train_shown (Ctm.train ext dataset modelState q trainPlan c)
  = train_shown (Ctm.train ext dataset modelState q' trainPlan c).
Proof.
  intros Hm Hv Hl Hn Hs. unfold Ctm.train.
  rewrite (@initial_state_inputs _ _ ext modelState trainPlan q q' Hm Hv Hl Hs c).
  destruct (Ctm.initial_state ext modelState q' trainPlan c) as [st0|e];
    cbn [bind]; [|reflexivity].
  pose proof (for_range_shown train_result
                (Ctm.iteration ext dataset modelState q trainPlan)
                (Ctm.iteration ext dataset modelState q' trainPlan)
                (@iteration_inputs _ _ ext dataset modelState trainPlan q q' Hn)
                (Ctm.iterations trainPlan) 0 st0) as Hrun.
  destruct (for_range (Ctm.iteration ext dataset modelState q trainPlan) 0
              (Ctm.iterations trainPlan) st0) as [[a|o]|e],
           (for_range (Ctm.iteration ext dataset modelState q' trainPlan) 0
              (Ctm.iterations trainPlan) st0) as [[a'|o']|e'];
    cbn [shown] in Hrun; try discriminate Hrun; cbn [bind train_shown].
  - injection Hrun as <-. unfold train_result.
    cbn [Ctm.final_output Ctm.returned Ctm.model_after Ctm.console_after].
    unfold Ctm.current_query. rewrite Hn. reflexivity.
  - congruence.
  - congruence.
Qed.

(** The small query state with other contents in [expMeans] and [s]. *)
Definition tiny_query_scratch : Ctm.QueryState R :=
  {| Ctm.means := [[0%R; 0%R]]; Ctm.expMeans := [[9%R; 8%R]];
     Ctm.varcs := [[1%R; 1%R]]; Ctm.lxi := [[1%R; 1%R]];
     Ctm.s := [(-4)%R]; Ctm.docLens := [3%R] |}.

Lemma train_ignores_expMeans_and_s_witness :
  train_shown (Ctm.train ref_ext tiny_data tiny_model tiny_query
                 (tiny_plan 80 40) console0)
  = train_shown (Ctm.train ref_ext tiny_data tiny_model tiny_query_scratch
                   (tiny_plan 80 40) console0).
Proof.
  apply (@train_ignores_expMeans_and_s R RNum ref_ext tiny_data tiny_model
           (tiny_plan 80 40) tiny_query tiny_query_scratch console0);
    reflexivity.
Defined.

(** ** [newModelAtRandom] of [ctm.py]

    The random draws are an argument: [draws] holds the document indices
    [rd.randint(0, data.doc_count, size=1)] yields, in the order of the
    calls, and [rnd] is the vector [rd.random((K,))]. *)

(** How a function that draws from a finite supply ends: it returns, it
    raises, or the supply is used up while it still asks for a draw. *)
Inductive Drawn (A : Type) : Type :=
| Returned (a : A)
| Failed (e : PyErr)
| FailedValueError
| MoreDraws.
Arguments Returned {A} a.
Arguments Failed {A} e.
Arguments FailedValueError {A}.
Arguments MoreDraws {A}.

Module CtmRandom.
Section Model.
Context {num : Type} {N : Numeric num}.
Local Open Scope num_scope.

(** [row[doc.indices] += doc.data] on a one-dimensional array: the values
    are read before any is written, then written in the order of the
    stored entries. *)
Definition add_at (row : list num) (doc : list (nat * num)) : list num :=
  fold_left (fun acc cx => put acc (fst cx) (nth (fst cx) row zero +! snd cx))
            doc row.

Section Sampling.
Variable W : csr_matrix num.

(** Lines 99-104: the [while docLenSum < 1000] loop for one topic; the
    result is the row of the vocabulary and the draws that are left. *)
Fixpoint sample_row (draws : list nat) (row : list num) (docLenSum : num)
    : Drawn (list num * list nat) :=
  if nltb docLenSum (nZ 1000) then
    if (sp_nrows W =? 0)%nat then FailedValueError
    else
      match draws with
      | nil => MoreDraws
      | d :: rest =>
          match nth_error (sp_rows W) d with
          | None => Failed IndexError
          | Some doc =>
              sample_row rest (add_at row doc)
                (docLenSum +! vsum (map snd doc))
          end
      end
  else Returned (row, draws).

(** Lines 97-105: [for k in range(K)], each row starting from ones and
    divided by its sum at the end. *)
Fixpoint sample_rows (k : nat) (draws : list nat)
    : Drawn (list (list num) * list nat) :=
  match k with
  | O => Returned (nil, draws)
  | S k' =>
      match sample_row draws (repeat one (sp_cols W)) zero with
      | Returned (row, rest) =>
          let row := map (fun x => x /! vsum row) row in
          match sample_rows k' rest with
          | Returned (rows, rest') => Returned (row :: rows, rest')
          | Failed e => Failed e
          | FailedValueError => FailedValueError
          | MoreDraws => MoreDraws
          end
      | Failed e => Failed e
      | FailedValueError => FailedValueError
      | MoreDraws => MoreDraws
      end
  end.
End Sampling.

(** [np.eye(K)] *)
Definition eye (K : nat) : list (list num) := np_diag (repeat one K).

(** [newModelAtRandom(data, K, vocabPrior, dtype)] *)
Definition newModelAtRandom (draws : list nat) (rnd : list num)
    (data : DataSet num) (K : nat) (vocabPrior : num) (dtype : DType)
    : Drawn (Ctm.ModelState num) :=
  if negb (1 <? K)%nat then
    Failed (AssertionError "There must be at least two topics")
  else
    match sample_rows (words data) K draws with
    | Returned (vocab, _) =>
        let topicMean := map (nastype dtype) rnd in
        let topicMean := map (fun x => x /! vsum topicMean) topicMean in
        Returned {| Ctm.K := K; Ctm.topicMean := topicMean;
                    Ctm.sigT := eye K; Ctm.vocab := vocab;
                    Ctm.vocabPrior := vocabPrior; Ctm.dtype := dtype;
                    Ctm.name := Ctm.MODEL_NAME |}
    | Failed e => Failed e
    | FailedValueError => FailedValueError
    | MoreDraws => MoreDraws
    end.
End Model.
End CtmRandom.

Section RandomModelFacts.
Local Open Scope R_scope.

Lemma Forall_put (A : Type) (P : A -> Prop) (l : list A) (i : nat) (v : A) :
  Forall P l -> ((i < length l)%nat -> P v) -> Forall P (put l i v).
Proof.
  intros Hl. revert i. induction Hl as [|x l Hx Hl IH]; intros [|i] Hv;
    cbn [put]; constructor; auto.
  - apply Hv. cbn. lia.
  - apply IH. intros Hi. apply Hv. cbn. lia.
Qed.

Lemma add_at_spec (row : list R) (doc : list (nat * R)) :
  Forall (fun x => 1 <= x) row ->
  Forall (fun cx : nat * R => 0 <= snd cx) doc ->
  Forall (fun x => 1 <= x) (CtmRandom.add_at row doc) /\
  length (CtmRandom.add_at row doc) = length row.
Proof.
  intros Hrow Hdoc. unfold CtmRandom.add_at.
  assert (G : forall acc,
            Forall (fun x => 1 <= x) acc -> length acc = length row ->
            Forall (fun x => 1 <= x)
              (fold_left (fun acc cx =>
                            put acc (fst cx) (nadd (nth (fst cx) row zero) (snd cx)))
                         doc acc) /\
            length (fold_left (fun acc cx =>
                            put acc (fst cx) (nadd (nth (fst cx) row zero) (snd cx)))
                         doc acc) = length row).
  { induction Hdoc as [|[c v] doc Hv Hdoc IH]; intros acc Hacc Hlen;
      cbn [fold_left]; [auto|].
    apply IH.
    - apply Forall_put; [exact Hacc|]. intros Hc. cbn [fst snd] in *.
      rewrite Hlen in Hc.
      assert (1 <= nth c row zero).
      { rewrite Forall_forall in Hrow. apply Hrow. apply nth_In. exact Hc. }
      cbn [nadd RNum]. lra.
    - rewrite length_put. exact Hlen. }
  apply G; auto.
Qed.

Lemma sample_row_valid (W : csr_matrix R) (draws rest : list nat)
    (row row' : list R) (total : R) :
  sp_all (fun x => 0 <= x) W ->
  Forall (fun x => 1 <= x) row ->
  CtmRandom.sample_row W draws row total = Returned (row', rest) ->
  Forall (fun x => 1 <= x) row' /\ length row' = length row.
Proof.
  intros HW. revert row total.
  induction draws as [|d draws IH]; intros row total Hrow H;
    cbn [CtmRandom.sample_row] in H;
    destruct (nltb total (nZ 1000)).
  - destruct (sp_nrows W =? 0)%nat; discriminate.
  - inversion H; subst. auto.
  - destruct (sp_nrows W =? 0)%nat; [discriminate|].
    destruct (nth_error (sp_rows W) d) as [doc|] eqn:Ed; [|discriminate].
    assert (Hdoc : Forall (fun cx : nat * R => 0 <= snd cx) doc).
    { unfold sp_all in HW. rewrite Forall_forall in HW. apply HW.
      eapply nth_error_In; eauto. }
    destruct (add_at_spec Hrow Hdoc) as [Hpos Hlen].
    destruct (IH _ _ Hpos H) as [H1 H2]. split; [exact H1|]. congruence.
  - inversion H; subst. auto.
Qed.

Lemma sample_rows_valid (W : csr_matrix R) (k : nat) (draws rest : list nat)
    (rows : list (list R)) :
  sp_all (fun x => 0 <= x) W -> (0 < sp_cols W)%nat ->
  CtmRandom.sample_rows W k draws = Returned (rows, rest) ->
  length rows = k /\ positive_rows rows /\
  Forall (fun r => length r = sp_cols W) rows.
Proof.
  intros HW HT. revert draws rows.
  induction k as [|k IH]; intros draws rows H; cbn [CtmRandom.sample_rows] in H.
  - inversion H; subst. repeat split; constructor.
  - destruct (CtmRandom.sample_row W draws (repeat one (sp_cols W)) zero)
      as [[row rest1]| | |] eqn:Er; try discriminate.
    destruct (CtmRandom.sample_rows W k rest1) as [[rows1 rest2]| | |] eqn:Ek;
      try discriminate.
    inversion H; subst; clear H.
    destruct (IH _ _ Ek) as (Hlen & Hpos & Hshape).
    assert (Hones : Forall (fun x : R => 1 <= x) (repeat one (sp_cols W))).
    { apply Forall_forall. intros x Hx. apply repeat_spec in Hx. subst x.
      unfold one. cbn. lra. }
    destruct (@sample_row_valid W draws rest1 _ row zero HW Hones Er) as [Hrow Hrl].
    rewrite repeat_length in Hrl.
    assert (Hne : row <> nil) by (intros ->; cbn in Hrl; lia).
    assert (Hrp : Forall (fun x => 0 < x) row).
    { eapply Forall_impl; [|exact Hrow]. intros x Hx. cbn in Hx. lra. }
    destruct (normalized_row Hne Hrp) as [Hsum Hnp].
    split; [cbn; lia|]. split.
    + constructor; [split; assumption | exact Hpos].
    + constructor; [rewrite length_map; exact Hrl | exact Hshape].
Qed.

Lemma sample_row_stuck (W : csr_matrix R) (draws : list nat) (row : list R) :
  (0 < sp_nrows W)%nat ->
  Forall (fun d => d < sp_nrows W)%nat draws ->
  Forall (fun doc => vsum (map snd doc) = 0) (sp_rows W) ->
  CtmRandom.sample_row W draws row 0 = MoreDraws.
Proof.
  intros HD Hdraws Hempty. revert row.
  assert (Hlt : nltb 0 (nZ 1000) = true).
  { cbn. destruct (Rlt_dec 0 1000) as [_|Hn]; [reflexivity|].
    exfalso. apply Hn. lra. }
  induction Hdraws as [|d draws Hd Hdraws IH]; intros row;
    cbn [CtmRandom.sample_row]; rewrite Hlt;
    destruct (Nat.eqb_spec (sp_nrows W) 0) as [E|_]; try lia.
  - reflexivity.
  - destruct (nth_error (sp_rows W) d) as [doc|] eqn:Ed.
    + assert (Hdoc : vsum (map snd doc) = 0).
      { rewrite Forall_forall in Hempty. apply Hempty.
        eapply nth_error_In; eauto. }
      rewrite Hdoc.
      replace (nadd 0 0) with 0 by (cbn; ring). apply IH.
    + apply nth_error_None in Ed. unfold sp_nrows in Hd. lia.
Qed.

Lemma sample_row_returns (W : csr_matrix R) (n : nat) :
  Forall (fun doc => 1 <= vsum (map snd doc)) (sp_rows W) ->
  forall (draws : list nat) (row : list R) (total : R),
    1000 <= total + INR n -> (n <= length draws)%nat ->
    Forall (fun d => d < sp_nrows W)%nat draws ->
    exists row' rest,
      CtmRandom.sample_row W draws row total = Returned (row', rest) /\
      (length draws <= length rest + n)%nat /\
      Forall (fun d => d < sp_nrows W)%nat rest.
Proof.
  intros Hdocs. induction n as [|n IH]; intros draws row total Hsum Hlen Hdraws.
  - cbn in Hsum.
    exists row, draws. split; [|split; [lia | exact Hdraws]].
    destruct draws; cbn [CtmRandom.sample_row]; cbn [nltb RNum nZ];
      destruct (Rlt_dec total 1000); try lra; reflexivity.
  - destruct (Rlt_dec total 1000) as [Hlt|Hge].
    + destruct draws as [|d draws]; [cbn in Hlen; lia|].
      inversion Hdraws as [|? ? Hd Hrest]; subst.
      cbn [CtmRandom.sample_row]. cbn [nltb RNum nZ].
      destruct (Rlt_dec total 1000) as [_|Hn]; [|contradiction].
      destruct (Nat.eqb_spec (sp_nrows W) 0) as [E|_]; [lia|].
      destruct (nth_error (sp_rows W) d) as [doc|] eqn:Ed.
      * assert (Hdoc : 1 <= vsum (map snd doc)).
        { rewrite Forall_forall in Hdocs. apply Hdocs.
          eapply nth_error_In; eauto. }
        destruct (IH draws (CtmRandom.add_at row doc)
                    (nadd total (vsum (map snd doc))))
          as (row' & rest & Hr & Hl & Hin).
        -- rewrite S_INR in Hsum. cbn [nadd RNum]. lra.
        -- cbn in Hlen. lia.
        -- exact Hrest.
        -- exists row', rest. split; [exact Hr|]. split; [cbn; lia | exact Hin].
      * apply nth_error_None in Ed. unfold sp_nrows in Hd. lia.
    + exists row, draws. split; [|split; [lia | exact Hdraws]].
      destruct draws; cbn [CtmRandom.sample_row]; cbn [nltb RNum nZ];
        destruct (Rlt_dec total 1000); try contradiction; reflexivity.
Qed.

Lemma sample_rows_returns (W : csr_matrix R) (k : nat) :
  Forall (fun doc => 1 <= vsum (map snd doc)) (sp_rows W) ->
  forall (draws : list nat),
    (1000 * k <= length draws)%nat ->
    Forall (fun d => d < sp_nrows W)%nat draws ->
    exists rows rest, CtmRandom.sample_rows W k draws = Returned (rows, rest).
Proof.
  intros Hdocs. induction k as [|k IH]; intros draws Hlen Hdraws;
    cbn [CtmRandom.sample_rows]; [eauto|].
  destruct (@sample_row_returns W 1000 Hdocs draws (repeat one (sp_cols W)) zero)
    as (row & rest & Hr & Hl & Hin); [cbn; lra | lia | exact Hdraws |].
  rewrite Hr.
  destruct (IH rest) as (rows & rest' & Hk); [lia | exact Hin |].
  rewrite Hk. eauto.
Qed.
End RandomModelFacts.

(** X10.  [newModelAtRandom] fails at its assertion when fewer than two
    topics are asked for, and, with two topics or more, fails with the
    [ValueError] of [rd.randint(0, 0)] when the data holds no document. *)
Theorem newModelAtRandom_rejects
    (draws : list nat) (rnd : list R) (data : DataSet R) (K : nat)
    (vocabPrior : R) (dtype : DType) :
  ((K <= 1)%nat ->
   CtmRandom.newModelAtRandom draws rnd data K vocabPrior dtype
   = Failed (AssertionError "There must be at least two topics")) /\
  ((1 < K)%nat -> sp_nrows (words data) = 0%nat ->
   CtmRandom.newModelAtRandom draws rnd data K vocabPrior dtype
   = FailedValueError).
Proof.
  unfold CtmRandom.newModelAtRandom. split.
  - intros HK. destruct (Nat.ltb_spec 1 K) as [H|_]; [lia|]. reflexivity.
  - intros HK HD. destruct (Nat.ltb_spec 1 K) as [_|H]; [|lia]. cbn [negb].
    destruct K as [|K]; [lia|]. cbn [CtmRandom.sample_rows].
    assert (Hrow : forall row,
              CtmRandom.sample_row (words data) draws row zero
              = FailedValueError).
    { intros row. destruct draws; cbn [CtmRandom.sample_row];
        cbn [nltb RNum nZ zero];
        (destruct (Rlt_dec 0 1000) as [_|Hn]; [|exfalso; apply Hn; lra]);
        rewrite HD; reflexivity. }
    rewrite Hrow. reflexivity.
Qed.

(** X11.  A model [newModelAtRandom] returns is a valid starting point:
    there are at least two topics; the vocabulary has one row per topic and
    one column per term; with non-negative counts every row has only
    positive entries and sums to one; the covariance is the identity; and
    the topic mean sums to one when the random vector it is built from has a
    positive sum. *)
Theorem newModelAtRandom_valid
    (draws : list nat) (rnd : list R) (data : DataSet R) (K : nat)
    (vocabPrior : R) (dtype : DType) (m : Ctm.ModelState R) :
  CtmRandom.newModelAtRandom draws rnd data K vocabPrior dtype = Returned m ->
  sp_all (fun x => 0 <= x)%R (words data) ->
  (0 < sp_cols (words data))%nat ->
  (1 < K)%nat /\ Ctm.K m = K /\
  length (Ctm.vocab m) = K /\
  ncols (Ctm.vocab m) = sp_cols (words data) /\
  Forall (fun r => length r = sp_cols (words data)) (Ctm.vocab m) /\
  positive_rows (Ctm.vocab m) /\
  Ctm.sigT m = np_diag (repeat 1%R K) /\
  ((0 < vsum rnd)%R -> vsum (Ctm.topicMean m) = 1%R).
Proof.
  unfold CtmRandom.newModelAtRandom. intros H HW HT.
  destruct (Nat.ltb_spec 1 K) as [HK|_]; [|discriminate]. cbn [negb] in H.
  destruct (CtmRandom.sample_rows (words data) K draws)
    as [[rows rest]| | |] eqn:Er; try discriminate.
  inversion H; subst; clear H.
  cbn [Ctm.K Ctm.vocab Ctm.sigT Ctm.topicMean].
  destruct (sample_rows_valid _ _ HW HT Er) as (Hlen & Hpos & Hshape).
  split; [exact HK|]. split; [reflexivity|]. split; [exact Hlen|].
  split; [|split; [exact Hshape|split; [exact Hpos|split; [reflexivity|]]]].
  - destruct rows as [|r rows]; [cbn in Hlen; lia|].
    inversion Hshape; subst. assumption.
  - intros Hsum. cbn [nastype RNum]. rewrite map_id.
    change (fun x : R => ndiv x (vsum rnd)) with (fun x : R => (x / vsum rnd)%R).
    rewrite vsum_map_div. field. lra.
Qed.

Lemma tiny_draws_in_range (n : nat) :
  Forall (fun d => d < sp_nrows (words tiny_data))%nat (repeat 0%nat n).
Proof.
  apply Forall_forall. intros d Hd. apply repeat_spec in Hd. subst d.
  cbn. lia.
Qed.

Lemma tiny_documents_hold_words :
  Forall (fun doc => 1 <= vsum (map snd doc))%R (sp_rows (words tiny_data)).
Proof. each_entry. cbn. lra. Qed.

Lemma newModelAtRandom_valid_witness :
  exists m,
    CtmRandom.newModelAtRandom (repeat 0%nat 2000) [1; 3]%R tiny_data 2
      (11 / 10)%R Float64 = Returned m /\
    length (Ctm.vocab m) = 2%nat /\
    positive_rows (Ctm.vocab m) /\
    vsum (Ctm.topicMean m) = 1%R.
Proof.
  destruct (@sample_rows_returns (words tiny_data) 2 tiny_documents_hold_words
              (repeat 0%nat 2000))
    as (rows & rest & Hr);
    [rewrite repeat_length; lia | apply tiny_draws_in_range |].
  assert (Hm : exists m,
            CtmRandom.newModelAtRandom (repeat 0%nat 2000) [1; 3]%R tiny_data 2
              (11 / 10)%R Float64 = Returned m).
  { unfold CtmRandom.newModelAtRandom. cbn [Nat.ltb Nat.leb negb].
    rewrite Hr. eauto. }
  destruct Hm as (m & Hm). exists m. split; [exact Hm|].
  destruct (@newModelAtRandom_valid (repeat 0%nat 2000) [1; 3]%R tiny_data 2
              (11 / 10)%R Float64 m Hm tiny_words_nonneg)
    as (_ & _ & Hlen & _ & _ & Hpos & _ & Htm); [cbn; lia|].
  split; [exact Hlen|]. split; [exact Hpos|]. apply Htm. cbn. lra.
Defined.

(** X12.  [newModelAtRandom] keeps drawing documents until the words drawn
    for a topic add up to 1000.  On data whose documents are all empty the
    sum stays at zero: however many draws the random generator supplies, the
    function is still asking for the next one. *)
Theorem newModelAtRandom_needs_words
    (draws : list nat) (rnd : list R) (data : DataSet R) (K : nat)
    (vocabPrior : R) (dtype : DType) :
  (1 < K)%nat -> (0 < sp_nrows (words data))%nat ->
  Forall (fun doc => vsum (map snd doc) = 0%R) (sp_rows (words data)) ->
  Forall (fun d => d < sp_nrows (words data))%nat draws ->
  CtmRandom.newModelAtRandom draws rnd data K vocabPrior dtype = MoreDraws.
Proof.
  intros HK HD Hempty Hdraws. unfold CtmRandom.newModelAtRandom.
  destruct (Nat.ltb_spec 1 K) as [_|H]; [|lia]. cbn [negb].
  destruct K as [|K]; [lia|]. cbn [CtmRandom.sample_rows].
  change (@zero R RNum) with 0%R.
  rewrite sample_row_stuck by assumption. reflexivity.
Qed.

(** Data of one document that holds no word. *)
Definition blank_data : DataSet R :=
  {| words := {| sp_cols := 1; sp_rows := [[]] |} |}.

Lemma newModelAtRandom_needs_words_witness :
  CtmRandom.newModelAtRandom [0; 0; 0]%nat [1; 3]%R blank_data 2 (11 / 10)%R
    Float64 = MoreDraws.
Proof.
  apply (@newModelAtRandom_needs_words [0; 0; 0]%nat [1; 3]%R blank_data 2
           (11 / 10)%R Float64).
  - lia.
  - cbn. lia.
  - each_entry. reflexivity.
  - each_entry; cbn; lia.
Defined.

(** X13.  When every document holds at least one word, a thousand draws for
    each topic are enough: [newModelAtRandom] returns a model. *)
Theorem newModelAtRandom_returns
    (draws : list nat) (rnd : list R) (data : DataSet R) (K : nat)
    (vocabPrior : R) (dtype : DType) :
  (1 < K)%nat ->
  Forall (fun doc => 1 <= vsum (map snd doc))%R (sp_rows (words data)) ->
  Forall (fun d => d < sp_nrows (words data))%nat draws ->
  (1000 * K <= length draws)%nat ->
  exists m,
    CtmRandom.newModelAtRandom draws rnd data K vocabPrior dtype = Returned m.
Proof.
  intros HK Hdocs Hdraws Hlen. unfold CtmRandom.newModelAtRandom.
  destruct (Nat.ltb_spec 1 K) as [_|H]; [|lia]. cbn [negb].
  destruct (@sample_rows_returns (words data) K Hdocs draws Hlen Hdraws)
    as (rows & rest & Hr).
  rewrite Hr. eauto.
Qed.

Lemma newModelAtRandom_returns_witness :
  exists m,
    CtmRandom.newModelAtRandom (repeat 0%nat 2000) [1; 3]%R tiny_data 2
      (11 / 10)%R Float64 = Returned m.
Proof.
  apply (@newModelAtRandom_returns (repeat 0%nat 2000) [1; 3]%R tiny_data 2
           (11 / 10)%R Float64).
  - lia.
  - exact tiny_documents_hold_words.
  - apply tiny_draws_in_range.
  - rewrite repeat_length. lia.
Defined.

(** ** Exceptions and early exit of [query] *)

(** X14.  With debugging off, the [query] of [ctm.py] raises exactly when
    the covariance of the model cannot be inverted, before its loop: a
    document whose own system cannot be inverted inside the loop is printed
    about and skipped, and [query] still returns. *)
Theorem query_raises_only_for_sigT
    {num : Type} {N : Numeric num} (ext : Externals num)
    (dataset : DataSet num) (modelState : Ctm.ModelState num)
    (queryState : Ctm.QueryState num) (plan : Ctm.TrainPlan num)
    (c : Console num) :
  Ctm.debug plan = false ->
  match la_inv ext (Ctm.sigT modelState) with
  | None =>
      Ctm.query ext dataset modelState queryState plan c = Raise LinAlgError
  | Some _ =>
      exists o, Ctm.query ext dataset modelState queryState plan c = Ok o
  end.
Proof.
  intros Hd.
  destruct (la_inv ext (Ctm.sigT modelState)) as [isigT|] eqn:Hi.
  - eapply query_returns; eauto.
  - unfold Ctm.query. rewrite Hi. reflexivity.
Qed.

Lemma query_raises_only_for_sigT_witness :
  exists o,
    Ctm.query ref_ext tiny_data tiny_model tiny_query (tiny_plan 3 1) console0
    = Ok o.
Proof.
  pose proof (@query_raises_only_for_sigT R RNum ref_ext tiny_data tiny_model
                tiny_query (tiny_plan 3 1) console0 eq_refl) as H.
  rewrite tiny_sigT_inverse in H. exact H.
Defined.

(** X15.  The loop of [query] can be left early only after iteration 20: a
    plan of at most 21 iterations is run to its end, and what [query]
    returns is built from the state after the last of them. *)
Theorem query_runs_short_plans
    {num : Type} {N : Numeric num} (ext : Externals num)
    (dataset : DataSet num) (modelState : Ctm.ModelState num)
    (queryState : Ctm.QueryState num) (plan : Ctm.TrainPlan num)
    (c : Console num) (o : Ctm.QueryOutput num) :
  Ctm.query ext dataset modelState queryState plan c = Ok o ->
  (Ctm.iterations plan <= 21)%nat ->
  exists isigT st,
    let expMeans := exp_shifted (Ctm.means queryState) in
    let S := Ctm.expected_counts (words dataset) expMeans
               (Ctm.vocab modelState) in
    la_inv ext (Ctm.sigT modelState) = Some isigT /\
    for_range (Ctm.query_iteration ext dataset modelState queryState plan
                 isigT expMeans S)
      0 (Ctm.iterations plan) (Ctm.query_initial modelState queryState c)
      = Ok (inl st) /\
    o = Ctm.query_output modelState queryState expMeans st.
Proof.
  unfold Ctm.query. intros H Hshort.
  destruct (la_inv ext (Ctm.sigT modelState)) as [isigT|] eqn:Hinv;
    [|discriminate].
  bind_ok H. exists isigT.
  destruct a as [st|st].
  - exists st. cbn zeta. inversion H; subst. auto.
  - exfalso. pose proof E as E1. apply for_range_return_at in E1.
    destruct E1 as (j & st1 & Hj & _ & Hret).
    unfold Ctm.query_iteration in Hret. do 4 bind_ok Hret.
    destruct (Nat.ltb_spec 20 j) as [H20|_]; [lia|].
    cbn [andb] in Hret. discriminate Hret.
Qed.

Lemma query_runs_short_plans_witness :
  exists isigT st,
    la_inv ref_ext (Ctm.sigT tiny_model) = Some isigT /\
    for_range (Ctm.query_iteration ref_ext tiny_data tiny_model tiny_query
                 (tiny_plan 3 1) isigT
                 (exp_shifted (Ctm.means tiny_query))
                 (Ctm.expected_counts (words tiny_data)
                    (exp_shifted (Ctm.means tiny_query))
                    (Ctm.vocab tiny_model)))
      0 3 (Ctm.query_initial tiny_model tiny_query console0)
      = Ok (inl st).
Proof.
  destruct (@query_returns _ _ ref_ext tiny_data tiny_model tiny_query
              (tiny_plan 3 1) console0 _ eq_refl tiny_sigT_inverse)
    as (o & Ho).
  destruct (@query_runs_short_plans R RNum ref_ext tiny_data tiny_model
              tiny_query (tiny_plan 3 1) console0 o Ho)
    as (isigT & st & Hi & Hrun & _); [cbn; lia|].
  exists isigT, st. split; [exact Hi | exact Hrun].
Defined.

(** ** The Bohning variant: variances of [train], means of [query] *)

(** X16.  In [train] of [ctm_bohning_fast.py] the variances do not depend on
    the covariance that was estimated: [sigT] is replaced by the identity
    (lines 245-247) before line 272 reads its diagonal, so that, in either
    covariance mode, [varcs[d,k]] is [1 / (docLens[d] * (K-1)/K + 1)]. *)
Theorem bohning_train_varcs_fixed
    {num : Type} {N : Numeric num} (ext : Externals num) (K : nat)
    (flag : bool) (sigT : list (list num)) (docLens : list num)
    (p : list (list num) * list (list num)) :
  CtmBohningFast.precision ext K flag sigT = Ok p ->
  BohningUpdates.train_varcs K docLens (fst p)
  = map (fun nd =>
           repeat (ndiv one
                     (nadd (ndiv (nmul nd (nsub (ofnat K) one)) (ofnat K)) one))
                  K)
        docLens.
Proof.
  intros H.
  assert (Hp : fst p = CtmBohningFast.eye K).
  { unfold CtmBohningFast.precision in H.
    destruct flag.
    - cbn [bind] in H.
      destruct (la_inv ext (CtmBohningFast.eye K)); inversion H; reflexivity.
    - destruct (la_inv ext sigT); cbn [bind] in H; [|discriminate].
      destruct (la_inv ext (CtmBohningFast.eye K)); inversion H; reflexivity. }
  rewrite Hp. unfold BohningUpdates.train_varcs, CtmBohningFast.eye.
  rewrite diagonal_np_diag. apply map_ext. intros nd.
  rewrite map_repeat. reflexivity.
Qed.

Lemma bohning_train_varcs_fixed_witness :
  exists p,
    CtmBohningFast.precision ref_ext 2 true (np_diag [5; 7]%R) = Ok p /\
    BohningUpdates.train_varcs 2 [3%R] (fst p)
    = [[(1 / (3 * (2 - 1) / 2 + 1))%R; (1 / (3 * (2 - 1) / 2 + 1))%R]].
Proof.
  assert (Hinv : la_inv ref_ext (@CtmBohningFast.eye R RNum 2)
                 = Some (np_diag (map (Rdiv 1) [1; 1]%R))).
  { cbn [la_inv ref_ext]. apply (diag_inv_np_diag (v := [1; 1]%R)).
    each_entry; lra. }
  assert (Hp : exists p,
            CtmBohningFast.precision ref_ext 2 true (np_diag [5; 7]%R) = Ok p).
  { unfold CtmBohningFast.precision. cbn [bind]. rewrite Hinv. eauto. }
  destruct Hp as (p & Hp). exists p. split; [exact Hp|].
  exact (@bohning_train_varcs_fixed R RNum ref_ext 2 true (np_diag [5; 7]%R)
           [3%R] p Hp).
Defined.

Section BohningFullQuery.
Context {num : Type} {N : Numeric num}.
Variable ext : Externals num.
Variable dbg :
  nat -> list num -> string -> csr_matrix num -> CtmBohningFast.ModelState num ->
  list (list num) -> list (list num) -> list num ->
  Console num -> Exec (Console num).
Variable data : DataSet num.
Variable modelState : CtmBohningFast.ModelState num.
Variable queryState : CtmBohningFast.QueryState num.
Variable plan : Ctm.TrainPlan num.
Variables isigT varcs : list (list num).

Local Abbreviation body :=
  (CtmBohningFast.query_iteration ext dbg data modelState queryState plan
     isigT varcs).

(** The local [means] still names the caller's array. *)
Definition in_place (st : CtmBohningFast.QuerySt num) : Prop :=
  CtmBohningFast.q_aliased st = true /\
  CtmBohningFast.q_arg_means st = CtmBohningFast.q_means st.

(** In the full-covariance mode the means are written row by row into the
    array [means] names, which stays the caller's. *)
Lemma bohning_iteration_in_place (itr : nat) (st : CtmBohningFast.QuerySt num)
    (r : CtmBohningFast.QuerySt num + CtmBohningFast.QuerySt num) :
  Ctm.fastButInaccurate plan = false ->
  in_place st -> body itr st = Ok r -> in_place (outcome r).
Proof.
  unfold CtmBohningFast.query_iteration, in_place. intros Hf [Ha Hm] H.
  rewrite Hf, Ha in H.
  match type of H with
  | bind (bind ?m _) _ = _ => destruct m as [rows|] eqn:Es; [|discriminate H]
  end.
  cbn [bind fst snd] in H. bind_ok H.
  match type of H with
  | (if ?b then _ else _) = _ => destruct b
  end; inversion H; subst; cbn; split; reflexivity.
Qed.

Lemma solve_rows_ok (A : list (list num)) (n : list num)
    (rhs means : list (list num)) :
  (forall nd, In nd n ->
     exists M, la_inv ext (mat_zip nadd isigT (mat_map (nmul nd) A)) = Some M) ->
  exists m, CtmBohningFast.solve_rows ext isigT A n rhs means = Ok m.
Proof.
  revert rhs means. induction n as [|nd n IH]; intros rhs means Hinv;
    cbn [CtmBohningFast.solve_rows]; [eauto|].
  destruct rhs as [|r rhs]; [eauto|]. destruct means as [|m means]; [eauto|].
  destruct (Hinv nd (or_introl eq_refl)) as [M HM]. rewrite HM.
  destruct (IH rhs means) as [rest Hrest].
  - intros x Hx. apply Hinv. right. exact Hx.
  - rewrite Hrest. cbn [bind]. eauto.
Qed.

Lemma bohning_full_iteration_ok (itr : nat) (st : CtmBohningFast.QuerySt num) :
  Ctm.debug plan = false -> Ctm.fastButInaccurate plan = false ->
  (forall nd, In nd (CtmBohningFast.docLens queryState) ->
     exists M, la_inv ext
                 (mat_zip nadd isigT
                    (mat_map (nmul nd) (CtmBohningFast.A modelState)))
               = Some M) ->
  exists r, body itr st = Ok r.
Proof.
  intros Hd Hf Hinv.
  unfold CtmBohningFast.query_iteration, CtmBohningFast.debugFn.
  rewrite Hf, Hd.
  match goal with
  | |- context [CtmBohningFast.solve_rows ?e ?i ?a ?n ?rhs ?m] =>
      destruct (@solve_rows_ok a n rhs m Hinv) as [x Hx]; rewrite Hx
  end.
  cbn [bind fst snd].
  match goal with
  | |- exists r, (if ?b then _ else _) = _ => destruct b
  end; eauto.
Qed.
End BohningFullQuery.

(** X17.  In the full-covariance mode the [query] of [ctm_bohning_fast.py]
    writes the means of every iteration into the caller's array, row by
    row: the query state it returns holds the means the loop ended with.
    Its variances are still those it was given. *)
Theorem bohning_full_query_returns_final_means
    {num : Type} {N : Numeric num} (ext : Externals num)
    (dbg : nat -> list num -> string -> csr_matrix num ->
           CtmBohningFast.ModelState num -> list (list num) ->
           list (list num) -> list num -> Console num -> Exec (Console num))
    (data : DataSet num) (modelState : CtmBohningFast.ModelState num)
    (queryState : CtmBohningFast.QueryState num) (plan : Ctm.TrainPlan num)
    (c : Console num) (o : CtmBohningFast.QueryOutput num) :
  Ctm.fastButInaccurate plan = false ->
  CtmBohningFast.query ext dbg data modelState queryState plan c = Ok o ->
  exists isigT st0 r,
    la_inv ext (CtmBohningFast.sigT modelState) = Some isigT /\
    CtmBohningFast.q_means st0 = CtmBohningFast.means queryState /\
    for_range (CtmBohningFast.query_iteration ext dbg data modelState
                 queryState plan isigT
                 (CtmBohningFast.query_varcs modelState queryState isigT))
      0 (Ctm.iterations plan) st0 = Ok r /\
    CtmBohningFast.means (snd (CtmBohningFast.q_returned o))
      = CtmBohningFast.q_means (outcome r) /\
    CtmBohningFast.varcs (snd (CtmBohningFast.q_returned o))
      = CtmBohningFast.varcs queryState.
Proof.
  intros Hf H. unfold CtmBohningFast.query in H.
  destruct (la_inv ext (CtmBohningFast.sigT modelState)) as [isigT|] eqn:Hi;
    [|discriminate].
  do 2 bind_ok H.
  match type of E0 with
  | for_range _ _ _ ?s = _ => set (st0 := s) in *
  end.
  assert (Hin : in_place (outcome a0)).
  { eapply (for_range_outcome
              (CtmBohningFast.query_iteration ext dbg data modelState
                 queryState plan isigT
                 (CtmBohningFast.query_varcs modelState queryState isigT))
              in_place) with (st := st0);
      [|split; reflexivity|exact E0].
    intros itr st r Hst Hb. eapply bohning_iteration_in_place; eauto. }
  destruct Hin as [_ Hm].
  exists isigT, st0, a0. split; [reflexivity|]. split; [reflexivity|].
  split; [exact E0|].
  clear E0 E. subst st0.
  destruct a0 as [st|st]; inversion H; subst o;
    cbn [outcome] in Hm |- *;
    cbn [CtmBohningFast.query_output CtmBohningFast.q_returned snd
         CtmBohningFast.means CtmBohningFast.varcs];
    (split; [exact Hm | reflexivity]).
Qed.

(** The small problem for the Bohning model with a diagonal matrix [A], and
    a plan of one iteration in the full-covariance mode. *)
Definition bohning_diag_model : CtmBohningFast.ModelState R :=
  {| CtmBohningFast.K := 2; CtmBohningFast.topicMean := [0%R; 0%R];
     CtmBohningFast.sigT := np_diag [1%R; 1%R];
     CtmBohningFast.vocab := [[1%R]; [1%R]];
     CtmBohningFast.vocabPrior := (11 / 10)%R;
     CtmBohningFast.A := [[(1 / 3)%R; 0%R]; [0%R; (1 / 3)%R]];
     CtmBohningFast.dtype := Float64;
     CtmBohningFast.name := "ctm/bohning" |}.

Definition bohning_full_plan : Ctm.TrainPlan R :=
  {| Ctm.iterations := 1; Ctm.epsilon := 2%R; Ctm.logFrequency := 10;
     Ctm.fastButInaccurate := false; Ctm.debug := false |}.

Lemma diag_inv_2x2 (a b c d : R) :
  b = 0%R -> c = 0%R -> a <> 0%R -> d <> 0%R ->
  exists M, la_inv ref_ext [[a; b]; [c; d]] = Some M.
Proof.
  intros -> -> Ha Hd. cbn. unfold diag_inv. cbn.
  repeat match goal with
         | |- context [Req_dec_T ?x ?y] =>
             destruct (Req_dec_T x y); try contradiction; try lra
         end.
  cbn. eauto.
Qed.

Lemma bohning_full_query_returns_final_means_witness :
  exists o r,
    CtmBohningFast.query ref_ext no_debug tiny_data bohning_diag_model
      bohning_query bohning_full_plan console0 = Ok o /\
    CtmBohningFast.means (snd (CtmBohningFast.q_returned o))
      = CtmBohningFast.q_means (outcome r) /\
    CtmBohningFast.varcs (snd (CtmBohningFast.q_returned o)) = [[1; 1]]%R.
Proof.
  assert (Hinv : la_inv ref_ext (CtmBohningFast.sigT bohning_diag_model)
                 = Some (np_diag (map (Rdiv 1) [1; 1]%R))).
  { cbn [la_inv ref_ext CtmBohningFast.sigT bohning_diag_model].
    apply (diag_inv_np_diag (v := [1; 1]%R)). each_entry; lra. }
  assert (Ho : exists o,
            CtmBohningFast.query ref_ext no_debug tiny_data bohning_diag_model
              bohning_query bohning_full_plan console0 = Ok o).
  { unfold CtmBohningFast.query. rewrite Hinv.
    unfold CtmBohningFast.debugFn at 1.
    cbn [Ctm.debug bohning_full_plan bind Ctm.iterations for_range].
    match goal with
    | |- context [CtmBohningFast.query_iteration ?e ?g ?d ?m ?q ?p ?i ?v ?n ?s] =>
        destruct (@bohning_full_iteration_ok R RNum e g d m q p i v n s
                    eq_refl eq_refl) as [r Hr]
    end.
    - intros nd [<-|[]]. cbn. apply diag_inv_2x2; lra.
    - rewrite Hr. destruct r; cbn [bind]; eauto. }
  destruct Ho as (o & Ho).
  destruct (@bohning_full_query_returns_final_means R RNum ref_ext no_debug
              tiny_data bohning_diag_model bohning_query bohning_full_plan
              console0 o eq_refl Ho)
    as (isigT & st0 & r & _ & _ & _ & Hm & Hv).
  exists o, r. split; [exact Ho|]. split; [exact Hm | exact Hv].
Defined.
